(** * Income over feed cost (IOFC): the two calculators of [IOFC_template]

    A shallow embedding of [calc_IOFC_manual] and [calc_IOFC_nd] and of the
    example data of the notebook.

    - Python [float] and numpy [float64] are IEEE binary64: they are Rocq's
      primitive [float], whose operations the kernel evaluates bit for bit.
      The integers of the example (31, 200, 90, ...) are below [2^53] and
      pandas converts them exactly before a true division, so they are
      written as floats.
    - A [dict] with string keys is a [gmap string float]; a
      [collections.defaultdict] is such a map with the float that its
      factory returns.
    - Python objects live in a heap and are passed by reference; a
      calculator is a computation in the monad [Py], which threads the heap
      and the printed output and may raise.
    - A [DataFrame] is the list of its rows, one record per row.

    What the embedding takes from pandas and numpy:
    - [Series.map(d)] gives NaN for a key that a plain dict [d] lacks; for
      a dict subclass with [__missing__] it maps [lambda x: d[x]] over the
      elements, and a defaultdict stores the default under a key it lacks;
    - [mod_output.get_value(name)] of nasem_dairy returns [None] for a name
      that the model output lacks;
    - a division of a column by a column is elementwise and raises nothing:
      a zero divisor gives an infinity or NaN;
    - [Series.sum()] skips NaN entries ([skipna=True]) and adds the others
      in the order of numpy's pairwise summation;
    - [DataFrame.assign] and [DataFrame.filter] return a new frame and leave
      the frame they are called on as it is. *)

From Stdlib Require Import ZArith List String Floats Bool Lia Reals Lra.
From stdpp Require Import base option list gmap strings.

Set Warnings "-inexact-float".

Open Scope string_scope.

(* ===================================================================== *)
(** ** numpy and pandas primitives *)
(* ===================================================================== *)

Module Np.

Open Scope float_scope.

(** [Series.isna], elementwise: a float is missing when it is NaN. *)
Definition isna (x : float) : bool := is_nan x.

(** [nanops._get_values(values, skipna=True, fill_value=0)]: the missing
    entries are overwritten with 0 before the reduction. *)
Definition fillna0 (x : float) : float := if isna x then 0 else x.

(** [res = 0.; for (i = 0; i < n; i++) res += a[i]], from accumulator
    [res]. *)
Definition sum_loop (res : float) (a : list float) : float :=
  fold_left add a res.

(** The eight accumulators [r[0..7]] of the unrolled block. *)
Definition acc8 (r : list float) (j : nat) : float := nth j r 0.

(** [r[j] += a[i + j]] for every block of eight that fits. *)
Fixpoint unrolled (blocks : nat) (r a : list float) : list float * list float :=
  match blocks with
  | O => (r, a)
  | S b => unrolled b (zip_with add r (take 8 a)) (drop 8 a)
  end.

(** [((r[0] + r[1]) + (r[2] + r[3])) + ((r[4] + r[5]) + (r[6] + r[7]))]. *)
Definition tree8 (r : list float) : float :=
  ((acc8 r 0 + acc8 r 1) + (acc8 r 2 + acc8 r 3))
  + ((acc8 r 4 + acc8 r 5) + (acc8 r 6 + acc8 r 7)).

(** The branch [8 <= n <= PW_BLOCKSIZE] of numpy's pairwise sum. *)
Definition block_sum (a : list float) : float :=
  let n := length a in
  let '(r, rest) := unrolled (n / 8 - 1) (take 8 a) (drop 8 a) in
  sum_loop (tree8 r) rest.

Definition PW_BLOCKSIZE : nat := 128.

(** numpy's [DOUBLE_pairwise_sum]: a plain loop below eight elements, the
    unrolled block up to [PW_BLOCKSIZE], and above it the two halves, the
    first of a length that is a multiple of eight. The recursion is on
    [fuel]; [length a] is enough ([pairwise_sum_fuel]). *)
Fixpoint pairwise_sum (fuel : nat) (a : list float) : float :=
  let n := length a in
  if (n <? 8)%nat then sum_loop 0 a
  else if (n <=? PW_BLOCKSIZE)%nat then block_sum a
  else match fuel with
       | O => block_sum a
       | S f =>
           let n2 := (n / 2 - (n / 2) mod 8)%nat in
           pairwise_sum f (take n2 a) + pairwise_sum f (drop n2 a)
       end.

(** [ndarray.sum()] of a one-dimensional float64 array: the reduction
    starts from the identity of [add] and adds the pairwise sum. *)
Definition sum (a : list float) : float :=
  0 + pairwise_sum (length a) a.

(** [Series.sum()] with its defaults [skipna=True, min_count=0]. *)
Definition Series_sum (s : list float) : float :=
  sum (fillna0 <$> s).

(** One element of [Series.map(d)] for a plain dict [d]: a key without an
    entry maps to NaN. *)
Definition map_dict (d : gmap string float) (k : string) : float :=
  default nan (d !! k).

(** [Series.all()]. *)
Definition Series_all (s : list bool) : bool := forallb (fun b => b) s.

(** [df[mask]]: the rows at which the boolean Series is [True]. *)
Fixpoint mask_rows {A} (mask : list bool) (rows : list A) : list A :=
  match mask, rows with
  | b :: mask', r :: rows' =>
      if b then r :: mask_rows mask' rows' else mask_rows mask' rows'
  | _, _ => []
  end.

End Np.

(* ===================================================================== *)
(** ** Data model *)
(* ===================================================================== *)

(** A row of the ration table handed to the manual calculator. *)
Record RationLine := {
  Ingredient : string;
  kg_inclusion : float;
  DM_perc : float
}.

(** A row of the table [ration_df.assign(...)] builds: the three input
    columns and the four derived ones. *)
Record CostLine := {
  cl_Ingredient : string;
  cl_kg_inclusion : float;
  cl_DM_perc : float;
  price_asfed_t : float;
  price_DM_t : float;
  price_DM_kg : float;
  daily_cost : float
}.

(** A row of [mod_output.Intakes['diet_info']] restricted to the columns
    that [.filter([...])] keeps. *)
Record DietRow := {
  Feedstuff : string;
  Fd_DMInp : float;
  Fd_DM : float;
  Fd_DMIn : float
}.

(** A row of [diet_sub]. *)
Record DietCostRow := {
  dc_Feedstuff : string;
  dc_Fd_DMInp : float;
  dc_Fd_DM : float;
  dc_Fd_DMIn : float;
  dollar_t_as_fed : float;
  dollar_t_DM : float;
  dollar_fed_p_d : float
}.

Definition addr := nat.

(** The Python objects the calculators touch. [ODefaultDict d default] is a
    [collections.defaultdict] with the entries [d] whose factory returns
    [default]. *)
Inductive object :=
| ODict (d : gmap string float)
| ODefaultDict (d : gmap string float) (default : float)
| ORation (rows : list RationLine)
| ORationCost (rows : list CostLine)
| ODiet (rows : list DietRow)
| ODietCost (rows : list DietCostRow)
| OModelOutput (values : gmap string float) (diet_info : addr).

(** What [print] writes under [verbose]; the numbers are the arguments of
    [round(_, 2)] in the f-strings. *)
Inductive printed :=
| PComponents (milk_fat_kg_d milk_TP_kg_d milk_other_kg_d : float)
| PDollars (milk_fat_dollar_d milk_protein_dollar_d milk_other_dollar_d : float)
| PRevenue (revenue_dollar_per_d : float)
| PFrame (rows : list CostLine)
| PDietCost (diet_cost_p_d : float)
| PIOFC (IOFC : float).

Inductive exn :=
| ValueError (unmatched_ingredients : list string)
| KeyError (key : string)
| TypeError.

Record world := World {
  heap : list object;
  stdout : list printed
}.

(* ===================================================================== *)
(** ** The monad of Python computations *)
(* ===================================================================== *)

Definition Py (A : Type) : Type := world -> (exn + A) * world.

Definition ret {A} (a : A) : Py A := fun w => (inr a, w).

Definition bind {A B} (m : Py A) (k : A -> Py B) : Py B :=
  fun w => match m w with
           | (inl e, w') => (inl e, w')
           | (inr a, w') => k a w'
           end.

Definition raise {A} (e : exn) : Py A := fun w => (inl e, w).

Declare Scope py_scope.
Delimit Scope py_scope with py.
Notation "x <- m ;; k" := (bind m (fun x => k))
  (at level 100, m at next level, right associativity) : py_scope.
Notation "m ;;; k" := (bind m (fun _ => k))
  (at level 100, right associativity) : py_scope.
Open Scope py_scope.

(** Dereference an argument. *)
Definition deref (a : addr) : Py object :=
  fun w => match heap w !! a with
           | Some o => (inr o, w)
           | None => (inl TypeError, w)
           end.

(** A new object; the heap grows at its end, nothing else changes. *)
Definition alloc (o : object) : Py addr :=
  fun w => (inr (length (heap w)), World (heap w ++ [o]) (stdout w)).

(** Overwrite the object at an address. *)
Definition store (a : addr) (o : object) : Py unit :=
  fun w => (inr tt, World (<[a := o]> (heap w)) (stdout w)).

Definition print (p : printed) : Py unit :=
  fun w => (inr tt, World (heap w) (stdout w ++ [p])).

Definition when (b : bool) (m : Py unit) : Py unit :=
  if b then m else ret tt.

(** [for x in l], collecting the results. *)
Fixpoint mapM {A B} (f : A -> Py B) (l : list A) : Py (list B) :=
  match l with
  | [] => ret []
  | x :: l' => y <- f x ;; ys <- mapM f l' ;; ret (y :: ys)
  end.

(** [d[key]]: a plain dict raises KeyError for a key it lacks; the
    [__missing__] of a defaultdict stores the default under the key and
    returns it. *)
Definition getitem (a : addr) (key : string) : Py float :=
  o <- deref a ;;
  match o with
  | ODict d =>
      match d !! key with Some v => ret v | None => raise (KeyError key) end
  | ODefaultDict d default =>
      match d !! key with
      | Some v => ret v
      | None => store a (ODefaultDict (<[key := default]> d) default) ;;; ret default
      end
  | _ => raise TypeError
  end.

(** [s.map(mapper)] on a column of strings: a plain dict gives NaN for a
    key it lacks; for a dict with [__missing__] pandas maps
    [lambda x: mapper[x]] over the elements, first to last. *)
Definition Series_map (mapper : addr) (s : list string) : Py (list float) :=
  o <- deref mapper ;;
  match o with
  | ODict d => ret (Np.map_dict d <$> s)
  | ODefaultDict _ _ => mapM (getitem mapper) s
  | _ => raise TypeError
  end.

Definition as_ration (a : addr) : Py (list RationLine) :=
  o <- deref a ;;
  match o with ORation rows => ret rows | _ => raise TypeError end.

Definition as_ration_cost (a : addr) : Py (list CostLine) :=
  o <- deref a ;;
  match o with ORationCost rows => ret rows | _ => raise TypeError end.

Definition as_diet (a : addr) : Py (list DietRow) :=
  o <- deref a ;;
  match o with ODiet rows => ret rows | _ => raise TypeError end.

Definition as_diet_cost (a : addr) : Py (list DietCostRow) :=
  o <- deref a ;;
  match o with ODietCost rows => ret rows | _ => raise TypeError end.

(** [mod_output.get_value(name)]: the value, or [None] for a name that the
    model output lacks. *)
Definition get_value (a : addr) (name : string) : Py (option float) :=
  o <- deref a ;;
  match o with
  | OModelOutput values _ => ret (values !! name)
  | _ => raise TypeError
  end.

(** An operand of [/] or [*]: arithmetic on [None] raises TypeError. *)
Definition operand (v : option float) : Py float :=
  match v with Some x => ret x | None => raise TypeError end.

(** [mod_output.Intakes['diet_info']] *)
Definition Intakes_diet_info (a : addr) : Py addr :=
  o <- deref a ;;
  match o with
  | OModelOutput _ diet_info => ret diet_info
  | _ => raise TypeError
  end.

(* ===================================================================== *)
(** ** Module-level data of the notebook *)
(* ===================================================================== *)

Open Scope float_scope.

Definition milk_prices : gmap string float :=
  list_to_map [
    ("milk_other_solids_production_perc", 5.7);
    ("milk_fat_dollar_kg", 13.3);
    ("milk_protein_dollar_kg", 10.96);
    ("other_solids_dollar_kg", 0.9) ].

(** $/tonne, as fed: the items of the dict literal, in source order. *)
Definition ingredient_price_items : list (string * float) := [
    ("Wheat straw, Elora", 200);
    ("Alfalfa Silage", 230);
    ("Corn silage, Elora", 180);
    ("Corn Grain HM", 250);
    ("Soy Plus", 700);
    ("Soybean meal 47%", 600);
    ("Canola", 600);
    ("Wheat Shorts", 250);
    ("Tallow", 500);
    ("Sodium chloride (salt)", 1000);
    ("Limestone calcium carbonate", 1000);
    ("Monocalcium phosphate(Dical)", 1000);
    ("Magnesium oxide, Elora", 1000);
    ("Diamond V yeast", 2000);
    ("DCAD+ (Potassium carbonate)", 1000);
    ("Metasmart", 2000);
    ("Vitamin/mineral mix", 2000) ].

Definition ingredient_prices_asfed_tonne : gmap string float :=
  list_to_map ingredient_price_items.

Definition milk_components : gmap string float :=
  list_to_map [
    ("MY_kg_d", 31);
    ("Milk_Fat_perc", 3.6);
    ("Milk_TProt_perc", 3.3) ].

Definition ration_list : list RationLine := [
  {| Ingredient := "Wheat straw, Elora";  kg_inclusion := 0.5; DM_perc := 90 |};
  {| Ingredient := "Alfalfa Silage";      kg_inclusion := 8.2; DM_perc := 35 |};
  {| Ingredient := "Corn silage, Elora";  kg_inclusion := 8.2; DM_perc := 33 |};
  {| Ingredient := "Corn Grain HM";       kg_inclusion := 3.7; DM_perc := 87 |};
  {| Ingredient := "Soybean meal 47%";    kg_inclusion := 2.0; DM_perc := 88 |};
  {| Ingredient := "Canola";              kg_inclusion := 1.0; DM_perc := 91 |};
  {| Ingredient := "Vitamin/mineral mix"; kg_inclusion := 0.2; DM_perc := 100 |} ].

(* ===================================================================== *)
(** ** 1. Manual IOFC *)
(* ===================================================================== *)

(** The lambdas of [ration_df.assign(...)] after the first, on one row
    whose [price_asfed_t] the first has set. *)
Definition cost_line (r : RationLine) (price_asfed_t : float) : CostLine :=
  let price_DM_t := price_asfed_t / DM_perc r * 100 in
  let price_DM_kg := price_DM_t / 1000 in
  let daily_cost := kg_inclusion r * price_DM_kg in
  {| cl_Ingredient := Ingredient r;
     cl_kg_inclusion := kg_inclusion r;
     cl_DM_perc := DM_perc r;
     price_asfed_t := price_asfed_t;
     price_DM_t := price_DM_t;
     price_DM_kg := price_DM_kg;
     daily_cost := daily_cost |}.

(** The four lambdas of [ration_df.assign(...)], on one row, for a plain
    dict of prices. *)
Definition assign_cost (ingredient_prices : gmap string float) (r : RationLine) : CostLine :=
  cost_line r (Np.map_dict ingredient_prices (Ingredient r)).

(** [ration_df['Ingredient'].apply(lambda x: x in ingredient_prices_asfed_tonne)]:
    the membership test is in the module-level table. *)
Definition ingredient_validation (rows : list RationLine) : list bool :=
  (fun x => bool_decide (is_Some (ingredient_prices_asfed_tonne !! x)))
    <$> (Ingredient <$> rows).

(** [ration_df[~ingredient_validation]['Ingredient'].tolist()] *)
Definition unmatched_ingredients (rows : list RationLine) : list string :=
  Ingredient <$> Np.mask_rows (negb <$> ingredient_validation rows) rows.

Definition calc_IOFC_manual
    (milk_prices milk_components ingredient_prices ration_df : addr)
    (verbose : bool) : Py float :=
  (* Input validation *)
  rows <- as_ration ration_df ;;
  if negb (Np.Series_all (ingredient_validation rows)) then
    raise (ValueError (unmatched_ingredients rows))
  else
  (* Component production kg/d *)
  MY_kg_d <- getitem milk_components "MY_kg_d" ;;
  Milk_Fat_perc <- getitem milk_components "Milk_Fat_perc" ;;
  let milk_fat_kg_d := Milk_Fat_perc / 100 * MY_kg_d in
  Milk_TProt_perc <- getitem milk_components "Milk_TProt_perc" ;;
  let milk_TP_kg_d := Milk_TProt_perc / 100 * MY_kg_d in
  milk_other_solids_production_perc <-
    getitem milk_prices "milk_other_solids_production_perc" ;;
  let milk_other_kg_d := milk_other_solids_production_perc / 100 * MY_kg_d in
  when verbose (print (PComponents milk_fat_kg_d milk_TP_kg_d milk_other_kg_d)) ;;;
  (* Revenue $/d *)
  milk_fat_dollar_kg <- getitem milk_prices "milk_fat_dollar_kg" ;;
  let milk_fat_dollar_d := milk_fat_kg_d * milk_fat_dollar_kg in
  milk_protein_dollar_kg <- getitem milk_prices "milk_protein_dollar_kg" ;;
  let milk_protein_dollar_d := milk_TP_kg_d * milk_protein_dollar_kg in
  other_solids_dollar_kg <- getitem milk_prices "other_solids_dollar_kg" ;;
  let milk_other_dollar_d := milk_other_kg_d * other_solids_dollar_kg in
  let revenue_dollar_per_d :=
    milk_fat_dollar_d + milk_protein_dollar_d + milk_other_dollar_d in
  when verbose (
    print (PDollars milk_fat_dollar_d milk_protein_dollar_d milk_other_dollar_d) ;;;
    print (PRevenue revenue_dollar_per_d)) ;;;
  (* Feed costs: [assign] returns a new frame, bound to the local name *)
  price_asfed_t <- Series_map ingredient_prices (Ingredient <$> rows) ;;
  ration_df' <- alloc (ORationCost (zip_with cost_line rows price_asfed_t)) ;;
  costed <- as_ration_cost ration_df' ;;
  let diet_cost_p_d := Np.Series_sum (daily_cost <$> costed) in
  when verbose (
    print (PFrame costed) ;;;
    print (PDietCost diet_cost_p_d)) ;;;
  (* IOFC *)
  let IOFC := revenue_dollar_per_d - diet_cost_p_d in
  when verbose (print (PIOFC IOFC)) ;;;
  ret IOFC.

(* ===================================================================== *)
(** ** 2. IOFC from the output of nasem_dairy *)
(* ===================================================================== *)

(** The lambdas of [.assign(...)] after the first, on one row of the
    filtered diet table whose [dollar_t_as_fed] the first has set. *)
Definition diet_cost_row (r : DietRow) (dollar_t_as_fed : float) : DietCostRow :=
  let dollar_t_DM := dollar_t_as_fed / Fd_DM r * 100 in
  let dollar_fed_p_d := dollar_t_DM / 1000 * Fd_DMIn r in
  {| dc_Feedstuff := Feedstuff r;
     dc_Fd_DMInp := Fd_DMInp r;
     dc_Fd_DM := Fd_DM r;
     dc_Fd_DMIn := Fd_DMIn r;
     dollar_t_as_fed := dollar_t_as_fed;
     dollar_t_DM := dollar_t_DM;
     dollar_fed_p_d := dollar_fed_p_d |}.

(** The three lambdas of [.assign(...)] on one row, for a plain dict of
    prices. *)
Definition assign_diet_cost (ingredient_prices : gmap string float) (r : DietRow)
    : DietCostRow :=
  diet_cost_row r (Np.map_dict ingredient_prices (Feedstuff r)).

Definition calc_IOFC_nd (milk_prices ingredient_prices mod_output : addr) : Py float :=
  (* Revenue *)
  Mlk_Fat_g <- get_value mod_output "Mlk_Fat_g" ;;
  Mlk_Fat_g <- operand Mlk_Fat_g ;; (* [_ / 1000], before the price is read *)
  milk_fat_dollar_kg <- getitem milk_prices "milk_fat_dollar_kg" ;;
  let milk_fat_price_p_d := Mlk_Fat_g / 1000 * milk_fat_dollar_kg in
  Mlk_NP_g <- get_value mod_output "Mlk_NP_g" ;;
  Mlk_NP_g <- operand Mlk_NP_g ;; (* [_ / 1000] *)
  milk_protein_dollar_kg <- getitem milk_prices "milk_protein_dollar_kg" ;;
  let milk_protein_price_p_d := Mlk_NP_g / 1000 * milk_protein_dollar_kg in
  MY_kg_d <- get_value mod_output "Mlk_Prod" ;;
  milk_other_solids_production_perc <-
    getitem milk_prices "milk_other_solids_production_perc" ;;
  MY_kg_d <- operand MY_kg_d ;; (* [_ / 100 * MY_kg_d] *)
  other_solids_dollar_kg <- getitem milk_prices "other_solids_dollar_kg" ;;
  let milk_other_solids_price_p_d :=
    milk_other_solids_production_perc / 100 * MY_kg_d * other_solids_dollar_kg in
  let revenue_dollar_per_d :=
    milk_fat_price_p_d + milk_protein_price_p_d + milk_other_solids_price_p_d in
  (* Feed costs: [filter] and [assign] each return a new frame *)
  diet_info <- Intakes_diet_info mod_output ;;
  rows <- as_diet diet_info ;;
  filtered <- alloc (ODiet rows) ;;
  kept <- as_diet filtered ;;
  dollar_t_as_fed <- Series_map ingredient_prices (Feedstuff <$> kept) ;;
  diet_sub <- alloc (ODietCost (zip_with diet_cost_row kept dollar_t_as_fed)) ;;
  costed <- as_diet_cost diet_sub ;;
  let diet_cost_p_d := Np.Series_sum (dollar_fed_p_d <$> costed) in
  (* IOFC *)
  let IOFC := revenue_dollar_per_d - diet_cost_p_d in
  ret IOFC.

(* ===================================================================== *)
(** ** Closed forms of what the calculators compute *)
(* ===================================================================== *)

(** The three revenue terms, $/d. *)
Record Revenue := {
  fat_dollar_d : float;
  protein_dollar_d : float;
  other_dollar_d : float
}.

Definition revenue_dollar_per_d (r : Revenue) : float :=
  fat_dollar_d r + protein_dollar_d r + other_dollar_d r.

(** Revenue of the manual path, from milk yield and percentages. *)
Definition manual_revenue
    (MY_kg_d Milk_Fat_perc Milk_TProt_perc os_perc p_fat p_prot p_os : float)
    : Revenue :=
  {| fat_dollar_d := Milk_Fat_perc / 100 * MY_kg_d * p_fat;
     protein_dollar_d := Milk_TProt_perc / 100 * MY_kg_d * p_prot;
     other_dollar_d := os_perc / 100 * MY_kg_d * p_os |}.

(** Revenue of the model path, from the gram outputs of the model. *)
Definition nd_revenue
    (Mlk_Fat_g Mlk_NP_g Mlk_Prod os_perc p_fat p_prot p_os : float) : Revenue :=
  {| fat_dollar_d := Mlk_Fat_g / 1000 * p_fat;
     protein_dollar_d := Mlk_NP_g / 1000 * p_prot;
     other_dollar_d := os_perc / 100 * Mlk_Prod * p_os |}.

(** Feed cost of one ration line at as-fed price [p]. *)
Definition line_cost (kg p dm : float) : float := kg * (p / dm * 100 / 1000).

(** Feed cost of one diet row at as-fed price [p]. *)
Definition row_cost (dmi p dm : float) : float := p / dm * 100 / 1000 * dmi.

(** The arguments of a call of [calc_IOFC_manual] denote these objects. *)
Definition manual_args (w : world) (mp mc ip rdf : addr)
    (d_mp d_mc prices : gmap string float) (rows : list RationLine) : Prop :=
  heap w !! mp = Some (ODict d_mp) /\
  heap w !! mc = Some (ODict d_mc) /\
  heap w !! ip = Some (ODict prices) /\
  heap w !! rdf = Some (ORation rows).

(** The arguments of a call of [calc_IOFC_nd] denote these objects. *)
Definition nd_args (w : world) (mp ip mo : addr)
    (d_mp prices values : gmap string float) (rows : list DietRow) : Prop :=
  exists di,
    heap w !! mp = Some (ODict d_mp) /\
    heap w !! ip = Some (ODict prices) /\
    heap w !! mo = Some (OModelOutput values di) /\
    heap w !! di = Some (ODiet rows).

(** The price catalog has its four fields. *)
Definition milk_prices_fields (d : gmap string float) (os_perc p_fat p_prot p_os : float)
    : Prop :=
  d !! "milk_other_solids_production_perc" = Some os_perc /\
  d !! "milk_fat_dollar_kg" = Some p_fat /\
  d !! "milk_protein_dollar_kg" = Some p_prot /\
  d !! "other_solids_dollar_kg" = Some p_os.

Definition milk_components_fields (d : gmap string float)
    (MY_kg_d Milk_Fat_perc Milk_TProt_perc : float) : Prop :=
  d !! "MY_kg_d" = Some MY_kg_d /\
  d !! "Milk_Fat_perc" = Some Milk_Fat_perc /\
  d !! "Milk_TProt_perc" = Some Milk_TProt_perc.

Definition model_values (d : gmap string float) (Mlk_Fat_g Mlk_NP_g Mlk_Prod : float)
    : Prop :=
  d !! "Mlk_Fat_g" = Some Mlk_Fat_g /\
  d !! "Mlk_NP_g" = Some Mlk_NP_g /\
  d !! "Mlk_Prod" = Some Mlk_Prod.

(* ===================================================================== *)
(** ** Calls *)
(* ===================================================================== *)

(** The names of a call of [calc_IOFC_manual], as references. *)
Definition milk_prices_ref : addr := 0%nat.
Definition milk_components_ref : addr := 1%nat.
Definition ingredient_prices_ref : addr := 2%nat.
Definition ration_df_ref : addr := 3%nat.

(** The notebook's price catalog with milk components, a price table and a
    ration, before anything is printed. *)
Definition manual_world (components prices : gmap string float)
    (rows : list RationLine) : world :=
  World [ODict milk_prices; ODict components; ODict prices; ORation rows] [].

Definition run_manual (components prices : gmap string float)
    (rows : list RationLine) (verbose : bool) : (exn + float) * world :=
  calc_IOFC_manual milk_prices_ref milk_components_ref ingredient_prices_ref
    ration_df_ref verbose (manual_world components prices rows).

(** The notebook at the call of [calc_IOFC_manual]. *)
Definition notebook : world :=
  manual_world milk_components ingredient_prices_asfed_tonne ration_list.

(** The names of a call of [calc_IOFC_nd]: the price catalog, the price
    table, the model output and, inside it, its diet table. *)
Definition nd_prices_ref : addr := 1%nat.
Definition mod_output_ref : addr := 2%nat.
Definition diet_info_ref : addr := 3%nat.

Definition nd_world (prices values : gmap string float) (rows : list DietRow) : world :=
  World [ODict milk_prices; ODict prices; OModelOutput values diet_info_ref; ODiet rows] [].

Definition run_nd (prices values : gmap string float) (rows : list DietRow)
    : (exn + float) * world :=
  calc_IOFC_nd milk_prices_ref nd_prices_ref mod_output_ref
    (nd_world prices values rows).

(** The same calls with a [defaultdict(float, ...)] for the price table:
    its factory returns 0.0. *)
Definition manual_world_defaultdict (prices : gmap string float)
    (rows : list RationLine) : world :=
  World [ODict milk_prices; ODict milk_components; ODefaultDict prices 0; ORation rows] [].

Definition nd_world_defaultdict (prices values : gmap string float)
    (rows : list DietRow) : world :=
  World [ODict milk_prices; ODefaultDict prices 0; OModelOutput values diet_info_ref;
         ODiet rows] [].

(** [lo <= x < hi] *)
Definition within (lo hi x : float) : bool := (lo <=? x) && (x <? hi).

(** [x] is [d] when rounded to two, to four decimals. *)
Definition shown2 (x d : float) : bool := within (d - 0.005) (d + 0.005) x.
Definition shown4 (x d : float) : bool := within (d - 0.00005) (d + 0.00005) x.

(** A price table that has lost one ingredient of the example ration. *)
Definition prices_without_canola : gmap string float :=
  delete "Canola" ingredient_prices_asfed_tonne.

(** An ingredient outside the module-level table, with its own price table. *)
Definition barley_prices : gmap string float := {[ "Barley" := 300 ]}.

Definition barley_ration : list RationLine := [
  {| Ingredient := "Barley"; kg_inclusion := 5; DM_perc := 88 |} ].

(** A single-ingredient ration at 100 % dry matter. *)
Definition alfalfa_at_100 : RationLine :=
  {| Ingredient := "Alfalfa Silage"; kg_inclusion := 8.2; DM_perc := 100 |}.

Definition mineral_mix_line : RationLine :=
  {| Ingredient := "Vitamin/mineral mix"; kg_inclusion := 0.2; DM_perc := 100 |}.

(** Ration lines with a dry-matter percentage outside (0, 100]. *)
Definition canola_dm_zero : RationLine :=
  {| Ingredient := "Canola"; kg_inclusion := 1.0; DM_perc := 0 |}.

Definition canola_dm_negative : RationLine :=
  {| Ingredient := "Canola"; kg_inclusion := 1.0; DM_perc := -91 |}.

(** Milk components and the gram outputs a model would report for them:
    [1000 * (3.7 / 100 * 22)] is 814.0 and [1000 * (3.4 / 100 * 22)] is
    748.0. *)
Definition components_22 : gmap string float :=
  list_to_map [ ("MY_kg_d", 22); ("Milk_Fat_perc", 3.7); ("Milk_TProt_perc", 3.4) ].

Definition outputs_22 : gmap string float :=
  list_to_map [ ("Mlk_Fat_g", 1000 * (3.7 / 100 * 22));
                ("Mlk_NP_g", 1000 * (3.4 / 100 * 22));
                ("Mlk_Prod", 22) ].

(** The gram outputs that stand for the milk components of the notebook. *)
Definition outputs_31 : gmap string float :=
  list_to_map [ ("Mlk_Fat_g", 1000 * (3.6 / 100 * 31));
                ("Mlk_NP_g", 1000 * (3.3 / 100 * 31));
                ("Mlk_Prod", 31) ].

(** A model output for the diet of the notebook's [diet_info]: two of its
    feedstuffs are spelled without the suffix the price table uses. *)
Definition outputs_nd : gmap string float :=
  list_to_map [ ("Mlk_Fat_g", 1070.676); ("Mlk_NP_g", 981.453); ("Mlk_Prod", 29.741) ].

Definition diet_nd : list DietRow := [
  {| Feedstuff := "Wheat straw";         Fd_DMInp := 0.5; Fd_DM := 90;  Fd_DMIn := 0.5 |};
  {| Feedstuff := "Alfalfa Silage";      Fd_DMInp := 8.2; Fd_DM := 35;  Fd_DMIn := 8.2 |};
  {| Feedstuff := "Corn silage";         Fd_DMInp := 8.2; Fd_DM := 33;  Fd_DMIn := 8.2 |};
  {| Feedstuff := "Corn Grain HM";       Fd_DMInp := 3.7; Fd_DM := 87;  Fd_DMIn := 3.7 |};
  {| Feedstuff := "Soybean meal 47%";    Fd_DMInp := 2.0; Fd_DM := 88;  Fd_DMIn := 2.0 |};
  {| Feedstuff := "Canola";              Fd_DMInp := 1.0; Fd_DM := 91;  Fd_DMIn := 1.0 |};
  {| Feedstuff := "Vitamin/mineral mix"; Fd_DMInp := 0.2; Fd_DM := 100; Fd_DMIn := 0.2 |} ].

(** What a ration line adds to the feed cost: its daily cost when it has a
    price and that cost is a number, and nothing otherwise. *)
Definition counted_cost (prices : gmap string float) (r : RationLine) : float :=
  match prices !! Ingredient r with
  | Some p => Np.fillna0 (line_cost (kg_inclusion r) p (DM_perc r))
  | None => 0
  end.

Definition counted_row_cost (prices : gmap string float) (r : DietRow) : float :=
  match prices !! Feedstuff r with
  | Some p => Np.fillna0 (row_cost (Fd_DMIn r) p (Fd_DM r))
  | None => 0
  end.

(** A whole-dollar price [100 * k] survives [/ 100 * 100]. *)
Definition hundreds_round_trip (k : nat) : bool :=
  let p := of_uint63 (Uint63.of_Z (100 * Z.of_nat k)) in
  PrimFloat.Leibniz.eqb (p / 100 * 100) p.

(* ===================================================================== *)
(** ** Relations on computations *)
(* ===================================================================== *)

(** What a call does to the object [o] at the address [a]: nothing or, to a
    defaultdict at one of the addresses [dicts], add keys. *)
Definition same_or_grown (dicts : list addr) (a : addr) (o o' : object) : Prop :=
  o' = o
  \/ (a ∈ dicts
      /\ exists d d' default,
           o = ODefaultDict d default /\ o' = ODefaultDict d' default /\ d ⊆ d').

(** [m] keeps every object of the heap it starts from at its address, up
    to the keys that the defaultdicts at [dicts] gain. *)
Definition keeps {A} (dicts : list addr) (m : Py A) : Prop :=
  forall w a o, heap w !! a = Some o ->
    exists o', heap (snd (m w)) !! a = Some o' /\ same_or_grown dicts a o o'.

(** From equal heaps, [m1] and [m2] give equal results and equal heaps;
    what they print is not compared. *)
Definition sim {A} (m1 m2 : Py A) : Prop :=
  forall w1 w2, heap w1 = heap w2 ->
    fst (m1 w1) = fst (m2 w2) /\ heap (snd (m1 w1)) = heap (snd (m2 w2)).

(** [m] prints nothing. *)
Definition quiet {A} (m : Py A) : Prop :=
  forall w, stdout (snd (m w)) = stdout w.

(* ===================================================================== *)
(** ** Binary64 values *)
(* ===================================================================== *)

(** The primitive operations are specified by [FloatAxioms] through
    [Prim2SF] and the operations of [SpecFloat]; what follows reads a
    [spec_float] as a real number. *)
Module B64.

Definition bpow (e : Z) : R := powerRZ 2 e.

(** [m * 2^e] *)
Definition F2R (m e : Z) : R := (IZR m * bpow e)%R.

(** What a shift record stands for: a real [V] whose integer part is
    [shr_m], with the two sticky bits telling whether [V] is that
    integer. *)
Record inv (mrs : shr_record) (V : R) : Prop := {
  inv_nonneg : (0 <= shr_m mrs)%Z;
  inv_lo : (IZR (shr_m mrs) <= V)%R;
  inv_hi : (V < IZR (shr_m mrs) + 1)%R;
  inv_exact : shr_r mrs = false -> shr_s mrs = false -> V = IZR (shr_m mrs);
  inv_inexact : V = IZR (shr_m mrs) -> shr_r mrs = false /\ shr_s mrs = false
}.

(** A result of sign [sx] that is zero or a finite number at most
    [K * 2^g], with an exponent at most [g]. *)
Definition bounded_result (sx : bool) (K g : Z) (x : spec_float) : Prop :=
  match x with
  | S754_zero s => s = sx
  | S754_finite s m e => s = sx /\ (F2R (Zpos m) e <= F2R K g)%R /\ (e <= g)%Z
  | _ => False
  end.

(** A result of sign [sx] that is a number or an infinity. *)
Definition signed_result (sx : bool) (x : spec_float) : Prop :=
  match x with
  | S754_zero s | S754_finite s _ _ | S754_infinity s => s = sx
  | S754_nan => False
  end.

(** A number that is not negative, or plus infinity. *)
Definition sf_nonneg (x : spec_float) : Prop :=
  match x with
  | S754_zero _ | S754_finite false _ _ | S754_infinity false => True
  | _ => False
  end.

(** A finite number that is not negative. *)
Definition sf_fin (x : spec_float) : Prop :=
  match x with
  | S754_zero _ | S754_finite false _ _ => True
  | _ => False
  end.

(** A finite number above zero. *)
Definition sf_finpos (x : spec_float) : Prop :=
  match x with
  | S754_finite false _ _ => True
  | _ => False
  end.

(** The value of a finite number that is not negative. *)
Definition sf_val (x : spec_float) : R :=
  match x with
  | S754_finite false m e => F2R (Zpos m) e
  | _ => 0%R
  end.

(** [0 <= x], which NaN fails and plus infinity passes. *)
Definition nonneg (x : float) : bool := 0 <=? x.

(** [0 <= x < inf] *)
Definition fin_nonneg (x : float) : bool := (0 <=? x) && (x <? infinity).

(** [0 < x < inf] *)
Definition finpos (x : float) : bool := (0 <? x) && (x <? infinity).

End B64.

(* ===================================================================== *)
(** ** Valid inputs *)
(* ===================================================================== *)

(** A percentage, [0 <= x <= 100]. *)
Definition percentage (x : float) : bool := (0 <=? x) && (x <=? 100).

(** A dry-matter percentage, [0 < x <= 100]. *)
Definition dm_percentage (x : float) : bool := (0 <? x) && (x <=? 100).

(** The numbers of the milk dictionaries of the manual path. *)
Definition valid_milk (MY_kg_d Milk_Fat_perc Milk_TProt_perc os_perc p_fat p_prot p_os : float)
    : bool :=
  B64.fin_nonneg MY_kg_d && percentage Milk_Fat_perc && percentage Milk_TProt_perc
  && percentage os_perc
  && B64.fin_nonneg p_fat && B64.fin_nonneg p_prot && B64.fin_nonneg p_os.

(** The numbers of the model output and of the price catalog. *)
Definition valid_outputs (Mlk_Fat_g Mlk_NP_g Mlk_Prod os_perc p_fat p_prot p_os : float)
    : bool :=
  B64.fin_nonneg Mlk_Fat_g && B64.fin_nonneg Mlk_NP_g && B64.fin_nonneg Mlk_Prod
  && percentage os_perc
  && B64.fin_nonneg p_fat && B64.fin_nonneg p_prot && B64.fin_nonneg p_os.

(** A ration line with a price in [prices], all three numbers in range. *)
Definition valid_line (prices : gmap string float) (r : RationLine) : bool :=
  match prices !! Ingredient r with
  | Some p =>
      B64.fin_nonneg p && B64.fin_nonneg (kg_inclusion r) && dm_percentage (DM_perc r)
  | None => false
  end.

(** A diet row with a price in [prices], all three numbers in range. *)
Definition valid_row (prices : gmap string float) (r : DietRow) : bool :=
  match prices !! Feedstuff r with
  | Some p =>
      B64.fin_nonneg p && B64.fin_nonneg (Fd_DMIn r) && dm_percentage (Fd_DM r)
  | None => false
  end.

(** The feed cost of a ration and of a diet table at the prices of
    [prices]. *)
Definition ration_cost (prices : gmap string float) (rows : list RationLine) : float :=
  Np.Series_sum
    ((fun r => line_cost (kg_inclusion r) (Np.map_dict prices (Ingredient r)) (DM_perc r))
       <$> rows).

Definition diet_cost (prices : gmap string float) (rows : list DietRow) : float :=
  Np.Series_sum
    ((fun r => row_cost (Fd_DMIn r) (Np.map_dict prices (Feedstuff r)) (Fd_DM r))
       <$> rows).


(* ===================================================================== *)
(** ** Rounding to nearest *)
(* ===================================================================== *)

Module B64Round.

Import B64.

(** A shift record locates a real [V]: [shr_m] is its integer part, the
    round bit tells whether the rest reaches one half, and the sticky bit
    whether anything is left beyond that. *)
Definition located (mrs : shr_record) (V : R) : Prop :=
  (0 <= shr_m mrs)%Z /\
  match shr_r mrs, shr_s mrs with
  | false, false => V = IZR (shr_m mrs)
  | false, true => (IZR (shr_m mrs) < V < IZR (shr_m mrs) + / 2)%R
  | true, false => V = (IZR (shr_m mrs) + / 2)%R
  | true, true => (IZR (shr_m mrs) + / 2 < V < IZR (shr_m mrs) + 1)%R
  end.

(** A mantissa at the exponent that binary64 gives its magnitude, without
    the upper bound on the exponent. *)
Definition canonical (m : positive) (e : Z) : Prop :=
  SpecFloat.fexp prec emax (Zpos (digits2_pos m) + e) = e.

(** Zero, or the value of a canonical number. *)
Definition on_grid (K : R) : Prop :=
  K = 0%R \/ exists m e, canonical m e /\ K = F2R (Zpos m) e.

(** No point of the grid is nearer to [V] than [U]. *)
Definition nearest (U V : R) : Prop :=
  forall K, on_grid K ->
    (K < U -> K + U <= 2 * V)%R /\ (U < K -> 2 * V <= K + U)%R.

(** The number that stands for the grid point [U]: a zero of either sign
    for zero, and plus infinity when the exponent of [U] is beyond the
    largest of binary64. *)
Definition rounds_to (U : R) (x : spec_float) : Prop :=
  match x with
  | S754_zero _ => U = 0%R
  | S754_finite s m e => s = false /\ canonical m e /\ (e <= 971)%Z /\ U = F2R (Zpos m) e
  | S754_infinity s =>
      s = false /\ exists m e, canonical m e /\ (971 < e)%Z /\ U = F2R (Zpos m) e
  | S754_nan => False
  end.

(** [x] is a number that the real [V], which is not negative, rounds
    to. *)
Definition rounded (V : R) (x : spec_float) : Prop :=
  exists U, nearest U V /\ rounds_to U x.

(** The same for a real of either sign: a negative real rounds as its
    opposite does. *)
Definition srounded (V : R) (x : spec_float) : Prop :=
  ((0 <= V)%R -> rounded V x) /\ ((V <= 0)%R -> rounded (- V) (SFopp x)).

End B64Round.


(* ===================================================================== *)
(** ** Sums, as the spec reads them *)
(* ===================================================================== *)

(** [s] is a sum of the numbers of [l] in binary64: every element is added
    once, in some order and grouping; the sum of no numbers is 0 (so that
    zeros may be added on the way). *)
Inductive sum_of : list float -> float -> Prop :=
| sum_of_nil : sum_of [] 0
| sum_of_one x : sum_of [x] x
| sum_of_add l1 l2 s1 s2 :
    sum_of l1 s1 -> sum_of l2 s2 -> sum_of (l1 ++ l2) (s1 + s2)
| sum_of_perm l l' s : l ≡ₚ l' -> sum_of l s -> sum_of l' s.

(* ===================================================================== *)
(** ** Facts on binary64 arithmetic *)
(* ===================================================================== *)

Module B64Facts.

Import B64.

#[local] Open Scope Z_scope.

#[local] Abbreviation fexp := (SpecFloat.fexp prec emax).

(** *** Powers of two *)

Lemma bpow_gt0 e : (0 < bpow e)%R.
Proof. apply powerRZ_lt. lra. Qed.

Lemma bpow_add a b : bpow (a + b) = (bpow a * bpow b)%R.
Proof. apply powerRZ_add. lra. Qed.

Lemma bpow_0 : bpow 0 = 1%R.
Proof. reflexivity. Qed.

Lemma bpow_1 : bpow 1 = 2%R.
Proof. apply powerRZ_1. Qed.

Lemma bpow_succ e : bpow (e + 1) = (2 * bpow e)%R.
Proof. rewrite bpow_add, bpow_1. lra. Qed.

Lemma bpow_ge1 k : 0 <= k -> (1 <= bpow k)%R.
Proof.
  intros Hk. pattern k. apply natlike_ind; [rewrite bpow_0; lra| |exact Hk].
  intros x Hx IH. unfold Z.succ. rewrite bpow_succ. lra.
Qed.

Lemma bpow_le a b : a <= b -> (bpow a <= bpow b)%R.
Proof.
  intros H. replace b with (a + (b - a)) by lia. rewrite bpow_add.
  pose proof (bpow_ge1 (b - a) ltac:(lia)). pose proof (bpow_gt0 a). nra.
Qed.

Lemma bpow_lt a b : a < b -> (bpow a < bpow b)%R.
Proof.
  intros H. replace b with (a + 1 + (b - a - 1)) by lia.
  rewrite bpow_add, bpow_succ.
  pose proof (bpow_ge1 (b - a - 1) ltac:(lia)).
  pose proof (bpow_gt0 a). nra.
Qed.

Lemma bpow_lt_inv a b : (bpow a < bpow b)%R -> a < b.
Proof.
  intros H. destruct (Z_lt_le_dec a b) as [|Hle]; [assumption|].
  apply bpow_le in Hle. lra.
Qed.

Lemma bpow_IZR n : 0 <= n -> bpow n = IZR (2 ^ n).
Proof.
  intros Hn. pattern n. apply natlike_ind; [reflexivity| |exact Hn].
  intros x Hx IH. unfold Z.succ. rewrite bpow_succ, IH, Z.pow_add_r by lia.
  rewrite mult_IZR. change (2 ^ 1) with 2. rewrite Rmult_comm. reflexivity.
Qed.



(** *** Digits and magnitude *)

Lemma fexp_eq e : fexp e = Z.max (e - 53) (-1074).
Proof. reflexivity. Qed.

Lemma fexp_mono a b : a <= b -> fexp a <= fexp b.
Proof. rewrite !fexp_eq. lia. Qed.

Lemma fexp_ge e : -1074 <= fexp e.
Proof. rewrite fexp_eq. lia. Qed.

Lemma digits2_pos_bounds p :
  2 ^ (Zpos (digits2_pos p) - 1) <= Zpos p < 2 ^ Zpos (digits2_pos p).
Proof.
  induction p as [p IH|p IH|]; cbn [digits2_pos].
  - rewrite Pos2Z.inj_succ.
    replace (Z.succ (Zpos (digits2_pos p)) - 1) with (Z.succ (Zpos (digits2_pos p) - 1)) by lia.
    rewrite !Z.pow_succ_r by lia. revert IH.
    generalize (2 ^ (Zpos (digits2_pos p) - 1)), (2 ^ Zpos (digits2_pos p)). lia.
  - rewrite Pos2Z.inj_succ.
    replace (Z.succ (Zpos (digits2_pos p)) - 1) with (Z.succ (Zpos (digits2_pos p) - 1)) by lia.
    rewrite !Z.pow_succ_r by lia. revert IH.
    generalize (2 ^ (Zpos (digits2_pos p) - 1)), (2 ^ Zpos (digits2_pos p)). lia.
  - cbn. lia.
Qed.

(** The magnitude of a positive [m * 2^e] is [Zdigits2 m + e]. *)
Lemma F2R_mag p e :
  (bpow (Zpos (digits2_pos p) + e - 1) <= F2R (Zpos p) e < bpow (Zpos (digits2_pos p) + e))%R.
Proof.
  destruct (digits2_pos_bounds p) as [Hlo Hhi]. unfold F2R.
  replace (Zpos (digits2_pos p) + e - 1) with ((Zpos (digits2_pos p) - 1) + e) by lia.
  rewrite !bpow_add.
  rewrite (bpow_IZR (Zpos (digits2_pos p) - 1)), (bpow_IZR (Zpos (digits2_pos p))) by lia.
  apply IZR_le in Hlo. apply IZR_lt in Hhi. pose proof (bpow_gt0 e).
  split; [apply Rmult_le_compat_r; [lra | exact Hlo] | apply Rmult_lt_compat_r; assumption].
Qed.

Lemma mag_le p1 e1 p2 e2 :
  (F2R (Zpos p1) e1 <= F2R (Zpos p2) e2)%R ->
  Zpos (digits2_pos p1) + e1 <= Zpos (digits2_pos p2) + e2.
Proof.
  intros H. destruct (F2R_mag p1 e1) as [H1 _], (F2R_mag p2 e2) as [_ H2].
  assert (Hlt : (bpow (Zpos (digits2_pos p1) + e1 - 1) < bpow (Zpos (digits2_pos p2) + e2))%R) by lra.
  apply bpow_lt_inv in Hlt. lia.
Qed.

(** *** Shifting and rounding to nearest even *)

Lemma inv_int m : 0 <= m -> inv (Build_shr_record m false false) (IZR m).
Proof. intros H. split; cbn; auto; lra. Qed.

(** One shift to the right halves the real a record stands for. *)
Lemma shr_1_inv mrs V : inv mrs V -> inv (shr_1 mrs) (V / 2).
Proof.
  destruct mrs as [m r s]. intros [Hn Hlo Hhi Hex Hin]. cbn in *.
  destruct m as [|[p|p|]|p]; cbn [shr_1]; try lia.
  - (* 0 *)
    split; cbn; try lia; try lra.
    + intros _ Hrs. apply orb_false_elim in Hrs as [-> ->].
      rewrite Hex by reflexivity. lra.
    + intros HV. destruct Hin as [-> ->]; [lra|]. auto.
  - (* 2p + 1 *)
    change (Zpos p~1) with (2 * Zpos p + 1) in *.
    rewrite plus_IZR, mult_IZR in *.
    split; cbn; try lia; try lra; try discriminate.
  - (* 2p *)
    change (Zpos p~0) with (2 * Zpos p) in *.
    rewrite mult_IZR in *.
    split; cbn; try lia; try lra.
    + intros _ Hrs. apply orb_false_elim in Hrs as [-> ->].
      rewrite Hex by reflexivity. lra.
    + intros HV. destruct Hin as [-> ->]; [lra|]. auto.
  - (* 1 *)
    split; cbn; try lia; try lra; try discriminate.
Qed.

Lemma bpow_opp1 : bpow (-1) = (/ 2)%R.
Proof. unfold bpow. simpl. now rewrite Rmult_1_r. Qed.

Lemma iter_shr_1_inv p : forall mrs V,
  inv mrs V -> inv (SpecFloat.iter_pos shr_1 p mrs) (V * bpow (- Zpos p)).
Proof.
  induction p as [p IH|p IH|]; intros mrs V H; cbn [SpecFloat.iter_pos].
  - replace (V * bpow (- Zpos p~1))%R
      with (V / 2 * bpow (- Zpos p) * bpow (- Zpos p))%R.
    + apply IH, IH, shr_1_inv, H.
    + replace (- Zpos p~1) with (-1 + (- Zpos p + - Zpos p)) by lia.
      rewrite !bpow_add, bpow_opp1. lra.
  - replace (V * bpow (- Zpos p~0))%R
      with (V * bpow (- Zpos p) * bpow (- Zpos p))%R.
    + apply IH, IH, H.
    + replace (- Zpos p~0) with (- Zpos p + - Zpos p) by lia.
      rewrite !bpow_add. lra.
  - change (Z.opp (Zpos xH)) with (Zneg xH). rewrite bpow_opp1. apply shr_1_inv, H.
Qed.

Lemma shr_record_of_loc_m m l : shr_m (shr_record_of_loc m l) = m.
Proof. destruct l as [|[]]; reflexivity. Qed.

Lemma shr_fexp_inv mx ex lx V :
  inv (shr_record_of_loc mx lx) V ->
  let '(mrs, e) := shr_fexp prec emax mx ex lx in
  e = Z.max ex (fexp (Zdigits2 mx + ex)) /\ inv mrs (V * bpow (ex - e)).
Proof.
  intros H. unfold shr_fexp, shr.
  destruct (fexp (Zdigits2 mx + ex) - ex) as [|p|p] eqn:E.
  - split; [lia|]. replace (ex - ex) with 0 by lia. rewrite bpow_0, Rmult_1_r. exact H.
  - split; [lia|]. replace (ex - (ex + Zpos p)) with (- Zpos p) by lia.
    apply iter_shr_1_inv, H.
  - split; [lia|]. replace (ex - ex) with 0 by lia. rewrite bpow_0, Rmult_1_r. exact H.
Qed.

(** Rounding moves the integer part up by at most one, and never past an
    integer that bounds the real from above. *)
Lemma round_nearest_even_bounds mrs V K :
  inv mrs V -> (V <= IZR K)%R ->
  shr_m mrs <= round_nearest_even (shr_m mrs) (loc_of_shr_record mrs) <= K.
Proof.
  destruct mrs as [m r s]. intros [Hn Hlo Hhi Hex Hin] HK. cbn in *.
  assert (HmK : m <= K) by (apply le_IZR; lra).
  assert (Hne : r = true \/ s = true -> m + 1 <= K).
  { intros Hrs. assert (V <> IZR m) by (intros HV; destruct (Hin HV) as [-> ->]; destruct Hrs; discriminate).
    assert (IZR m < IZR K)%R by lra. apply lt_IZR in H0. lia. }
  destruct r, s; cbn [loc_of_shr_record round_nearest_even];
    try destruct (Z.even m); lia.
Qed.


Lemma F2R_shift m e e' : e' <= e -> F2R m e = F2R (m * 2 ^ (e - e')) e'.
Proof.
  intros H. unfold F2R. rewrite mult_IZR, <- bpow_IZR by lia.
  rewrite Rmult_assoc, <- bpow_add. f_equal. f_equal. lia.
Qed.

(** Rounding does not cross a bound [K * 2^g] whose exponent is no finer
    than the one the result is rounded at; the result is then finite. *)
Lemma binary_round_aux_bound sx mx ex lx V K g :
  inv (shr_record_of_loc mx lx) V ->
  (V * bpow ex <= F2R K g)%R ->
  ex <= g -> fexp (Zdigits2 mx + ex) <= g ->
  fexp (Zdigits2 K + g) <= g ->
  g <= 971 ->
  bounded_result sx K g (binary_round_aux prec emax sx mx ex lx).
Proof.
  intros Hinv HV Hex Hfx HK Hg. unfold binary_round_aux.
  pose proof (shr_fexp_inv mx ex lx V Hinv) as H1.
  destruct (shr_fexp prec emax mx ex lx) as [mrs1 e1]. destruct H1 as [He1 Hinv1].
  assert (He1g : e1 <= g) by lia.
  (* the bound, at the exponent of the first shift *)
  rewrite (F2R_shift K g e1 He1g) in HV.
  set (K1 := K * 2 ^ (g - e1)) in *.
  assert (HV1 : (V * bpow (ex - e1) <= IZR K1)%R).
  { unfold F2R in HV. replace ex with ((ex - e1) + e1) in HV at 1 by lia.
    rewrite bpow_add, <- Rmult_assoc in HV.
    pose proof (bpow_gt0 e1). nra. }
  pose proof (round_nearest_even_bounds mrs1 _ K1 Hinv1 HV1) as Hm2.
  set (m2 := round_nearest_even (shr_m mrs1) (loc_of_shr_record mrs1)) in *.
  assert (Hm2n : 0 <= m2) by (pose proof (inv_nonneg _ _ Hinv1); lia).
  assert (HF2 : (F2R m2 e1 <= F2R K1 e1)%R).
  { unfold F2R. apply Rmult_le_compat_r; [pose proof (bpow_gt0 e1); lra|].
    apply IZR_le. lia. }
  pose proof (shr_fexp_inv m2 e1 loc_Exact (IZR m2) (inv_int m2 Hm2n)) as H2.
  destruct (shr_fexp prec emax m2 e1 loc_Exact) as [mrs2 e2]. destruct H2 as [He2 Hinv2].
  assert (Hfm2 : fexp (Zdigits2 m2 + e1) <= g).
  { destruct m2 as [|p2|p2]; [| |lia].
    - cbn [Zdigits2]. pose proof (fexp_ge (Zdigits2 K + g)). rewrite fexp_eq. lia.
    - assert (HKpos : 0 < K).
      { apply Z.nle_gt. intros HK0.
        assert (F2R K1 e1 <= 0)%R.
        { unfold F2R. pose proof (bpow_gt0 e1).
          assert (IZR K1 <= 0)%R by (apply IZR_le; unfold K1; nia). nra. }
        destruct (F2R_mag p2 e1) as [Hlo _].
        pose proof (bpow_gt0 (Zpos (digits2_pos p2) + e1 - 1)). lra. }
      destruct K as [|pk|pk]; try lia. subst K1.
      rewrite <- (F2R_shift (Zpos pk) g e1 He1g) in HF2.
      apply mag_le in HF2. cbn [Zdigits2] in *.
      etransitivity; [apply fexp_mono, HF2 | exact HK]. }
  assert (He2g : e2 <= g) by lia.
  assert (HF3 : (F2R (shr_m mrs2) e2 <= F2R K1 e1)%R).
  { etransitivity; [|exact HF2]. unfold F2R.
    pose proof (inv_lo _ _ Hinv2) as Hlo.
    replace (bpow e1) with (bpow (e1 - e2) * bpow e2)%R
      by (rewrite <- bpow_add; f_equal; lia).
    rewrite <- Rmult_assoc.
    apply Rmult_le_compat_r; [pose proof (bpow_gt0 e2); lra | exact Hlo]. }
  subst K1. rewrite <- (F2R_shift K g e1 He1g) in HF3.
  pose proof (inv_nonneg _ _ Hinv2) as Hn2.
  destruct (shr_m mrs2) as [|m|m]; cbn [bounded_result]; [reflexivity| |lia].
  replace (Z.leb e2 (emax - prec)) with true
    by (symmetry; apply Z.leb_le; change (emax - prec) with 971; lia).
  cbn [bounded_result]. auto.
Qed.

(** Rounding a magnitude keeps the sign and never gives NaN. *)
Lemma binary_round_aux_sign sx mx ex lx V :
  inv (shr_record_of_loc mx lx) V ->
  signed_result sx (binary_round_aux prec emax sx mx ex lx).
Proof.
  intros Hinv. unfold binary_round_aux.
  pose proof (shr_fexp_inv mx ex lx V Hinv) as H1.
  destruct (shr_fexp prec emax mx ex lx) as [mrs1 e1]. destruct H1 as [_ Hinv1].
  assert (Hm2n : 0 <= round_nearest_even (shr_m mrs1) (loc_of_shr_record mrs1)).
  { pose proof (inv_nonneg _ _ Hinv1).
    enough (shr_m mrs1 <= round_nearest_even (shr_m mrs1) (loc_of_shr_record mrs1)
            <= shr_m mrs1 + 1) by lia.
    apply (round_nearest_even_bounds mrs1 _ _ Hinv1).
    rewrite plus_IZR. pose proof (inv_hi _ _ Hinv1). lra. }
  set (m2 := round_nearest_even (shr_m mrs1) (loc_of_shr_record mrs1)) in *.
  pose proof (shr_fexp_inv m2 e1 loc_Exact (IZR m2) (inv_int m2 Hm2n)) as H2.
  destruct (shr_fexp prec emax m2 e1 loc_Exact) as [mrs2 e2]. destruct H2 as [_ Hinv2].
  pose proof (inv_nonneg _ _ Hinv2) as Hn2.
  destruct (shr_m mrs2) as [|m|m]; cbn [signed_result]; [reflexivity| |lia].
  destruct (Z.leb e2 (emax - prec)); reflexivity.
Qed.


(** *** Shapes of binary64 values *)

Lemma valid_finite s m e :
  valid_binary (S754_finite s m e) = true ->
  fexp (Zpos (digits2_pos m) + e) = e /\ e <= 971.
Proof.
  cbn [SpecFloat.valid_binary]. unfold bounded, canonical_mantissa.
  intros H. apply andb_true_iff in H as [H1 H2].
  apply Z.eqb_eq in H1. apply Z.leb_le in H2. split; [exact H1 | exact H2].
Qed.

Lemma F2R_pos p e : (0 < F2R (Zpos p) e)%R.
Proof.
  unfold F2R. apply Rmult_lt_0_compat; [apply IZR_lt; lia | apply bpow_gt0].
Qed.

Lemma F2R_one : F2R 1 0 = 1%R.
Proof. unfold F2R. rewrite bpow_0. lra. Qed.

Lemma F2R_one_canonical : F2R (2 ^ 52) (-52) = 1%R.
Proof. rewrite <- F2R_one. symmetry. apply (F2R_shift 1 0 (-52)). lia. Qed.

Lemma sf_val_nonneg x : (0 <= sf_val x)%R.
Proof.
  destruct x as [| | |[] m e]; cbn; try lra. pose proof (F2R_pos m e). lra.
Qed.

(** A valid number of value at most one has a negative exponent. *)
Lemma le1_exponent m e :
  valid_binary (S754_finite false m e) = true ->
  (F2R (Zpos m) e <= 1)%R -> e <= -52.
Proof.
  intros Hv H. apply valid_finite in Hv as [Hc _].
  rewrite <- F2R_one in H. apply mag_le in H. cbn in H.
  rewrite <- Hc. change (-52) with (fexp 1). apply fexp_mono. lia.
Qed.

Lemma ge1_mag m e : (1 <= F2R (Zpos m) e)%R -> 1 <= Zpos (digits2_pos m) + e.
Proof. intros H. rewrite <- F2R_one in H. apply mag_le in H. cbn in H. lia. Qed.

(** *** Multiplication *)

Lemma SFmul_finite_inv mx my :
  inv (shr_record_of_loc (Zpos (mx * my)) loc_Exact) (IZR (Zpos (mx * my))).
Proof. apply inv_int. lia. Qed.

Lemma F2R_mul mx ex my ey :
  (IZR (Zpos (mx * my)) * bpow (ex + ey) = F2R (Zpos mx) ex * F2R (Zpos my) ey)%R.
Proof.
  unfold F2R. rewrite Pos2Z.inj_mul, mult_IZR, bpow_add. ring.
Qed.

(** A factor of value at most one keeps a finite number finite. *)
Lemma SFmul_le1 x y :
  valid_binary x = true -> valid_binary y = true ->
  sf_fin x -> (sf_val x <= 1)%R -> sf_fin y ->
  sf_fin (SF64mul x y) /\ (sf_val (SF64mul x y) <= sf_val y)%R.
Proof.
  intros Hvx Hvy Hx Hx1 Hy.
  destruct x as [sx| | |[] mx ex], y as [sy| | |[] my ey]; cbn in Hx, Hy; try contradiction;
    try (cbn; split; [exact I | first [lra | apply Rlt_le, F2R_pos]]).
  cbn [SF64mul SFmul xorb]. cbn [sf_val] in *.
  pose proof (le1_exponent mx ex Hvx Hx1) as Hex.
  destruct (valid_finite _ _ _ Hvy) as [Hcy Hey].
  assert (Hle : (IZR (Zpos (mx * my)) * bpow (ex + ey) <= F2R (Zpos my) ey)%R).
  { rewrite F2R_mul. pose proof (F2R_pos my ey). pose proof (F2R_pos mx ex). nra. }
  pose proof (binary_round_aux_bound false (Zpos (mx * my)) (ex + ey) loc_Exact
                _ (Zpos my) ey (SFmul_finite_inv mx my) Hle) as Hb.
  assert (Hmag : fexp (Zdigits2 (Zpos (mx * my)) + (ex + ey)) <= ey).
  { rewrite <- Hcy at 2. apply fexp_mono. cbn [Zdigits2]. apply mag_le. exact Hle. }
  specialize (Hb ltac:(lia) Hmag ltac:(cbn [Zdigits2]; lia) Hey).
  destruct (binary_round_aux prec emax false (Zpos (mx * my)) (ex + ey) loc_Exact)
    as [s| | |s m e]; cbn in Hb |- *; try contradiction.
  - subst s. split; [exact I | apply Rlt_le, F2R_pos].
  - destruct Hb as (-> & Hb & _). split; [exact I | exact Hb].
Qed.


(** *** Division *)

Lemma new_location_exact n r : new_location n r = loc_Exact <-> r = 0.
Proof.
  unfold new_location, new_location_even, new_location_odd.
  destruct (Z.even n), (Z.eqb_spec r 0); split; intros H; try discriminate;
    try reflexivity; try assumption; contradiction.
Qed.

Lemma inv_of_quotient q r n :
  0 <= q -> 0 <= r < n ->
  inv (shr_record_of_loc q (new_location n r)) (IZR (n * q + r) / IZR n).
Proof.
  intros Hq [Hr0 Hrn].
  assert (Hn : (0 < IZR n)%R) by (apply IZR_lt; lia).
  assert (HV : (IZR (n * q + r) / IZR n = IZR q + IZR r / IZR n)%R).
  { rewrite plus_IZR, mult_IZR. field. lra. }
  rewrite HV.
  assert (Hfrac : (0 <= IZR r / IZR n < 1)%R).
  { apply IZR_le in Hr0. apply IZR_lt in Hrn. split.
    - apply Rmult_le_pos; [lra | apply Rlt_le, Rinv_0_lt_compat, Hn].
    - apply (Rmult_lt_reg_r (IZR n)); [exact Hn|]. unfold Rdiv.
      rewrite Rmult_assoc, Rinv_l by lra. lra. }
  assert (Hzero : (IZR r / IZR n = 0)%R <-> r = 0).
  { split.
    - intros H0. apply eq_IZR. unfold Rdiv in H0.
      apply Rmult_integral in H0 as [H0|H0]; [exact H0|].
      pose proof (Rinv_0_lt_compat _ Hn). lra.
    - intros ->. unfold Rdiv. lra. }
  pose proof (new_location_exact n r) as Hloc.
  destruct (new_location n r) as [|c] eqn:E.
  - assert (r = 0) by (apply Hloc; reflexivity). subst r.
    split; cbn; try lia; try lra; try (unfold Rdiv; lra); try (intros _ _; unfold Rdiv; lra).
  - assert (Hr : r <> 0) by (intros ->; destruct Hloc as [_ Hloc]; discriminate Hloc; reflexivity).
    assert (IZR r / IZR n <> 0)%R by (intros H0; apply Hr, Hzero, H0).
    destruct c; split; cbn; try lia; try lra; try discriminate.
Qed.

(** The quotient and the location that [SFdiv_core_binary] hands to the
    rounding stand for the exact quotient of the two numbers. *)
Lemma SFdiv_core_spec mx ex my ey :
  let '(q, e, l) := SFdiv_core_binary prec emax (Zpos mx) ex (Zpos my) ey in
  e = Z.min (fexp (Zpos (digits2_pos mx) + ex - (Zpos (digits2_pos my) + ey))) (ex - ey) /\
  exists V, inv (shr_record_of_loc q l) V /\
            (V * bpow e = F2R (Zpos mx) ex / F2R (Zpos my) ey)%R.
Proof.
  unfold SFdiv_core_binary. cbn [Zdigits2].
  set (e := Z.min (fexp (Zpos (digits2_pos mx) + ex - (Zpos (digits2_pos my) + ey))) (ex - ey)).
  set (s := ex - ey - e).
  assert (Hs : 0 <= s) by (unfold s, e; lia).
  set (m := match s with Zpos _ => Z.shiftl (Zpos mx) s | 0 => Zpos mx | Zneg _ => 0 end).
  assert (Hm : m = Zpos mx * 2 ^ s).
  { unfold m. destruct s as [|p|p] eqn:Es; [lia| |lia].
    rewrite Z.shiftl_mul_pow2 by lia. reflexivity. }
  assert (Hm0 : 0 <= m) by (rewrite Hm; apply Z.mul_nonneg_nonneg; [lia | apply Z.pow_nonneg; lia]).
  pose proof (Z_div_mod m (Zpos my) ltac:(lia)) as Hdm.
  destruct (Z.div_eucl m (Zpos my)) as [q r]. destruct Hdm as [Hmq Hr].
  split; [reflexivity|].
  assert (Hq : 0 <= q) by nia.
  exists (IZR (Zpos my * q + r) / IZR (Zpos my))%R. split.
  - apply inv_of_quotient; assumption.
  - rewrite <- Hmq, Hm, mult_IZR, <- bpow_IZR by lia. unfold F2R, Rdiv.
    assert (Hmy : (0 < IZR (Zpos my))%R) by (apply IZR_lt; lia).
    pose proof (bpow_gt0 ey).
    replace (bpow ex) with (bpow s * bpow e * bpow ey)%R
      by (rewrite <- !bpow_add; f_equal; unfold s; lia).
    field. split; lra.
Qed.

(** A quotient of a number by one that is no smaller is at most one. *)
Lemma SFdiv_le x y :
  valid_binary x = true -> valid_binary y = true ->
  sf_fin x -> sf_finpos y -> (sf_val x <= sf_val y)%R ->
  sf_fin (SF64div x y) /\ (sf_val (SF64div x y) <= 1)%R.
Proof.
  intros Hvx Hvy Hx Hy Hle.
  destruct x as [sx| | |[] mx ex], y as [sy| | |[] my ey]; cbn in Hx, Hy; try contradiction.
  { cbn. split; [exact I | lra]. }
  cbn [SF64div SFdiv xorb]. cbn [sf_val] in Hle.
  pose proof (SFdiv_core_spec mx ex my ey) as Hc.
  destruct (SFdiv_core_binary prec emax (Zpos mx) ex (Zpos my) ey) as [[q e] l].
  destruct Hc as (He & V & Hinv & HV).
  pose proof (F2R_pos mx ex) as Hpx. pose proof (F2R_pos my ey) as Hpy.
  assert (HV1 : (V * bpow e <= F2R (2 ^ 52) (-52))%R).
  { rewrite HV, F2R_one_canonical. apply (Rmult_le_reg_r (F2R (Zpos my) ey)); [exact Hpy|].
    unfold Rdiv. rewrite Rmult_assoc, Rinv_l by lra. lra. }
  pose proof (mag_le _ _ _ _ Hle) as Hmag.
  assert (He52 : e <= -52).
  { assert (fexp (Zpos (digits2_pos mx) + ex - (Zpos (digits2_pos my) + ey)) <= fexp 0)
      by (apply fexp_mono; lia).
    change (fexp 0) with (-53) in H. lia. }
  assert (Hq : fexp (Zdigits2 q + e) <= -52).
  { pose proof (inv_nonneg _ _ Hinv) as Hq0. rewrite shr_record_of_loc_m in Hq0.
    destruct q as [|pq|pq]; [| |lia].
    - cbn [Zdigits2]. rewrite fexp_eq. lia.
    - cbn [Zdigits2]. change (-52) with (fexp 1). apply fexp_mono.
      assert (F2R (Zpos pq) e <= F2R 1 0)%R.
      { rewrite F2R_one, <- F2R_one_canonical. etransitivity; [|exact HV1].
        unfold F2R. apply Rmult_le_compat_r; [pose proof (bpow_gt0 e); lra|].
        pose proof (inv_lo _ _ Hinv) as Hlo. rewrite shr_record_of_loc_m in Hlo. exact Hlo. }
      apply mag_le in H. cbn in H. lia. }
  pose proof (binary_round_aux_bound false q e l V (2 ^ 52) (-52) Hinv HV1 He52 Hq
                ltac:(reflexivity) ltac:(lia)) as Hb.
  destruct (binary_round_aux prec emax false q e l) as [s| | |s m e']; cbn in Hb |- *;
    try contradiction.
  - subst s. split; [exact I | lra].
  - destruct Hb as (-> & Hb & _). rewrite F2R_one_canonical in Hb. split; [exact I | exact Hb].
Qed.

(** A quotient by a number that is at least one is finite. *)
Lemma SFdiv_ge1 x y :
  valid_binary x = true -> valid_binary y = true ->
  sf_fin x -> sf_finpos y -> (1 <= sf_val y)%R ->
  sf_fin (SF64div x y).
Proof.
  intros Hvx Hvy Hx Hy Hge.
  destruct x as [sx| | |[] mx ex], y as [sy| | |[] my ey]; cbn in Hx, Hy; try contradiction.
  { exact I. }
  cbn [SF64div SFdiv xorb]. cbn [sf_val] in Hge.
  pose proof (SFdiv_core_spec mx ex my ey) as Hc.
  destruct (SFdiv_core_binary prec emax (Zpos mx) ex (Zpos my) ey) as [[q e] l].
  destruct Hc as (He & V & Hinv & HV).
  pose proof (F2R_pos mx ex) as Hpx. pose proof (F2R_pos my ey) as Hpy.
  destruct (valid_finite _ _ _ Hvx) as [Hcx Hex].
  assert (HV1 : (V * bpow e <= F2R (Zpos mx) ex)%R).
  { rewrite HV. apply (Rmult_le_reg_r (F2R (Zpos my) ey)); [exact Hpy|].
    unfold Rdiv. rewrite Rmult_assoc, Rinv_l by lra. nra. }
  pose proof (ge1_mag _ _ Hge) as Hmag.
  assert (Hee : e <= ex).
  { assert (fexp (Zpos (digits2_pos mx) + ex - (Zpos (digits2_pos my) + ey))
            <= fexp (Zpos (digits2_pos mx) + ex)) by (apply fexp_mono; lia).
    lia. }
  assert (Hq : fexp (Zdigits2 q + e) <= ex).
  { pose proof (inv_nonneg _ _ Hinv) as Hq0. rewrite shr_record_of_loc_m in Hq0.
    destruct q as [|pq|pq]; [| |lia].
    - cbn [Zdigits2]. pose proof (fexp_ge (Zpos (digits2_pos mx) + ex)).
      rewrite fexp_eq. lia.
    - cbn [Zdigits2]. rewrite <- Hcx. apply fexp_mono.
      assert (F2R (Zpos pq) e <= F2R (Zpos mx) ex)%R.
      { etransitivity; [|exact HV1].
        unfold F2R. apply Rmult_le_compat_r; [pose proof (bpow_gt0 e); lra|].
        pose proof (inv_lo _ _ Hinv) as Hlo. rewrite shr_record_of_loc_m in Hlo. exact Hlo. }
      apply mag_le in H. exact H. }
  pose proof (binary_round_aux_bound false q e l V (Zpos mx) ex Hinv HV1 Hee Hq
                ltac:(cbn [Zdigits2]; lia) Hex) as Hb.
  destruct (binary_round_aux prec emax false q e l) as [s| | |s m e']; cbn in Hb |- *;
    try contradiction.
  - exact I.
  - destruct Hb as (-> & _). exact I.
Qed.


(** *** Signs *)

Lemma signed_nonneg x : signed_result false x -> sf_nonneg x.
Proof. destruct x as [s|s| |s m e]; cbn; intros H; subst; auto. Qed.

Lemma SFmul_sign x y : sf_fin x -> sf_fin y -> sf_nonneg (SF64mul x y).
Proof.
  intros Hx Hy.
  destruct x as [sx| | |[] mx ex], y as [sy| | |[] my ey]; cbn in Hx, Hy; try contradiction;
    try exact I.
  cbn [SF64mul SFmul xorb]. apply signed_nonneg.
  apply (binary_round_aux_sign _ _ _ _ _ (SFmul_finite_inv mx my)).
Qed.

Lemma SFmul_sign_finpos x y : sf_nonneg x -> sf_finpos y -> sf_nonneg (SF64mul x y).
Proof.
  intros Hx Hy.
  destruct x as [sx|[]| |[] mx ex], y as [sy| | |[] my ey]; cbn in Hx, Hy; try contradiction;
    try exact I.
  cbn [SF64mul SFmul xorb]. apply signed_nonneg.
  apply (binary_round_aux_sign _ _ _ _ _ (SFmul_finite_inv mx my)).
Qed.

(** A finite factor and a factor that may be infinite: the product is a
    number, plus infinity, or (zero times infinity) NaN. *)
Lemma SFmul_sign_or_nan x y :
  sf_fin x -> sf_nonneg y -> sf_nonneg (SF64mul x y) \/ SF64mul x y = S754_nan.
Proof.
  intros Hx Hy.
  destruct x as [sx| | |[] mx ex], y as [sy|[]| |[] my ey]; cbn in Hx, Hy; try contradiction;
    try (left; exact I); try (right; reflexivity).
  left. cbn [SF64mul SFmul xorb]. apply signed_nonneg.
  apply (binary_round_aux_sign _ _ _ _ _ (SFmul_finite_inv mx my)).
Qed.

Lemma SFmul_sign_or_nan_r x y :
  sf_nonneg x -> sf_fin y -> sf_nonneg (SF64mul x y) \/ SF64mul x y = S754_nan.
Proof.
  intros Hx Hy.
  destruct x as [sx|[]| |[] mx ex], y as [sy| | |[] my ey]; cbn in Hx, Hy; try contradiction;
    try (left; exact I); try (right; reflexivity).
  left. cbn [SF64mul SFmul xorb]. apply signed_nonneg.
  apply (binary_round_aux_sign _ _ _ _ _ (SFmul_finite_inv mx my)).
Qed.

Lemma SFdiv_sign x y : sf_nonneg x -> sf_finpos y -> sf_nonneg (SF64div x y).
Proof.
  intros Hx Hy.
  destruct x as [sx|[]| |[] mx ex], y as [sy| | |[] my ey]; cbn in Hx, Hy; try contradiction;
    try exact I.
  cbn [SF64div SFdiv xorb].
  pose proof (SFdiv_core_spec mx ex my ey) as Hc.
  destruct (SFdiv_core_binary prec emax (Zpos mx) ex (Zpos my) ey) as [[q e] l].
  destruct Hc as (_ & V & Hinv & _).
  apply signed_nonneg, (binary_round_aux_sign _ _ _ _ _ Hinv).
Qed.

Lemma binary_round_sign m e : sf_nonneg (binary_round prec emax false m e).
Proof.
  unfold binary_round.
  destruct (shl_align m e (fexp (Zpos (digits2_pos m) + e))) as [mz ez].
  apply signed_nonneg, (binary_round_aux_sign _ _ _ _ (IZR (Zpos mz))), inv_int. lia.
Qed.

Lemma SFadd_sign x y : sf_nonneg x -> sf_nonneg y -> sf_nonneg (SF64add x y).
Proof.
  intros Hx Hy.
  destruct x as [sx|[]| |[] mx ex], y as [sy|[]| |[] my ey]; cbn in Hx, Hy; try contradiction;
    try exact I.
  - destruct sx, sy; exact I.
  - cbn [SF64add SFadd cond_Zopp].
    destruct (shl_align mx ex (Z.min ex ey)) as [mx' ex'],
             (shl_align my ey (Z.min ex ey)) as [my' ey']. cbn [fst].
    change (Zpos mx' + Zpos my') with (Zpos (mx' + my')).
    cbn [binary_normalize]. apply binary_round_sign.
Qed.

(** *** Comparisons *)

(** On valid numbers the comparison of [SpecFloat] is the order of the
    values. *)
Lemma SFleb_val m1 e1 m2 e2 :
  valid_binary (S754_finite false m1 e1) = true ->
  valid_binary (S754_finite false m2 e2) = true ->
  SFleb (S754_finite false m1 e1) (S754_finite false m2 e2) = true ->
  (F2R (Zpos m1) e1 <= F2R (Zpos m2) e2)%R.
Proof.
  intros Hv1 Hv2. apply valid_finite in Hv1 as [Hc1 _], Hv2 as [Hc2 _].
  unfold SFleb, SFcompare. destruct (Z.compare_spec e1 e2) as [->|Hlt|Hgt].
  - rewrite Pos.compare_cont_spec. cbn [Pos.switch_Eq].
    destruct (Pos.compare_spec m1 m2) as [->|Hm|Hm]; intros H; try discriminate.
    + lra.
    + unfold F2R. apply Rmult_le_compat_r; [pose proof (bpow_gt0 e2); lra|].
      apply IZR_le. lia.
  - intros _. rewrite fexp_eq in Hc1, Hc2.
    destruct (F2R_mag m1 e1) as [_ H1], (F2R_mag m2 e2) as [H2 _].
    assert (bpow (Zpos (digits2_pos m1) + e1) <= bpow (Zpos (digits2_pos m2) + e2 - 1))%R
      by (apply bpow_le; lia).
    lra.
  - discriminate.
Qed.


(** *** Primitive floats *)

#[local] Open Scope float_scope.


Lemma nonneg_sf x : nonneg x = true <-> sf_nonneg (Prim2SF x).
Proof.
  unfold nonneg. rewrite leb_spec. change (Prim2SF 0) with (S754_zero false).
  destruct (Prim2SF x) as [s|[]| |[] m e]; cbn; intuition congruence.
Qed.

Lemma fin_nonneg_sf x : fin_nonneg x = true <-> sf_fin (Prim2SF x).
Proof.
  unfold fin_nonneg. rewrite leb_spec, ltb_spec.
  change (Prim2SF 0) with (S754_zero false).
  change (Prim2SF infinity) with (S754_infinity false).
  destruct (Prim2SF x) as [s|[]| |[] m e]; cbn; intuition congruence.
Qed.

Lemma finpos_sf x : finpos x = true <-> sf_finpos (Prim2SF x).
Proof.
  unfold finpos. rewrite !ltb_spec.
  change (Prim2SF 0) with (S754_zero false).
  change (Prim2SF infinity) with (S754_infinity false).
  destruct (Prim2SF x) as [s|[]| |[] m e]; cbn; intuition congruence.
Qed.

Lemma is_nan_sf x : is_nan x = true <-> Prim2SF x = S754_nan.
Proof.
  unfold is_nan. rewrite FloatAxioms.eqb_spec.
  destruct (Prim2SF x) as [s|[]| |[] m e]; cbn;
    rewrite ?Z.compare_refl, ?Pos.compare_cont_refl; cbn; intuition congruence.
Qed.

Lemma fin_nonneg_nonneg x : fin_nonneg x = true -> nonneg x = true.
Proof. unfold fin_nonneg, nonneg. intros H. now apply andb_true_iff in H. Qed.

Lemma leb_val x y :
  fin_nonneg x = true -> finpos y = true -> (x <=? y) = true ->
  (sf_val (Prim2SF x) <= sf_val (Prim2SF y))%R.
Proof.
  intros Hx Hy. apply fin_nonneg_sf in Hx. apply finpos_sf in Hy. rewrite leb_spec.
  pose proof (Prim2SF_valid x) as Hvx. pose proof (Prim2SF_valid y) as Hvy.
  destruct (Prim2SF x) as [s| | |[] m1 e1], (Prim2SF y) as [s'| | |[] m2 e2];
    cbn in Hx, Hy; try contradiction.
  - intros _. cbn. apply Rlt_le, F2R_pos.
  - apply SFleb_val; assumption.
Qed.

(** [x / y] is at most one when [0 <= x <= y] and [y] is a finite number
    above zero, so multiplying by it keeps a finite number finite. *)
Lemma fraction_of_finite x y z :
  nonneg x = true -> (x <=? y) = true -> finpos y = true -> fin_nonneg z = true ->
  fin_nonneg (x / y * z) = true.
Proof.
  intros Hx Hxy Hy Hz.
  assert (Hfx : fin_nonneg x = true).
  { unfold fin_nonneg. unfold nonneg in Hx. rewrite Hx. cbn [andb].
    unfold finpos in Hy. apply andb_true_iff in Hy as [_ Hy].
    revert Hxy Hy. rewrite leb_spec, !ltb_spec.
    apply nonneg_sf in Hx. change (Prim2SF infinity) with (S754_infinity false).
    destruct (Prim2SF x) as [s|[]| |[] m1 e1], (Prim2SF y) as [s'|[]| |[] m2 e2];
      cbn in Hx |- *; try contradiction; congruence. }
  pose proof (leb_val x y Hfx Hy Hxy) as Hle.
  apply fin_nonneg_sf in Hfx, Hz. apply finpos_sf in Hy.
  destruct (SFdiv_le _ _ (Prim2SF_valid x) (Prim2SF_valid y) Hfx Hy Hle) as [Hq Hq1].
  rewrite <- div_spec in Hq, Hq1.
  apply fin_nonneg_sf. rewrite mul_spec.
  apply (SFmul_le1 _ _ (Prim2SF_valid (x / y)) (Prim2SF_valid z) Hq Hq1 Hz).
Qed.

(** A finite number divided by one that is at least one stays finite. *)
Lemma div_ge1_finite x y :
  fin_nonneg x = true -> (1 <=? y) = true -> (y <? infinity) = true ->
  fin_nonneg (x / y) = true.
Proof.
  intros Hx H1 Hy.
  assert (Hpy : finpos y = true).
  { unfold finpos. rewrite Hy, andb_true_r. revert H1. rewrite leb_spec, ltb_spec.
    change (Prim2SF 1) with (S754_finite false 4503599627370496 (-52)).
    change (Prim2SF 0) with (S754_zero false).
    destruct (Prim2SF y) as [s'|[]| |[] m2 e2]; cbn; congruence. }
  assert (Hge : (1 <= sf_val (Prim2SF y))%R).
  { assert (H := leb_val 1 y ltac:(reflexivity) Hpy H1).
    change (Prim2SF 1) with (S754_finite false 4503599627370496 (-52)) in H.
    cbn [sf_val] in H.
    change (F2R (Zpos 4503599627370496) (-52)) with (F2R (2 ^ 52) (-52)) in H.
    rewrite F2R_one_canonical in H. exact H. }
  apply fin_nonneg_sf in Hx. apply finpos_sf in Hpy.
  apply fin_nonneg_sf. rewrite div_spec.
  apply (SFdiv_ge1 _ _ (Prim2SF_valid x) (Prim2SF_valid y) Hx Hpy Hge).
Qed.

Lemma mul_fin_nonneg x y :
  fin_nonneg x = true -> fin_nonneg y = true -> nonneg (x * y) = true.
Proof.
  intros Hx Hy. apply fin_nonneg_sf in Hx, Hy. apply nonneg_sf. rewrite mul_spec.
  now apply SFmul_sign.
Qed.

Lemma mul_nonneg_finpos x y :
  nonneg x = true -> finpos y = true -> nonneg (x * y) = true.
Proof.
  intros Hx Hy. apply nonneg_sf in Hx. apply finpos_sf in Hy. apply nonneg_sf.
  rewrite mul_spec. now apply SFmul_sign_finpos.
Qed.

Lemma div_nonneg_finpos x y :
  nonneg x = true -> finpos y = true -> nonneg (x / y) = true.
Proof.
  intros Hx Hy. apply nonneg_sf in Hx. apply finpos_sf in Hy. apply nonneg_sf.
  rewrite div_spec. now apply SFdiv_sign.
Qed.

Lemma add_nonneg x y :
  nonneg x = true -> nonneg y = true -> nonneg (x + y) = true.
Proof.
  intros Hx Hy. apply nonneg_sf in Hx, Hy. apply nonneg_sf.
  rewrite add_spec. now apply SFadd_sign.
Qed.

Lemma mul_fin_nonneg_or_nan x y :
  fin_nonneg x = true -> nonneg y = true ->
  nonneg (x * y) = true \/ is_nan (x * y) = true.
Proof.
  intros Hx Hy. apply fin_nonneg_sf in Hx. apply nonneg_sf in Hy.
  destruct (SFmul_sign_or_nan _ _ Hx Hy) as [H|H]; rewrite <- mul_spec in H.
  - left. now apply nonneg_sf.
  - right. now apply is_nan_sf.
Qed.

Lemma mul_nonneg_fin_or_nan x y :
  nonneg x = true -> fin_nonneg y = true ->
  nonneg (x * y) = true \/ is_nan (x * y) = true.
Proof.
  intros Hx Hy. apply nonneg_sf in Hx. apply fin_nonneg_sf in Hy.
  destruct (SFmul_sign_or_nan_r _ _ Hx Hy) as [H|H]; rewrite <- mul_spec in H.
  - left. now apply nonneg_sf.
  - right. now apply is_nan_sf.
Qed.

(** Whatever is at most a finite number is below plus infinity. *)
Lemma leb_finite x y :
  (x <=? y) = true -> (y <? infinity) = true -> (x <? infinity) = true.
Proof.
  rewrite leb_spec, !ltb_spec. change (Prim2SF infinity) with (S754_infinity false).
  destruct (Prim2SF x) as [s|[]| |[] m1 e1], (Prim2SF y) as [s'|[]| |[] m2 e2];
    cbn; congruence.
Qed.

(** A finite number above zero divided by zero is plus infinity. *)
Lemma div_zero_infinity x : finpos x = true -> x / 0 = infinity.
Proof.
  intros Hx. apply finpos_sf in Hx. apply Prim2SF_inj. rewrite div_spec.
  change (Prim2SF 0) with (S754_zero false).
  change (Prim2SF infinity) with (S754_infinity false).
  destruct (Prim2SF x) as [s|[]| |[] m e]; cbn in Hx; try contradiction. reflexivity.
Qed.

Lemma nan_div x : nan / x = nan.
Proof. apply Prim2SF_inj. rewrite div_spec. reflexivity. Qed.

Lemma nan_mul x : nan * x = nan.
Proof. apply Prim2SF_inj. rewrite mul_spec. reflexivity. Qed.

Lemma mul_nan x : x * nan = nan.
Proof.
  apply Prim2SF_inj. rewrite mul_spec. change (Prim2SF nan) with S754_nan.
  destruct (Prim2SF x); reflexivity.
Qed.

End B64Facts.


(* ===================================================================== *)
(** ** More binary64 arithmetic: NaN, zero, commutativity *)
(* ===================================================================== *)

Section Arithmetic.

Import B64 B64Facts.

(** Rocq's binary64 has one NaN. *)
Lemma is_nan_eq x : is_nan x = true -> x = nan.
Proof. intros H. apply is_nan_sf in H. apply Prim2SF_inj. now rewrite H. Qed.

Lemma nan_add x : nan + x = nan.
Proof. apply Prim2SF_inj. rewrite add_spec. reflexivity. Qed.

Lemma add_nan x : x + nan = nan.
Proof.
  apply Prim2SF_inj. rewrite add_spec. change (Prim2SF nan) with S754_nan.
  destruct (Prim2SF x); reflexivity.
Qed.

Lemma nan_sub x : nan - x = nan.
Proof. apply Prim2SF_inj. rewrite sub_spec. reflexivity. Qed.

(** Nothing subtracted: [x - 0] is [x], also for a zero of either sign, an
    infinity and NaN. *)
Lemma sub_zero x : x - 0 = x.
Proof.
  apply Prim2SF_inj. rewrite sub_spec. change (Prim2SF 0) with (S754_zero false).
  destruct (Prim2SF x) as [[]|[]| |s m e]; reflexivity.
Qed.

Lemma SFmul_comm x y : SF64mul x y = SF64mul y x.
Proof.
  destruct x as [sx|sx| |sx mx ex], y as [sy|sy| |sy my ey]; cbn [SF64mul SFmul];
    rewrite ?(xorb_comm sx sy); try reflexivity.
  now rewrite (Pos.mul_comm mx my), (Z.add_comm ex ey).
Qed.

(** The product of two binary64 numbers does not depend on their order. *)
Lemma mul_comm x y : x * y = y * x.
Proof. apply Prim2SF_inj. rewrite !mul_spec. apply SFmul_comm. Qed.

End Arithmetic.


(* ===================================================================== *)
(** ** Rounding to nearest: the operations are monotone *)
(* ===================================================================== *)

Module B64RoundFacts.

Import B64 B64Facts B64Round.

#[local] Open Scope Z_scope.

#[local] Abbreviation fexp := (SpecFloat.fexp prec emax).

(** *** Shifting keeps the location *)

Lemma located_int m : 0 <= m -> located (Build_shr_record m false false) (IZR m).
Proof. intros H. split; [exact H | reflexivity]. Qed.

Lemma located_inv mrs V : located mrs V -> inv mrs V.
Proof.
  destruct mrs as [m r s]. intros [Hn H]. cbn in *.
  destruct r, s; split; cbn; try lia; try lra; try discriminate; intros; try lra;
    try (split; reflexivity).
Qed.

Lemma located_shr_1 mrs V : located mrs V -> located (shr_1 mrs) (V / 2).
Proof.
  destruct mrs as [m r s]. intros [Hn H]. cbn in *.
  destruct m as [|[p|p|]|p]; cbn [shr_1]; try lia.
  - destruct r, s; cbn in *; (split; cbn; [lia | lra]).
  - change (Zpos p~1) with (2 * Zpos p + 1) in *.
    rewrite plus_IZR, mult_IZR in *.
    destruct r, s; cbn in *; (split; cbn; [lia | lra]).
  - change (Zpos p~0) with (2 * Zpos p) in *.
    rewrite mult_IZR in *.
    destruct r, s; cbn in *; (split; cbn; [lia | lra]).
  - destruct r, s; cbn in *; (split; cbn; [lia | lra]).
Qed.

Lemma located_iter p : forall mrs V,
  located mrs V -> located (SpecFloat.iter_pos shr_1 p mrs) (V * bpow (- Zpos p)).
Proof.
  induction p as [p IH|p IH|]; intros mrs V H; cbn [SpecFloat.iter_pos].
  - replace (V * bpow (- Zpos p~1))%R
      with (V / 2 * bpow (- Zpos p) * bpow (- Zpos p))%R.
    + apply IH, IH, located_shr_1, H.
    + replace (- Zpos p~1) with (-1 + (- Zpos p + - Zpos p)) by lia.
      rewrite !bpow_add, bpow_opp1. lra.
  - replace (V * bpow (- Zpos p~0))%R
      with (V * bpow (- Zpos p) * bpow (- Zpos p))%R.
    + apply IH, IH, H.
    + replace (- Zpos p~0) with (- Zpos p + - Zpos p) by lia.
      rewrite !bpow_add. lra.
  - change (Z.opp (Zpos xH)) with (Zneg xH). rewrite bpow_opp1. apply located_shr_1, H.
Qed.

Lemma located_shr_fexp mx ex lx V :
  located (shr_record_of_loc mx lx) V ->
  let '(mrs, e) := shr_fexp prec emax mx ex lx in
  e = Z.max ex (fexp (Zdigits2 mx + ex)) /\ located mrs (V * bpow (ex - e)).
Proof.
  intros H. unfold shr_fexp, shr.
  destruct (fexp (Zdigits2 mx + ex) - ex) as [|p|p] eqn:E.
  - split; [lia|]. replace (ex - ex) with 0 by lia. rewrite bpow_0, Rmult_1_r. exact H.
  - split; [lia|]. replace (ex - (ex + Zpos p)) with (- Zpos p) by lia.
    apply located_iter, H.
  - split; [lia|]. replace (ex - ex) with 0 by lia. rewrite bpow_0, Rmult_1_r. exact H.
Qed.

(** Rounding to nearest even picks the integer nearest to the real. *)
Lemma round_nearest_even_located mrs V :
  located mrs V ->
  let m := shr_m mrs in
  let m2 := round_nearest_even m (loc_of_shr_record mrs) in
  (IZR m <= V < IZR m + 1)%R
  /\ ((m2 = m /\ (2 * V <= 2 * IZR m + 1)%R)
      \/ (m2 = m + 1 /\ (2 * IZR m + 1 <= 2 * V)%R)).
Proof.
  destruct mrs as [m r s]. intros [Hn H]. cbn in *.
  destruct r, s; cbn [loc_of_shr_record round_nearest_even]; (split; [lra|]).
  - right. split; [reflexivity | lra].
  - destruct (Z.even m); [left | right]; (split; [reflexivity | lra]).
  - left. split; [reflexivity | lra].
  - left. split; [reflexivity | lra].
Qed.


(** *** The grid around a located real *)

Lemma located_bounds mx lx V0 :
  located (shr_record_of_loc mx lx) V0 -> 0 <= mx /\ (IZR mx <= V0 < IZR mx + 1)%R.
Proof.
  intros H. pose proof (located_inv _ _ H) as [Hn Hlo Hhi _ _].
  rewrite shr_record_of_loc_m in *. auto.
Qed.

Lemma Zdigits2_bound mx : 0 <= mx -> mx < 2 ^ Zdigits2 mx.
Proof.
  destruct mx as [|p|p]; cbn [Zdigits2]; [reflexivity | | lia].
  intros _. apply digits2_pos_bounds.
Qed.

Lemma Zdigits2_nonneg mx : 0 <= Zdigits2 mx.
Proof. destruct mx; cbn [Zdigits2]; lia. Qed.

(** The real [V0 * 2^ex] is below [2^(digits mx + ex)]. *)
Lemma located_below mx lx V0 e :
  located (shr_record_of_loc mx lx) V0 ->
  (V0 * bpow e < bpow (Zdigits2 mx + e))%R.
Proof.
  intros H. apply located_bounds in H as [Hn [_ Hhi]].
  pose proof (Zdigits2_bound mx Hn) as Hd.
  assert (IZR mx + 1 <= IZR (2 ^ Zdigits2 mx))%R
    by (rewrite <- plus_IZR; apply IZR_le; lia).
  rewrite bpow_add, (bpow_IZR (Zdigits2 mx)) by apply Zdigits2_nonneg.
  pose proof (bpow_gt0 e). nra.
Qed.

(** No canonical number lies strictly between two neighbours of the grid
    of step [2^e1] that the rounding of [V0 * 2^ex] uses. *)
Lemma grid_gap mx ex lx V0 m1 k ek :
  located (shr_record_of_loc mx lx) V0 ->
  let e1 := fexp (Zdigits2 mx + ex) in
  ex <= e1 ->
  (IZR m1 <= V0 * bpow (ex - e1) < IZR m1 + 1)%R ->
  canonical k ek ->
  (F2R (Zpos k) ek <= IZR m1 * bpow e1)%R \/ (IZR (m1 + 1) * bpow e1 <= F2R (Zpos k) ek)%R.
Proof.
  intros Hloc e1 Hfine [Hlo Hhi] Hk.
  pose proof (bpow_gt0 e1) as HB.
  destruct (Z_le_gt_dec e1 ek) as [Hge|Hlt].
  - rewrite (F2R_shift (Zpos k) ek e1 Hge). unfold F2R.
    set (j := Zpos k * 2 ^ (ek - e1)).
    destruct (Z_le_gt_dec j m1) as [Hj|Hj].
    + left. apply Rmult_le_compat_r; [lra | now apply IZR_le].
    + right. apply Rmult_le_compat_r; [lra | apply IZR_le; lia].
  - left. unfold canonical in Hk. pose proof Hk as Hk'. rewrite fexp_eq in Hk'.
    assert (He1 : e1 = Zdigits2 mx + ex - 53) by (unfold e1 in *; rewrite fexp_eq in *; lia).
    assert (Hmag : Zpos (digits2_pos k) + ek <= Zdigits2 mx + ex - 1) by lia.
    apply located_bounds in Hloc as [Hn [HloV _]].
    destruct mx as [|p|p]; [cbn [Zdigits2] in *; lia | | lia].
    cbn [Zdigits2] in *.
    destruct (F2R_mag k ek) as [_ Hkhi].
    pose proof (bpow_le _ _ Hmag) as Hle.
    destruct (digits2_pos_bounds p) as [Hp _].
    (* the scaled real is at least 2^52 *)
    assert (H52 : (IZR (2 ^ 52) <= V0 * bpow (ex - e1))%R).
    { rewrite <- bpow_IZR by lia.
      replace 52 with ((Zpos (digits2_pos p) - 1) + (ex - e1)) by lia.
      rewrite bpow_add, (bpow_IZR (Zpos (digits2_pos p) - 1)) by lia.
      apply IZR_le in Hp. pose proof (bpow_gt0 (ex - e1)). nra. }
    assert (Hm1 : 2 ^ 52 <= m1).
    { assert (IZR (2 ^ 52) < IZR (m1 + 1))%R by (rewrite plus_IZR; lra).
      apply lt_IZR in H. lia. }
    replace (Zpos (digits2_pos p) + ex - 1) with (52 + e1) in Hle by lia.
    rewrite (bpow_add 52 e1), (bpow_IZR 52) in Hle by lia.
    apply IZR_le in Hm1. nra.
Qed.


(** *** The result of [binary_round_aux] *)

(** The second shift of [binary_round_aux], after the mantissa has been
    rounded to [m2] at the exponent [e1 = fexp t]: it loses nothing and
    leaves a canonical number. *)
Lemma second_shift m2 e1 t :
  0 <= m2 -> e1 = fexp t ->
  m2 <= 2 ^ Z.max 0 (t - e1) ->
  (e1 = -1074 \/ 2 ^ 52 <= m2) ->
  let '(mrs, e) := shr_fexp prec emax m2 e1 loc_Exact in
  (m2 = 0 /\ shr_m mrs = 0)
  \/ exists p, shr_m mrs = Zpos p /\ canonical p e
               /\ F2R (Zpos p) e = (IZR m2 * bpow e1)%R.
Proof.
  intros Hm2 He1 Hup Hlow.
  destruct m2 as [|p2|p2]; [| |lia].
  - pose proof (located_shr_fexp 0 e1 loc_Exact 0%R (located_int 0 ltac:(lia))) as H.
    destruct (shr_fexp prec emax 0 e1 loc_Exact) as [mrs e]. destruct H as [_ H].
    left. split; [reflexivity|].
    apply located_inv in H as [Hn Hlo Hhi _ _]. rewrite Rmult_0_l in *.
    assert (IZR (shr_m mrs) < 1)%R by lra. apply lt_IZR in H. lia.
  - unfold shr_fexp, shr. cbn [Zdigits2 shr_record_of_loc].
    destruct (digits2_pos_bounds p2) as [Hd_lo Hd_hi].
    set (d2 := Zpos (digits2_pos p2)) in *.
    destruct (fexp (d2 + e1) - e1) as [|n|n] eqn:E; [right | right |].
    + exists p2. cbn [shr_m]. split; [reflexivity|]. split; [|reflexivity].
      unfold canonical. fold d2. lia.
    + (* a shift: the mantissa is a power of two, the shift is by one *)
      assert (Ht : d2 - 1 >= t - e1).
      { destruct (Z_le_gt_dec (d2 + e1) t) as [Hle|Hgt]; [|lia].
        apply fexp_mono in Hle. lia. }
      assert (Ht0 : 0 <= t - e1).
      { destruct (Z_le_gt_dec 0 (t - e1)) as [|Hneg]; [assumption|].
        rewrite Z.max_l in Hup by lia. change (2 ^ 0) with 1 in Hup.
        assert (p2 = xH) by lia. subst p2. cbn in d2. subst d2.
        rewrite fexp_eq in He1, E. lia. }
      rewrite Z.max_r in Hup by lia.
      assert (Hpow : 2 ^ (t - e1) <= 2 ^ (d2 - 1)) by (apply Z.pow_le_mono_r; lia).
      assert (Hd2 : d2 - 1 = t - e1).
      { destruct (Z_le_gt_dec (d2 - 1) (t - e1)) as [|Hgt]; [lia|].
        assert (2 ^ Z.succ (t - e1) <= 2 ^ (d2 - 1)) by (apply Z.pow_le_mono_r; lia).
        rewrite Z.pow_succ_r in H by lia.
        pose proof (Z.pow_pos_nonneg 2 (t - e1) ltac:(lia) Ht0). lia. }
      assert (Hn : n = xH).
      { rewrite fexp_eq in He1, E. lia. }
      subst n. cbn [SpecFloat.iter_pos].
      assert (Hd2' : 2 <= d2).
      { destruct (Z_le_gt_dec 2 d2) as [|Hlt]; [assumption|].
        rewrite fexp_eq in He1, E. lia. }
      assert (Hm : Zpos p2 = 2 * 2 ^ (d2 - 2)).
      { rewrite <- Z.pow_succ_r by lia. replace (Z.succ (d2 - 2)) with (d2 - 1) by lia.
        rewrite Hd2 in *. lia. }
      destruct p2 as [q|q|]; [lia | | lia].
      cbn [shr_1 orb shr_m]. exists q. split; [reflexivity|]. split.
      * unfold canonical. subst d2. cbn [digits2_pos] in E.
        rewrite Pos2Z.inj_succ in E.
        replace (Zpos (digits2_pos q) + (e1 + 1)) with (Z.succ (Zpos (digits2_pos q)) + e1)
          by lia.
        lia.
      * unfold F2R. rewrite bpow_succ.
        change (Zpos q~0) with (2 * Zpos q). rewrite mult_IZR. ring.
    + exfalso. destruct Hlow as [Hlow|Hlow].
      * pose proof (fexp_ge (d2 + e1)). lia.
      * assert (53 <= d2).
        { destruct (Z_le_gt_dec 53 d2) as [|Hlt]; [assumption|].
          assert (2 ^ d2 <= 2 ^ 52) by (apply Z.pow_le_mono_r; lia). lia. }
        rewrite fexp_eq in E. lia.
Qed.


(** [binary_round_aux] rounds the real that its arguments locate to a
    nearest point of the grid, provided the exponent it is given is fine
    enough for the shift to happen at the magnitude of the real. *)
Lemma binary_round_aux_rounds mx ex lx V0 :
  located (shr_record_of_loc mx lx) V0 ->
  ex <= fexp (Zdigits2 mx + ex) ->
  exists U, nearest U (V0 * bpow ex)
            /\ rounds_to U (binary_round_aux prec emax false mx ex lx).
Proof.
  intros Hloc Hfine. unfold binary_round_aux.
  pose proof (located_shr_fexp mx ex lx V0 Hloc) as H1.
  pose proof (located_below mx lx V0 (ex - fexp (Zdigits2 mx + ex)) Hloc) as Hbelow.
  pose proof (fun m1 k ek => grid_gap mx ex lx V0 m1 k ek Hloc Hfine) as Hgap.
  pose proof (located_bounds _ _ _ Hloc) as [Hmx [HloV _]].
  destruct (shr_fexp prec emax mx ex lx) as [mrs1 e1]. destruct H1 as [He1 Hloc1].
  set (t := Zdigits2 mx + ex) in *.
  assert (He1' : e1 = fexp t) by lia. clear He1.
  rewrite <- He1' in *.
  pose proof (round_nearest_even_located _ _ Hloc1) as [[Hlo Hhi] Hrne].
  cbv zeta in Hrne.
  set (m1 := shr_m mrs1) in *.
  set (m2 := round_nearest_even m1 (loc_of_shr_record mrs1)) in *.
  set (W := (V0 * bpow (ex - e1))%R) in *.
  pose proof (bpow_gt0 e1) as HB.
  assert (Hm1 : 0 <= m1) by (destruct Hloc1; assumption).
  assert (HV : (V0 * bpow ex = W * bpow e1)%R).
  { unfold W. rewrite Rmult_assoc, <- bpow_add. do 2 f_equal. lia. }
  (* the rounded mantissa is within the digits of the format *)
  assert (Hup : m2 <= 2 ^ Z.max 0 (t - e1)).
  { replace (Zdigits2 mx + (ex - e1)) with (t - e1) in Hbelow by (unfold t; lia).
    destruct (Z_le_gt_dec 0 (t - e1)) as [Hge|Hneg].
    - rewrite Z.max_r by lia. rewrite bpow_IZR in Hbelow by lia.
      assert (IZR m1 < IZR (2 ^ (t - e1)))%R by lra. apply lt_IZR in H.
      destruct Hrne as [[-> _]|[-> _]]; lia.
    - rewrite Z.max_l by lia. change (2 ^ 0) with 1.
      pose proof (bpow_lt (t - e1) 0 ltac:(lia)) as Hlt. rewrite bpow_0 in Hlt.
      assert (IZR m1 < 1)%R by lra. apply lt_IZR in H.
      destruct Hrne as [[-> _]|[-> _]]; lia. }
  assert (Hlow : e1 = -1074 \/ 2 ^ 52 <= m2).
  { destruct (Z.eq_dec e1 (-1074)) as [|Hne]; [now left | right].
    assert (He : e1 = t - 53) by (rewrite fexp_eq in He1'; lia).
    destruct mx as [|p|p]; [unfold t in *; cbn [Zdigits2] in *; lia | | lia].
    destruct (digits2_pos_bounds p) as [Hp _]. unfold t in *. cbn [Zdigits2] in *.
    assert (H52 : (IZR (2 ^ 52) <= W)%R).
    { unfold W. rewrite <- bpow_IZR by lia.
      replace 52 with ((Zpos (digits2_pos p) - 1) + (ex - e1)) by lia.
      rewrite bpow_add, (bpow_IZR (Zpos (digits2_pos p) - 1)) by lia.
      apply IZR_le in Hp. pose proof (bpow_gt0 (ex - e1)). nra. }
    assert (IZR (2 ^ 52) < IZR (m1 + 1))%R by (rewrite plus_IZR; lra).
    apply lt_IZR in H. destruct Hrne as [[-> _]|[-> _]]; lia. }
  assert (Hm2 : 0 <= m2) by (destruct Hrne as [[-> _]|[-> _]]; lia).
  pose proof (second_shift m2 e1 t Hm2 He1' Hup Hlow) as H2.
  destruct (shr_fexp prec emax m2 e1 loc_Exact) as [mrs2 e2].
  exists (IZR m2 * bpow e1)%R. split.
  - (* nearest *)
    intros K HK. rewrite HV.
    assert (Hside : (K <= IZR m1 * bpow e1)%R \/ (IZR (m1 + 1) * bpow e1 <= K)%R).
    { destruct HK as [->|(k & ek & Hk & ->)].
      - left. apply IZR_le in Hm1. nra.
      - apply Hgap; [split; assumption | exact Hk]. }
    rewrite plus_IZR in Hside.
    destruct Hrne as [[-> Hhalf]|[-> Hhalf]]; rewrite ?plus_IZR;
      destruct Hside as [Hside|Hside]; split; intros HKU; nra.
  - (* the number returned *)
    destruct H2 as [[Hz ->]|(p & -> & Hcan & Hval)].
    + cbn [rounds_to]. rewrite Hz. lra.
    + destruct (Z.leb_spec e2 (emax - prec)) as [Hle|Hgt];
        change (emax - prec) with 971 in *; cbn [rounds_to].
      * repeat split; [exact Hcan | exact Hle | now rewrite Hval].
      * split; [reflexivity|]. exists p, e2. repeat split; [exact Hcan | lia | now rewrite Hval].
Qed.


(** *** Order *)

(** On canonical numbers the comparison of [SpecFloat] is the order of
    the values, and the exponent grows with the value. *)
Lemma canonical_order m1 e1 m2 e2 :
  canonical m1 e1 -> canonical m2 e2 ->
  (F2R (Zpos m1) e1 <= F2R (Zpos m2) e2)%R ->
  SFleb (S754_finite false m1 e1) (S754_finite false m2 e2) = true /\ e1 <= e2.
Proof.
  unfold canonical. intros Hc1 Hc2 Hle.
  pose proof (mag_le _ _ _ _ Hle) as Hmag. apply fexp_mono in Hmag.
  rewrite Hc1, Hc2 in Hmag. split; [|exact Hmag].
  unfold SFleb, SFcompare. destruct (Z.compare_spec e1 e2) as [->|Hlt|Hgt]; [|reflexivity|lia].
  rewrite Pos.compare_cont_spec. cbn [Pos.switch_Eq].
  assert (Hm : Zpos m1 <= Zpos m2).
  { apply le_IZR. unfold F2R in Hle. pose proof (bpow_gt0 e2). nra. }
  destruct (Pos.compare_spec m1 m2); [reflexivity | reflexivity | lia].
Qed.

Lemma rounds_to_on_grid U x : rounds_to U x -> on_grid U /\ (0 <= U)%R.
Proof.
  destruct x as [s|s| |s m e]; cbn [rounds_to]; try contradiction.
  - intros ->. split; [now left | lra].
  - intros [_ (m & e & Hc & _ & ->)]. split; [right; eauto | apply Rlt_le, F2R_pos].
  - intros (_ & Hc & _ & ->). split; [right; eauto | apply Rlt_le, F2R_pos].
Qed.

(** The numbers of two grid points compare as the points do. *)
Lemma rounds_to_le U1 U2 x1 x2 :
  rounds_to U1 x1 -> rounds_to U2 x2 -> (U1 <= U2)%R -> SFleb x1 x2 = true.
Proof.
  destruct x1 as [s1|s1| |s1 m1 e1], x2 as [s2|s2| |s2 m2 e2]; cbn [rounds_to];
    try contradiction.
  - intros _ _ _. reflexivity.
  - intros _ [-> _] _. reflexivity.
  - intros _ (-> & _) _. reflexivity.
  - intros [-> (m & e & _ & _ & ->)] -> Hle. pose proof (F2R_pos m e). lra.
  - intros [-> _] [-> _] _. reflexivity.
  - intros [-> (m & e & Hc & He & ->)] (-> & Hc2 & He2 & ->) Hle.
    destruct (canonical_order _ _ _ _ Hc Hc2 Hle) as [_ H]. lia.
  - intros (-> & _ & _ & ->) -> Hle. pose proof (F2R_pos m1 e1). lra.
  - intros (-> & _) [-> _] _. reflexivity.
  - intros (-> & Hc1 & _ & ->) (-> & Hc2 & _ & ->) Hle.
    now destruct (canonical_order _ _ _ _ Hc1 Hc2 Hle).
Qed.

(** Rounding to nearest does not cross a point of the grid. *)
Lemma nearest_below U V K : nearest U V -> on_grid K -> (V <= K)%R -> (U <= K)%R.
Proof.
  intros HU HK HV. destruct (Rle_lt_dec U K) as [|Hlt]; [assumption|].
  destruct (HU K HK) as [H _]. specialize (H Hlt). lra.
Qed.

Lemma nearest_above U V K : nearest U V -> on_grid K -> (K <= V)%R -> (K <= U)%R.
Proof.
  intros HU HK HV. destruct (Rle_lt_dec K U) as [|Hlt]; [assumption|].
  destruct (HU K HK) as [_ H]. specialize (H Hlt). lra.
Qed.

(** Rounding to nearest is monotone. *)
Lemma nearest_mono U1 V1 U2 V2 :
  nearest U1 V1 -> nearest U2 V2 -> on_grid U1 -> on_grid U2 ->
  (V1 < V2)%R -> (U1 <= U2)%R.
Proof.
  intros H1 H2 G1 G2 HV. destruct (Rle_lt_dec U1 U2) as [|Hlt]; [assumption|].
  destruct (H1 U2 G2) as [Ha _]. destruct (H2 U1 G1) as [_ Hb].
  specialize (Ha Hlt). specialize (Hb Hlt). lra.
Qed.

Lemma rounds_mono U1 V1 U2 V2 x1 x2 :
  nearest U1 V1 -> nearest U2 V2 -> rounds_to U1 x1 -> rounds_to U2 x2 ->
  (V1 < V2)%R -> SFleb x1 x2 = true.
Proof.
  intros H1 H2 R1 R2 HV. apply (rounds_to_le U1 U2); [assumption | assumption |].
  apply (nearest_mono U1 V1 U2 V2); try assumption.
  - now apply rounds_to_on_grid in R1.
  - now apply rounds_to_on_grid in R2.
Qed.

(** A binary64 number is the number of its own value. *)
Lemma valid_canonical s m e :
  valid_binary (S754_finite s m e) = true -> canonical m e /\ e <= 971.
Proof. apply valid_finite. Qed.



Lemma rounded_le V1 V2 x1 x2 :
  rounded V1 x1 -> rounded V2 x2 -> (V1 < V2)%R -> SFleb x1 x2 = true.
Proof.
  intros (U1 & H1 & R1) (U2 & H2 & R2) HV. now apply (rounds_mono U1 V1 U2 V2).
Qed.

Lemma nearest_self U : nearest U U.
Proof. intros K _. split; intros; lra. Qed.

(** Zero rounds to zero only. *)
Lemma rounded_zero x : rounded 0 x -> rounds_to 0 x.
Proof.
  intros (U & HU & R). destruct (rounds_to_on_grid _ _ R) as [_ H0].
  assert (U <= 0)%R by (apply (nearest_below U 0 0 HU); [now left | lra]).
  now replace 0%R with U by lra.
Qed.

Lemma rounded_refl V x : rounded V x -> SFleb x x = true.
Proof. intros (U & _ & R). apply (rounds_to_le U U); [assumption | assumption | lra]. Qed.

(** A finite binary64 number that is not negative is what its value
    rounds to. *)
Lemma valid_rounds_to x : valid_binary x = true -> sf_fin x -> rounds_to (sf_val x) x.
Proof.
  intros Hv Hx.
  destruct x as [s| | |[] m e]; cbn in Hx |- *; try contradiction; [reflexivity|].
  destruct (valid_canonical _ _ _ Hv) as [Hc He]. auto.
Qed.

Lemma rounded_valid x : valid_binary x = true -> sf_fin x -> rounded (sf_val x) x.
Proof.
  intros Hv Hx. exists (sf_val x). split; [apply nearest_self | now apply valid_rounds_to].
Qed.

Lemma canonical_inj m1 e1 m2 e2 :
  canonical m1 e1 -> canonical m2 e2 ->
  F2R (Zpos m1) e1 = F2R (Zpos m2) e2 -> m1 = m2 /\ e1 = e2.
Proof.
  intros Hc1 Hc2 Heq.
  destruct (canonical_order _ _ _ _ Hc1 Hc2 ltac:(lra)) as [_ H12].
  destruct (canonical_order _ _ _ _ Hc2 Hc1 ltac:(lra)) as [_ H21].
  assert (e1 = e2) by lia. subst e2. split; [|reflexivity].
  unfold F2R in Heq. pose proof (bpow_gt0 e1).
  assert (IZR (Zpos m1) = IZR (Zpos m2)) by nra. apply eq_IZR in H0. congruence.
Qed.

(** *** Multiplication *)

Lemma digits2_pos_mul mx my :
  Zpos (digits2_pos mx) + Zpos (digits2_pos my) - 1 <= Zpos (digits2_pos (mx * my)).
Proof.
  destruct (digits2_pos_bounds mx) as [Hx _], (digits2_pos_bounds my) as [Hy _].
  destruct (digits2_pos_bounds (mx * my)) as [_ Hxy].
  set (dx := Zpos (digits2_pos mx)) in *. set (dy := Zpos (digits2_pos my)) in *.
  set (d := Zpos (digits2_pos (mx * my))) in *.
  assert (Hp : 2 ^ (dx - 1 + (dy - 1)) <= Zpos mx * Zpos my).
  { rewrite Z.pow_add_r by lia.
    apply Z.mul_le_mono_nonneg; try assumption; apply Z.pow_nonneg; lia. }
  rewrite Pos2Z.inj_mul in Hxy.
  destruct (Z_le_gt_dec (dx + dy - 1) d) as [|Hgt]; [assumption|].
  assert (2 ^ d <= 2 ^ (dx - 1 + (dy - 1))) by (apply Z.pow_le_mono_r; lia). lia.
Qed.

(** The product of two mantissas has digits enough for the rounding to
    shift. *)
Lemma mul_fine mx ex my ey :
  canonical mx ex -> canonical my ey ->
  ex + ey <= fexp (Zdigits2 (Zpos (mx * my)) + (ex + ey)).
Proof.
  unfold canonical. intros Hx Hy. cbn [Zdigits2].
  pose proof (digits2_pos_mul mx my). rewrite fexp_eq in *. lia.
Qed.

Lemma SFmul_rounded x y :
  valid_binary x = true -> valid_binary y = true -> sf_fin x -> sf_fin y ->
  rounded (sf_val x * sf_val y) (SF64mul x y).
Proof.
  intros Hvx Hvy Hx Hy.
  destruct x as [sx| | |[] mx ex], y as [sy| | |[] my ey]; cbn in Hx, Hy; try contradiction;
    cbn [SF64mul SFmul xorb sf_val];
    try (rewrite ?Rmult_0_l, ?Rmult_0_r; exists 0%R; split; [apply nearest_self | reflexivity]).
  destruct (valid_canonical _ _ _ Hvx) as [Hcx _], (valid_canonical _ _ _ Hvy) as [Hcy _].
  rewrite <- F2R_mul.
  apply binary_round_aux_rounds; [apply located_int; lia | now apply mul_fine].
Qed.

(** *** Division *)

Lemma located_of_quotient q r n :
  0 <= q -> 0 <= r < n ->
  located (shr_record_of_loc q (new_location n r)) (IZR (n * q + r) / IZR n).
Proof.
  intros Hq [Hr0 Hrn].
  assert (Hn : (0 < IZR n)%R) by (apply IZR_lt; lia).
  set (f := (IZR r / IZR n)%R).
  assert (HV : (IZR (n * q + r) / IZR n = IZR q + f)%R).
  { unfold f. rewrite plus_IZR, mult_IZR. field. lra. }
  rewrite HV.
  assert (Hf : (f * IZR n = IZR r)%R) by (unfold f; field; lra).
  assert (Hr0' := IZR_le _ _ Hr0). assert (Hrn' := IZR_lt _ _ Hrn).
  unfold new_location, new_location_even, new_location_odd.
  destruct (Z.even n) eqn:En; destruct (Z.eqb_spec r 0) as [->|Hr].
  - split; cbn; [lia | nra].
  - assert (IZR r <> 0)%R by (intros H0; apply eq_IZR in H0; contradiction).
    destruct (Z.compare_spec (2 * r) n) as [He|Hl|Hg]; (split; cbn; [lia|]).
    + apply (f_equal IZR) in He. rewrite mult_IZR in He. nra.
    + apply IZR_lt in Hl. rewrite mult_IZR in Hl. nra.
    + apply IZR_lt in Hg. rewrite mult_IZR in Hg. nra.
  - split; cbn; [lia | nra].
  - assert (IZR r <> 0)%R by (intros H0; apply eq_IZR in H0; contradiction).
    assert (Hodd : Z.odd n = true) by (rewrite <- Z.negb_even, En; reflexivity).
    apply Z.odd_spec in Hodd as [k Hk].
    destruct (Z.compare_spec (2 * r + 1) n) as [He|Hl|Hg]; (split; cbn; [lia|]).
    + assert (Hl : 2 * r < n) by lia.
      apply IZR_lt in Hl. rewrite mult_IZR in Hl. nra.
    + assert (Hl' : 2 * r < n) by lia.
      apply IZR_lt in Hl'. rewrite mult_IZR in Hl'. nra.
    + assert (Hg' : n < 2 * r) by lia.
      apply IZR_lt in Hg'. rewrite mult_IZR in Hg'. nra.
Qed.


(** What [SFdiv_core_binary] hands to the rounding locates the exact
    quotient, at an exponent fine enough. *)
Lemma SFdiv_core_located mx ex my ey :
  let '(q, e, l) := SFdiv_core_binary prec emax (Zpos mx) ex (Zpos my) ey in
  e <= fexp (Zdigits2 q + e) /\
  exists V, located (shr_record_of_loc q l) V /\
            (V * bpow e = F2R (Zpos mx) ex / F2R (Zpos my) ey)%R.
Proof.
  unfold SFdiv_core_binary. cbn [Zdigits2].
  destruct (digits2_pos_bounds mx) as [Hdx _], (digits2_pos_bounds my) as [_ Hdy].
  set (dx := Zpos (digits2_pos mx)) in *. set (dy := Zpos (digits2_pos my)) in *.
  set (e := Z.min (fexp (dx + ex - (dy + ey))) (ex - ey)).
  set (s := ex - ey - e).
  assert (Hs : 0 <= s) by (unfold s, e; lia).
  set (m := match s with Zpos _ => Z.shiftl (Zpos mx) s | 0 => Zpos mx | Zneg _ => 0 end).
  assert (Hm : m = Zpos mx * 2 ^ s).
  { unfold m. destruct s as [|p|p] eqn:Es; [lia| |lia].
    rewrite Z.shiftl_mul_pow2 by lia. reflexivity. }
  assert (Hm0 : 0 <= m) by (rewrite Hm; apply Z.mul_nonneg_nonneg; [lia | apply Z.pow_nonneg; lia]).
  pose proof (Z_div_mod m (Zpos my) ltac:(lia)) as Hdm.
  destruct (Z.div_eucl m (Zpos my)) as [q r] eqn:Ediv. destruct Hdm as [Hmq Hr].
  assert (Hq : 0 <= q) by nia.
  split.
  - destruct (Z_le_gt_dec e (-1074)) as [Hlow|Hhigh].
    + pose proof (fexp_ge (Zdigits2 q + e)). lia.
    + assert (Hs' : 53 - dx + dy <= s).
      { unfold s, e in *. rewrite fexp_eq in *. lia. }
      assert (Hbig : 2 ^ 52 * Zpos my <= m).
      { rewrite Hm.
        assert (2 ^ (52 + dy) <= Zpos mx * 2 ^ s).
        { transitivity (2 ^ (dx - 1 + s)); [apply Z.pow_le_mono_r; lia|].
          rewrite Z.pow_add_r by lia.
          apply Z.mul_le_mono_nonneg_r; [apply Z.pow_nonneg; lia | assumption]. }
        rewrite Z.pow_add_r in H by lia.
        assert (2 ^ 52 * Zpos my <= 2 ^ 52 * 2 ^ dy) by (apply Z.mul_le_mono_nonneg_l; lia).
        lia. }
      assert (Hq52 : 2 ^ 52 <= q) by nia.
      assert (53 <= Zdigits2 q).
      { pose proof (Zdigits2_bound q Hq).
        destruct (Z_le_gt_dec 53 (Zdigits2 q)) as [|Hlt]; [assumption|].
        assert (2 ^ Zdigits2 q <= 2 ^ 52)
          by (apply Z.pow_le_mono_r; [lia | pose proof (Zdigits2_nonneg q); lia]).
        lia. }
      rewrite fexp_eq. lia.
  - exists (IZR (Zpos my * q + r) / IZR (Zpos my))%R. split.
    + apply located_of_quotient; assumption.
    + rewrite <- Hmq, Hm, mult_IZR, <- bpow_IZR by lia. unfold F2R, Rdiv.
      assert (Hmy : (0 < IZR (Zpos my))%R) by (apply IZR_lt; lia).
      pose proof (bpow_gt0 ey).
      replace (bpow ex) with (bpow s * bpow e * bpow ey)%R
        by (rewrite <- !bpow_add; f_equal; unfold s; lia).
      field. split; lra.
Qed.

Lemma SFdiv_rounded x y :
  valid_binary x = true -> valid_binary y = true -> sf_fin x -> sf_finpos y ->
  rounded (sf_val x / sf_val y) (SF64div x y).
Proof.
  intros Hvx Hvy Hx Hy.
  destruct x as [sx| | |[] mx ex], y as [sy| | |[] my ey]; cbn in Hx, Hy; try contradiction;
    cbn [SF64div SFdiv xorb sf_val].
  - unfold Rdiv. rewrite Rmult_0_l. exists 0%R. split; [apply nearest_self | reflexivity].
  - pose proof (SFdiv_core_located mx ex my ey) as Hc.
    destruct (SFdiv_core_binary prec emax (Zpos mx) ex (Zpos my) ey) as [[q e] l].
    destruct Hc as (Hfine & V & Hloc & <-).
    now apply binary_round_aux_rounds.
Qed.


(** *** Addition and subtraction *)

Lemma iter_xO mx : forall d, Zpos (Pos.iter xO mx d) = Zpos mx * 2 ^ Zpos d.
Proof.
  intros d. pattern d. apply Pos.peano_ind; clear d.
  - cbn [Pos.iter]. change (Zpos mx~0) with (2 * Zpos mx). change (2 ^ 1) with 2. lia.
  - intros d IH. rewrite Pos.iter_succ, Pos2Z.inj_succ, Z.pow_succ_r by lia.
    change (Zpos (Pos.iter xO mx d)~0) with (2 * Zpos (Pos.iter xO mx d)). lia.
Qed.

(** Aligning a mantissa to a finer exponent keeps the value. *)
Lemma shl_align_spec mx ex ex' :
  let '(m, e) := shl_align mx ex ex' in
  e = Z.min ex ex' /\ F2R (Zpos m) e = F2R (Zpos mx) ex.
Proof.
  unfold shl_align. destruct (ex' - ex) as [|d|d] eqn:E.
  - split; [lia | reflexivity].
  - split; [lia | reflexivity].
  - split; [lia|]. rewrite iter_xO.
    rewrite (F2R_shift (Zpos mx) ex ex') by lia.
    replace (ex - ex') with (Zpos d) by lia. reflexivity.
Qed.

Lemma shl_align_fst mx ex ez :
  ez <= ex -> F2R (Zpos (fst (shl_align mx ex ez))) ez = F2R (Zpos mx) ex.
Proof.
  intros H. pose proof (shl_align_spec mx ex ez) as Hs.
  destruct (shl_align mx ex ez) as [m e]. destruct Hs as [He Hv].
  cbn [fst]. rewrite <- Hv. f_equal. lia.
Qed.

Lemma binary_round_aux_opp mx ex lx :
  binary_round_aux prec emax true mx ex lx
  = SFopp (binary_round_aux prec emax false mx ex lx).
Proof.
  unfold binary_round_aux.
  destruct (shr_fexp prec emax mx ex lx) as [mrs1 e1].
  destruct (shr_fexp prec emax _ e1 loc_Exact) as [mrs2 e2].
  destruct (shr_m mrs2); [reflexivity | | reflexivity].
  destruct (e2 <=? emax - prec); reflexivity.
Qed.

Lemma binary_round_opp m e :
  binary_round prec emax true m e = SFopp (binary_round prec emax false m e).
Proof.
  unfold binary_round.
  destruct (shl_align m e (fexp (Zpos (digits2_pos m) + e))) as [mz ez].
  apply binary_round_aux_opp.
Qed.

Lemma binary_round_rounded m e :
  rounded (F2R (Zpos m) e) (binary_round prec emax false m e).
Proof.
  unfold binary_round.
  pose proof (shl_align_spec m e (fexp (Zpos (digits2_pos m) + e))) as Hs.
  destruct (shl_align m e (fexp (Zpos (digits2_pos m) + e))) as [mz ez].
  destruct Hs as [He Hv]. rewrite <- Hv.
  apply binary_round_aux_rounds; [apply located_int; lia|].
  cbn [Zdigits2].
  assert (Hmag : Zpos (digits2_pos mz) + ez = Zpos (digits2_pos m) + e).
  { pose proof (mag_le mz ez m e ltac:(lra)). pose proof (mag_le m e mz ez ltac:(lra)). lia. }
  rewrite Hmag. lia.
Qed.

(** [binary_normalize] rounds the integer [m] at the exponent [e]. *)
Lemma binary_normalize_srounded m e :
  srounded (IZR m * bpow e) (binary_normalize prec emax m e false).
Proof.
  pose proof (bpow_gt0 e) as HB.
  destruct m as [|p|p]; cbn [binary_normalize].
  - rewrite Rmult_0_l. split; intros _; rewrite ?Ropp_0;
      (exists 0%R; split; [apply nearest_self | reflexivity]).
  - split.
    + intros _. apply binary_round_rounded.
    + intros H. pose proof (F2R_pos p e). unfold F2R in *. lra.
  - rewrite binary_round_opp. split.
    + intros H. pose proof (F2R_pos p e). unfold F2R in *.
      change (Zneg p) with (- Zpos p) in H. rewrite opp_IZR in H. lra.
    + intros _. change (Zneg p) with (- Zpos p). rewrite opp_IZR.
      replace (- (- IZR (Zpos p) * bpow e))%R with (F2R (Zpos p) e) by (unfold F2R; ring).
      assert (Hopp : forall x, SFopp (SFopp x) = x)
        by (intros [[]|[]| |[] ? ?]; reflexivity).
      rewrite Hopp. apply binary_round_rounded.
Qed.

Lemma srounded_of_rounded V x : (0 < V)%R -> rounded V x -> srounded V x.
Proof. intros HV H. split; [intros _; exact H | intros; lra]. Qed.

Lemma SFadd_rounded x y :
  valid_binary x = true -> valid_binary y = true -> sf_fin x -> sf_fin y ->
  rounded (sf_val x + sf_val y) (SF64add x y).
Proof.
  intros Hvx Hvy Hx Hy.
  destruct x as [sx| | |[] mx ex] eqn:Ex, y as [sy| | |[] my ey] eqn:Ey;
    cbn in Hx, Hy; try contradiction.
  - cbn [sf_val]. rewrite Rplus_0_l. exists 0%R. split; [apply nearest_self|].
    destruct sx, sy; reflexivity.
  - cbn [SF64add SFadd]. replace (sf_val (S754_zero sx) + _)%R
      with (sf_val (S754_finite false my ey)) by (cbn; lra).
    now apply rounded_valid.
  - cbn [SF64add SFadd]. replace (_ + sf_val (S754_zero sy))%R
      with (sf_val (S754_finite false mx ex)) by (cbn; lra).
    now apply rounded_valid.
  - cbn [SF64add SFadd cond_Zopp sf_val].
    set (ez := Z.min ex ey).
    pose proof (shl_align_fst mx ex ez ltac:(lia)) as Hax.
    pose proof (shl_align_fst my ey ez ltac:(lia)) as Hay.
    set (ax := fst (shl_align mx ex ez)) in *. set (ay := fst (shl_align my ey ez)) in *.
    change (Zpos ax + Zpos ay) with (Zpos (ax + ay)). cbn [binary_normalize].
    replace (F2R (Zpos mx) ex + F2R (Zpos my) ey)%R with (F2R (Zpos (ax + ay)) ez).
    + apply binary_round_rounded.
    + rewrite <- Hax, <- Hay. unfold F2R. rewrite Pos2Z.inj_add, plus_IZR. ring.
Qed.

Lemma SFsub_srounded x y :
  valid_binary x = true -> valid_binary y = true -> sf_fin x -> sf_fin y ->
  srounded (sf_val x - sf_val y) (SF64sub x y).
Proof.
  intros Hvx Hvy Hx Hy.
  destruct x as [sx| | |[] mx ex] eqn:Ex, y as [sy| | |[] my ey] eqn:Ey;
    cbn in Hx, Hy; try contradiction.
  - cbn [sf_val]. rewrite Rminus_0_r.
    split; intros _; rewrite ?Ropp_0; (exists 0%R; split; [apply nearest_self|]);
      destruct sx, sy; reflexivity.
  - cbn [SF64sub SFsub negb]. pose proof (F2R_pos my ey). cbn [sf_val]. split.
    + intros. lra.
    + intros _. cbn [SFopp negb].
      replace (- (0 - F2R (Zpos my) ey))%R with (sf_val (S754_finite false my ey))
        by (cbn; lra).
      now apply rounded_valid.
  - cbn [SF64sub SFsub]. pose proof (F2R_pos mx ex). cbn [sf_val]. split.
    + intros _. replace (F2R (Zpos mx) ex - 0)%R with (sf_val (S754_finite false mx ex))
        by (cbn; lra).
      now apply rounded_valid.
    + intros. lra.
  - cbn [SF64sub SFsub cond_Zopp sf_val].
    set (ez := Z.min ex ey).
    pose proof (shl_align_fst mx ex ez ltac:(lia)) as Hax.
    pose proof (shl_align_fst my ey ez ltac:(lia)) as Hay.
    set (ax := fst (shl_align mx ex ez)) in *. set (ay := fst (shl_align my ey ez)) in *.
    replace (F2R (Zpos mx) ex - F2R (Zpos my) ey)%R
      with (IZR (Zpos ax - Zpos ay) * bpow ez)%R.
    + apply binary_normalize_srounded.
    + rewrite <- Hax, <- Hay. unfold F2R. rewrite minus_IZR. ring.
Qed.


(** *** Comparing what reals round to *)

Lemma rounded_nonneg V x : rounded V x -> sf_nonneg x.
Proof.
  intros (U & _ & R). destruct x as [s|s| |s m e]; cbn in R |- *; try contradiction.
  - exact I.
  - destruct R as [-> _]. exact I.
  - destruct R as [-> _]. exact I.
Qed.

Lemma SFleb_nonneg_infinity x : sf_nonneg x -> SFleb x (S754_infinity false) = true.
Proof. destruct x as [s|[]| |[] m e]; cbn; intros H; try contradiction; reflexivity. Qed.

Lemma SFleb_neg_infinity x : x <> S754_nan -> SFleb (S754_infinity true) x = true.
Proof. destruct x as [s|[]| |[] m e]; cbn; intros H; try reflexivity; contradiction. Qed.

Lemma SFleb_refl_fin s m e : SFleb (S754_finite s m e) (S754_finite s m e) = true.
Proof.
  unfold SFleb, SFcompare. rewrite Z.compare_refl, Pos.compare_cont_refl.
  destruct s; reflexivity.
Qed.

(** The numbers of two grid points, taken negative, compare in the
    opposite order. *)
Lemma rounds_to_le_opp U1 U2 x1 x2 :
  rounds_to U1 (SFopp x1) -> rounds_to U2 (SFopp x2) -> (U2 <= U1)%R ->
  SFleb x1 x2 = true.
Proof.
  destruct x1 as [s1|s1| |s1 m1 e1], x2 as [s2|s2| |s2 m2 e2]; cbn [rounds_to SFopp];
    try contradiction.
  - intros _ _ _. reflexivity.
  - intros -> [H (m & e & _ & _ & ->)] Hle. pose proof (F2R_pos m e). lra.
  - intros -> (_ & _ & _ & ->) Hle. pose proof (F2R_pos m2 e2). lra.
  - intros [H _] _ _. destruct s1; [reflexivity | discriminate].
  - intros [H1 _] [H2 _] _. destruct s1, s2; try discriminate. reflexivity.
  - intros [H1 _] (H2 & _) _. destruct s1, s2; try discriminate. reflexivity.
  - intros (H & _) _ _. destruct s1; [reflexivity | discriminate].
  - intros (H1 & Hc1 & He1 & ->) [H2 (m & e & Hc & He & ->)] Hle.
    destruct (canonical_order _ _ _ _ Hc Hc1 Hle) as [_ H]. lia.
  - intros (H1 & Hc1 & _ & ->) (H2 & Hc2 & _ & ->) Hle.
    destruct s1, s2; try discriminate.
    destruct (canonical_order _ _ _ _ Hc2 Hc1 Hle) as [Hleb He].
    unfold SFleb, SFcompare in *.
    rewrite (Z.compare_antisym e1 e2) in Hleb.
    destruct (Z.compare_spec e1 e2) as [->|Hlt|Hgt]; cbn [CompOpp] in *; [|lia|reflexivity].
    rewrite Pos.compare_cont_spec in *. cbn [Pos.switch_Eq] in *.
    rewrite (Pos.compare_antisym m1 m2) in Hleb.
    destruct (m1 ?= m2)%positive; cbn in *; congruence.
Qed.

Lemma srounded_le V1 V2 x1 x2 :
  srounded V1 x1 -> srounded V2 x2 -> (V1 < V2)%R -> SFleb x1 x2 = true.
Proof.
  intros [P1 N1] [P2 N2] HV.
  destruct (Rle_lt_dec 0 V1) as [H1|H1].
  - apply (rounded_le V1 V2); [apply P1 | apply P2 |]; lra.
  - destruct (Rle_lt_dec V2 0) as [H2|H2].
    + destruct (N1 ltac:(lra)) as (U1 & Hn1 & R1), (N2 H2) as (U2 & Hn2 & R2).
      apply (rounds_to_le_opp U1 U2); [assumption | assumption |].
      apply (nearest_mono U2 (- V2) U1 (- V1)); try assumption; try lra.
      * now apply rounds_to_on_grid in R2.
      * now apply rounds_to_on_grid in R1.
    + pose proof (rounded_nonneg _ _ (N1 ltac:(lra))) as Hx1.
      pose proof (rounded_nonneg _ _ (P2 ltac:(lra))) as Hx2.
      destruct x1 as [s1|[]| |[] m1 e1], x2 as [s2|[]| |[] m2 e2]; cbn in Hx1, Hx2;
        try contradiction; reflexivity.
Qed.

Lemma srounded_refl V x : srounded V x -> SFleb x x = true.
Proof.
  intros [P N]. destruct (Rle_lt_dec 0 V) as [H|H].
  - exact (rounded_refl _ _ (P H)).
  - destruct (N ltac:(lra)) as (U & _ & R).
    apply (rounds_to_le_opp U U); [assumption | assumption | lra].
Qed.

(** *** Values of binary64 numbers and their order *)

Lemma sf_nonneg_cases x : sf_nonneg x -> x = S754_infinity false \/ sf_fin x.
Proof. destruct x as [s|[]| |[] m e]; cbn; intros H; try contradiction; auto. Qed.

Lemma SFleb_fin_val x x' :
  valid_binary x = true -> valid_binary x' = true -> sf_fin x -> sf_fin x' ->
  SFleb x x' = true -> (sf_val x <= sf_val x')%R.
Proof.
  intros Hv Hv' Hx Hx'.
  destruct x as [s| | |[] m e], x' as [s'| | |[] m' e']; cbn in Hx, Hx'; try contradiction.
  - intros _. cbn. lra.
  - intros _. cbn. apply Rlt_le, F2R_pos.
  - discriminate.
  - now apply SFleb_val.
Qed.

Lemma sf_val_eq_cases x x' :
  valid_binary x = true -> valid_binary x' = true -> sf_fin x -> sf_fin x' ->
  sf_val x = sf_val x' ->
  (exists s s', x = S754_zero s /\ x' = S754_zero s') \/ x = x'.
Proof.
  intros Hv Hv' Hx Hx'.
  destruct x as [s| | |[] m e], x' as [s'| | |[] m' e']; cbn in Hx, Hx'; try contradiction;
    cbn [sf_val]; intros Heq.
  - left. eauto.
  - pose proof (F2R_pos m' e'). lra.
  - pose proof (F2R_pos m e). lra.
  - right. destruct (valid_canonical _ _ _ Hv) as [Hc _], (valid_canonical _ _ _ Hv') as [Hc' _].
    destruct (canonical_inj _ _ _ _ Hc Hc' Heq) as [-> ->]. reflexivity.
Qed.

(** An operation of one finite argument that rounds an increasing function
    of the value of its argument is monotone. *)
Lemma fin_mono (f : spec_float -> spec_float) (g : R -> R) :
  (forall x, valid_binary x = true -> sf_fin x -> rounded (g (sf_val x)) (f x)) ->
  (forall a a', (0 <= a < a')%R -> (g a < g a')%R \/ (g a = 0 /\ g a' = 0)%R) ->
  (forall s s', SFleb (f (S754_zero s)) (f (S754_zero s')) = true) ->
  forall x x', valid_binary x = true -> valid_binary x' = true -> sf_fin x -> sf_fin x' ->
    SFleb x x' = true -> SFleb (f x) (f x') = true.
Proof.
  intros Hf Hg Hz x x' Hv Hv' Hx Hx' Hle.
  pose proof (SFleb_fin_val x x' Hv Hv' Hx Hx' Hle) as Hval.
  pose proof (Hf x Hv Hx) as R. pose proof (Hf x' Hv' Hx') as R'.
  destruct (Rle_lt_or_eq_dec _ _ Hval) as [Hlt|Heq].
  - destruct (Hg (sf_val x) (sf_val x') (conj (sf_val_nonneg x) Hlt)) as [Hs|[H0 H0']].
    + now apply (rounded_le _ _ _ _ R R').
    + rewrite H0 in R. rewrite H0' in R'.
      apply (rounds_to_le 0 0); [now apply rounded_zero | now apply rounded_zero | lra].
  - destruct (sf_val_eq_cases x x' Hv Hv' Hx Hx' Heq) as [(s & s' & -> & ->)|<-].
    + apply Hz.
    + exact (rounded_refl _ _ R).
Qed.

(** The same for an operation whose result may be negative, increasing or
    decreasing. *)
Lemma fin_smono (f : spec_float -> spec_float) (g : R -> R) :
  (forall x, valid_binary x = true -> sf_fin x -> srounded (g (sf_val x)) (f x)) ->
  (forall a a', (0 <= a < a')%R -> (g a < g a')%R) ->
  (forall s s', SFleb (f (S754_zero s)) (f (S754_zero s')) = true) ->
  forall x x', valid_binary x = true -> valid_binary x' = true -> sf_fin x -> sf_fin x' ->
    SFleb x x' = true -> SFleb (f x) (f x') = true.
Proof.
  intros Hf Hg Hz x x' Hv Hv' Hx Hx' Hle.
  pose proof (SFleb_fin_val x x' Hv Hv' Hx Hx' Hle) as Hval.
  pose proof (Hf x Hv Hx) as R. pose proof (Hf x' Hv' Hx') as R'.
  destruct (Rle_lt_or_eq_dec _ _ Hval) as [Hlt|Heq].
  - apply (srounded_le _ _ _ _ R R'). apply Hg. split; [apply sf_val_nonneg | exact Hlt].
  - destruct (sf_val_eq_cases x x' Hv Hv' Hx Hx' Heq) as [(s & s' & -> & ->)|<-].
    + apply Hz.
    + exact (srounded_refl _ _ R).
Qed.

Lemma fin_santi (f : spec_float -> spec_float) (g : R -> R) :
  (forall x, valid_binary x = true -> sf_fin x -> srounded (g (sf_val x)) (f x)) ->
  (forall a a', (0 <= a < a')%R -> (g a' < g a)%R) ->
  (forall s s', SFleb (f (S754_zero s)) (f (S754_zero s')) = true) ->
  forall x x', valid_binary x = true -> valid_binary x' = true -> sf_fin x -> sf_fin x' ->
    SFleb x x' = true -> SFleb (f x') (f x) = true.
Proof.
  intros Hf Hg Hz x x' Hv Hv' Hx Hx' Hle.
  pose proof (SFleb_fin_val x x' Hv Hv' Hx Hx' Hle) as Hval.
  pose proof (Hf x Hv Hx) as R. pose proof (Hf x' Hv' Hx') as R'.
  destruct (Rle_lt_or_eq_dec _ _ Hval) as [Hlt|Heq].
  - apply (srounded_le _ _ _ _ R' R). apply Hg. split; [apply sf_val_nonneg | exact Hlt].
  - destruct (sf_val_eq_cases x x' Hv Hv' Hx Hx' Heq) as [(s & s' & -> & ->)|<-].
    + apply Hz.
    + exact (srounded_refl _ _ R).
Qed.


(** *** The operations are monotone *)

Lemma SFleb_infinity_fin x : sf_fin x -> SFleb (S754_infinity false) x = false.
Proof. destruct x as [s| | |[] m e]; cbn; intros H; try contradiction; reflexivity. Qed.

Lemma srounded_not_nan V x : srounded V x -> x <> S754_nan.
Proof.
  intros [P N] ->. destruct (Rle_lt_dec 0 V) as [H|H].
  - destruct (P H) as (U & _ & R). exact R.
  - destruct (N ltac:(lra)) as (U & _ & R). exact R.
Qed.

Lemma SFleb_infinity x : x <> S754_nan -> SFleb x (S754_infinity false) = true.
Proof. destruct x as [s|[]| |[] m e]; cbn; intros H; try reflexivity; contradiction. Qed.

(** [k * x] grows with [x]; zero times infinity is NaN. *)
Lemma SFmul_mono k x x' :
  valid_binary k = true -> valid_binary x = true -> valid_binary x' = true ->
  sf_fin k -> sf_nonneg x -> sf_nonneg x' -> SFleb x x' = true ->
  SFleb (SF64mul k x) (SF64mul k x') = true
  \/ ((exists s, k = S754_zero s) /\ x' = S754_infinity false).
Proof.
  intros Hvk Hv Hv' Hk Hx Hx' Hle.
  destruct (sf_nonneg_cases x' Hx') as [->|Hf'].
  - destruct k as [sk| | |[] mk ek] eqn:Ek; cbn in Hk; try contradiction.
    + right. eauto.
    + left. change (SF64mul (S754_finite false mk ek) (S754_infinity false))
        with (S754_infinity false).
      apply SFleb_nonneg_infinity. rewrite SFmul_comm.
      now apply SFmul_sign_finpos.
  - destruct (sf_nonneg_cases x Hx) as [->|Hf].
    + now rewrite SFleb_infinity_fin in Hle.
    + left. apply (fin_mono (SF64mul k) (fun a => sf_val k * a)%R); try assumption.
      * intros y Hvy Hy. now apply SFmul_rounded.
      * intros a a' Ha. pose proof (sf_val_nonneg k) as H0.
        destruct (Rle_lt_or_eq_dec _ _ H0) as [Hpos|Hz]; [left; nra | right].
        rewrite <- Hz. lra.
      * intros s s'. destruct k as [sk| | |[] mk ek]; cbn in Hk; try contradiction;
          reflexivity.
Qed.

(** [x / y] grows with [x]. *)
Lemma SFdiv_mono x x' y :
  valid_binary x = true -> valid_binary x' = true -> valid_binary y = true ->
  sf_nonneg x -> sf_nonneg x' -> sf_finpos y -> SFleb x x' = true ->
  SFleb (SF64div x y) (SF64div x' y) = true.
Proof.
  intros Hv Hv' Hvy Hx Hx' Hy Hle.
  assert (Hpos : (0 < sf_val y)%R).
  { destruct y as [s| | |[] m e]; cbn in Hy; try contradiction. apply F2R_pos. }
  destruct (sf_nonneg_cases x' Hx') as [->|Hf'].
  - replace (SF64div (S754_infinity false) y) with (S754_infinity false)
      by (destruct y as [s| | |[] m e]; cbn in Hy; try contradiction; reflexivity).
    apply SFleb_nonneg_infinity. now apply SFdiv_sign.
  - destruct (sf_nonneg_cases x Hx) as [->|Hf].
    + now rewrite SFleb_infinity_fin in Hle.
    + apply (fin_mono (fun x => SF64div x y) (fun a => a / sf_val y)%R); try assumption.
      * intros z Hvz Hz. now apply SFdiv_rounded.
      * intros a a' Ha. left. unfold Rdiv.
        pose proof (Rinv_0_lt_compat _ Hpos). nra.
      * intros s s'. destruct y as [sy| | |[] m e]; cbn in Hy; try contradiction.
        reflexivity.
Qed.

(** [x + y] grows with [x]. *)
Lemma SFadd_mono x x' y :
  valid_binary x = true -> valid_binary x' = true -> valid_binary y = true ->
  sf_nonneg x -> sf_nonneg x' -> sf_nonneg y -> SFleb x x' = true ->
  SFleb (SF64add x y) (SF64add x' y) = true.
Proof.
  intros Hv Hv' Hvy Hx Hx' Hy Hle.
  destruct (sf_nonneg_cases y Hy) as [->|Hfy].
  - destruct x as [s|[]| |[] m e], x' as [s'|[]| |[] m' e']; cbn in Hx, Hx';
      try contradiction; reflexivity.
  - destruct (sf_nonneg_cases x' Hx') as [->|Hf'].
    + replace (SF64add (S754_infinity false) y) with (S754_infinity false)
        by (destruct y as [s| | |[] m e]; cbn in Hfy; try contradiction; reflexivity).
      apply SFleb_nonneg_infinity. now apply SFadd_sign.
    + destruct (sf_nonneg_cases x Hx) as [->|Hf].
      * now rewrite SFleb_infinity_fin in Hle.
      * apply (fin_mono (fun x => SF64add x y) (fun a => a + sf_val y)%R); try assumption.
        -- intros z Hvz Hz. now apply SFadd_rounded.
        -- intros a a' Ha. left. lra.
        -- intros s s'. destruct y as [sy| | |[] m e]; cbn in Hfy; try contradiction.
           ++ destruct s, s', sy; reflexivity.
           ++ apply SFleb_refl_fin.
Qed.

Lemma SFadd_comm x y : SF64add x y = SF64add y x.
Proof.
  destruct x as [sx|sx| |sx mx ex], y as [sy|sy| |sy my ey]; cbn [SF64add SFadd];
    try reflexivity; try (destruct sx, sy; reflexivity).
  rewrite (Z.min_comm ey ex). f_equal. apply Z.add_comm.
Qed.

(** [r - c] falls as [c] grows; infinity minus infinity is NaN. *)
Lemma SFsub_anti r c c' :
  valid_binary r = true -> valid_binary c = true -> valid_binary c' = true ->
  sf_nonneg r -> sf_nonneg c -> sf_nonneg c' -> SFleb c c' = true ->
  SFleb (SF64sub r c') (SF64sub r c) = true
  \/ (r = S754_infinity false /\ c' = S754_infinity false).
Proof.
  intros Hvr Hvc Hvc' Hr Hc Hc' Hle.
  destruct (sf_nonneg_cases r Hr) as [->|Hfr].
  - destruct (sf_nonneg_cases c' Hc') as [->|Hf']; [now right | left].
    destruct (sf_nonneg_cases c Hc) as [->|Hf]; [now rewrite SFleb_infinity_fin in Hle|].
    destruct c as [s| | |[] m e], c' as [s'| | |[] m' e']; cbn in Hf, Hf';
      try contradiction; reflexivity.
  - left. destruct (sf_nonneg_cases c' Hc') as [->|Hf'].
    + replace (SF64sub r (S754_infinity false)) with (S754_infinity true)
        by (destruct r as [s| | |[] m e]; cbn in Hfr; try contradiction; reflexivity).
      apply SFleb_neg_infinity.
      destruct (sf_nonneg_cases c Hc) as [->|Hf].
      * destruct r as [s| | |[] m e]; cbn in Hfr; try contradiction; discriminate.
      * now apply (srounded_not_nan (sf_val r - sf_val c)), SFsub_srounded.
    + destruct (sf_nonneg_cases c Hc) as [->|Hf]; [now rewrite SFleb_infinity_fin in Hle|].
      apply (fin_santi (fun c => SF64sub r c) (fun a => sf_val r - a)%R); try assumption.
      * intros z Hvz Hz. now apply SFsub_srounded.
      * intros a a' Ha. lra.
      * intros s s'. destruct r as [sr| | |[] m e]; cbn in Hfr; try contradiction.
        -- destruct s, s', sr; reflexivity.
        -- apply SFleb_refl_fin.
Qed.

(** [r - c] grows with [r]. *)
Lemma SFsub_mono r r' c :
  valid_binary r = true -> valid_binary r' = true -> valid_binary c = true ->
  sf_nonneg r -> sf_nonneg r' -> sf_nonneg c -> SFleb r r' = true ->
  SFleb (SF64sub r c) (SF64sub r' c) = true
  \/ (r' = S754_infinity false /\ c = S754_infinity false).
Proof.
  intros Hvr Hvr' Hvc Hr Hr' Hc Hle.
  destruct (sf_nonneg_cases c Hc) as [->|Hfc].
  - destruct (sf_nonneg_cases r' Hr') as [->|Hf']; [now right | left].
    destruct (sf_nonneg_cases r Hr) as [->|Hf]; [now rewrite SFleb_infinity_fin in Hle|].
    destruct r as [s| | |[] m e], r' as [s'| | |[] m' e']; cbn in Hf, Hf';
      try contradiction; reflexivity.
  - left. destruct (sf_nonneg_cases r' Hr') as [->|Hf'].
    + replace (SF64sub (S754_infinity false) c) with (S754_infinity false)
        by (destruct c as [s| | |[] m e]; cbn in Hfc; try contradiction; reflexivity).
      apply SFleb_infinity.
      destruct (sf_nonneg_cases r Hr) as [->|Hf].
      * destruct c as [s| | |[] m e]; cbn in Hfc; try contradiction; discriminate.
      * now apply (srounded_not_nan (sf_val r - sf_val c)), SFsub_srounded.
    + destruct (sf_nonneg_cases r Hr) as [->|Hf]; [now rewrite SFleb_infinity_fin in Hle|].
      apply (fin_smono (fun r => SF64sub r c) (fun a => a - sf_val c)%R); try assumption.
      * intros z Hvz Hz. now apply SFsub_srounded.
      * intros a a' Ha. lra.
      * intros s s'. destruct c as [sc| | |[] m e]; cbn in Hfc; try contradiction.
        -- destruct s, s', sc; reflexivity.
        -- apply SFleb_refl_fin.
Qed.


(** The same for an operation of one finite argument above zero that
    rounds a decreasing function of it. *)
Lemma finpos_anti (f : spec_float -> spec_float) (g : R -> R) :
  (forall x, valid_binary x = true -> sf_finpos x -> rounded (g (sf_val x)) (f x)) ->
  (forall a a', (0 < a < a')%R -> (g a' < g a)%R \/ (g a = 0 /\ g a' = 0)%R) ->
  forall x x', valid_binary x = true -> valid_binary x' = true ->
    sf_finpos x -> sf_finpos x' ->
    SFleb x x' = true -> SFleb (f x') (f x) = true.
Proof.
  intros Hf Hg x x' Hv Hv' Hx Hx' Hle.
  assert (Hfin : forall z, sf_finpos z -> sf_fin z /\ (0 < sf_val z)%R).
  { intros [s|[]| |[] m e]; cbn; try tauto. intros _. split; [exact I | apply F2R_pos]. }
  destruct (Hfin x Hx) as [Hfx Hpx], (Hfin x' Hx') as [Hfx' Hpx'].
  pose proof (SFleb_fin_val x x' Hv Hv' Hfx Hfx' Hle) as Hval.
  pose proof (Hf x Hv Hx) as R. pose proof (Hf x' Hv' Hx') as R'.
  destruct (Rle_lt_or_eq_dec _ _ Hval) as [Hlt|Heq].
  - destruct (Hg (sf_val x) (sf_val x') (conj Hpx Hlt)) as [Hs|[H0 H0']].
    + now apply (rounded_le _ _ _ _ R' R).
    + rewrite H0 in R. rewrite H0' in R'.
      apply (rounds_to_le 0 0); [now apply rounded_zero | now apply rounded_zero | lra].
  - destruct (sf_val_eq_cases x x' Hv Hv' Hfx Hfx' Heq) as [(s & s' & -> & ->)|<-].
    + cbn in Hx. contradiction.
    + exact (rounded_refl _ _ R).
Qed.

(** [x / y] falls as [y] grows. *)
Lemma SFdiv_anti x y y' :
  valid_binary x = true -> valid_binary y = true -> valid_binary y' = true ->
  sf_nonneg x -> sf_finpos y -> sf_finpos y' -> SFleb y y' = true ->
  SFleb (SF64div x y') (SF64div x y) = true.
Proof.
  intros Hv Hvy Hvy' Hx Hy Hy' Hle.
  destruct (sf_nonneg_cases x Hx) as [->|Hf].
  - destruct y as [s| | |[] m e], y' as [s'| | |[] m' e']; cbn in Hy, Hy';
      try contradiction; reflexivity.
  - apply (finpos_anti (fun y => SF64div x y) (fun a => sf_val x / a)%R); try assumption.
    + intros z Hvz Hz. now apply SFdiv_rounded.
    + intros a a' [Ha Haa']. pose proof (sf_val_nonneg x) as H0.
      destruct (Rle_lt_or_eq_dec _ _ H0) as [Hpos|Hz].
      * left. unfold Rdiv. apply Rmult_lt_compat_l; [exact Hpos|].
        apply Rinv_lt_contravar; [nra | exact Haa'].
      * right. rewrite <- Hz. unfold Rdiv. lra.
Qed.

Lemma SFleb_trans x y z :
  valid_binary x = true -> valid_binary y = true -> valid_binary z = true ->
  sf_nonneg x -> sf_nonneg y -> sf_nonneg z ->
  SFleb x y = true -> SFleb y z = true -> SFleb x z = true.
Proof.
  intros Hvx Hvy Hvz Hx Hy Hz Hxy Hyz.
  destruct (sf_nonneg_cases z Hz) as [->|Hfz]; [now apply SFleb_nonneg_infinity|].
  destruct (sf_nonneg_cases y Hy) as [->|Hfy]; [now rewrite SFleb_infinity_fin in Hyz|].
  destruct (sf_nonneg_cases x Hx) as [->|Hfx]; [now rewrite SFleb_infinity_fin in Hxy|].
  apply (rounds_to_le (sf_val x) (sf_val z)); try now apply valid_rounds_to.
  pose proof (SFleb_fin_val x y Hvx Hvy Hfx Hfy Hxy).
  pose proof (SFleb_fin_val y z Hvy Hvz Hfy Hfz Hyz). lra.
Qed.

(** *** Primitive floats *)

#[local] Open Scope float_scope.

Lemma leb_not_nan x y : (x <=? y) = true -> is_nan x = false /\ is_nan y = false.
Proof.
  rewrite leb_spec. intros H.
  split; apply not_true_is_false; intros Hn; apply is_nan_sf in Hn; rewrite Hn in H;
    [|destruct (Prim2SF x)]; discriminate.
Qed.

Lemma infinity_sf x : Prim2SF x = S754_infinity false -> x = infinity.
Proof. intros H. apply Prim2SF_inj. now rewrite H. Qed.

Lemma leb_trans x y z :
  nonneg x = true -> nonneg y = true -> nonneg z = true ->
  (x <=? y) = true -> (y <=? z) = true -> (x <=? z) = true.
Proof.
  intros Hx Hy Hz. apply nonneg_sf in Hx, Hy, Hz. rewrite !leb_spec.
  apply SFleb_trans; auto using Prim2SF_valid.
Qed.

(** A quotient by a finite number above zero grows with the dividend. *)
Lemma div_mono x x' y :
  nonneg x = true -> nonneg x' = true -> finpos y = true -> (x <=? x') = true ->
  (x / y <=? x' / y) = true.
Proof.
  intros Hx Hx' Hy. apply nonneg_sf in Hx, Hx'. apply finpos_sf in Hy.
  rewrite !leb_spec, !div_spec. apply SFdiv_mono; auto using Prim2SF_valid.
Qed.

(** A product by a finite number above zero grows with the other factor. *)
Lemma mul_mono_finpos x x' y :
  nonneg x = true -> nonneg x' = true -> finpos y = true -> (x <=? x') = true ->
  (x * y <=? x' * y) = true.
Proof.
  intros Hx Hx' Hy Hle. apply nonneg_sf in Hx, Hx'. apply finpos_sf in Hy.
  rewrite (mul_comm x y), (mul_comm x' y). rewrite leb_spec in *. rewrite !mul_spec.
  destruct (SFmul_mono (Prim2SF y) (Prim2SF x) (Prim2SF x')) as [H|[[s Hs] _]];
    auto using Prim2SF_valid.
  - destruct (Prim2SF y) as [sy| | |[] m e]; cbn in Hy |- *; try contradiction; exact I.
  - rewrite Hs in Hy. contradiction.
Qed.

(** A product of finite numbers grows with each factor. *)
Lemma mul_mono k x x' :
  fin_nonneg k = true -> fin_nonneg x = true -> fin_nonneg x' = true ->
  (x <=? x') = true -> (k * x <=? k * x') = true.
Proof.
  intros Hk Hx Hx' Hle. apply fin_nonneg_sf in Hk, Hx, Hx'.
  rewrite leb_spec in *. rewrite !mul_spec.
  assert (Hn : forall z, sf_fin z -> sf_nonneg z)
    by (intros [s|[]| |[] m e]; cbn; tauto).
  destruct (SFmul_mono (Prim2SF k) (Prim2SF x) (Prim2SF x') (Prim2SF_valid k)
              (Prim2SF_valid x) (Prim2SF_valid x') Hk (Hn _ Hx) (Hn _ Hx') Hle)
    as [H|[_ Hinf]]; [exact H|].
  rewrite Hinf in Hx'. contradiction.
Qed.

(** The cost of a mass at a price per kg, as the sum counts it, grows with
    the price: a mass of zero at an infinite price is NaN, which counts as
    zero. *)
Lemma mul_mono_fill k x x' :
  fin_nonneg k = true -> nonneg x = true -> nonneg x' = true -> (x <=? x') = true ->
  (Np.fillna0 (k * x) <=? Np.fillna0 (k * x')) = true.
Proof.
  intros Hk Hx Hx' Hle. apply fin_nonneg_sf in Hk. apply nonneg_sf in Hx, Hx'.
  rewrite leb_spec in Hle.
  destruct (SFmul_mono (Prim2SF k) (Prim2SF x) (Prim2SF x')) as [H|[[s Hs] Hinf]];
    auto using Prim2SF_valid.
  - rewrite <- !mul_spec, <- leb_spec in H.
    destruct (leb_not_nan _ _ H) as [Hn Hn'].
    unfold Np.fillna0, Np.isna. now rewrite Hn, Hn'.
  - assert (Hnan' : is_nan (k * x') = true)
      by (apply is_nan_sf; rewrite mul_spec, Hs, Hinf; reflexivity).
    unfold Np.fillna0, Np.isna. rewrite Hnan'.
    destruct (is_nan (k * x)) eqn:Hnan; [reflexivity|].
    rewrite leb_spec. change (Prim2SF 0) with (S754_zero false).
    assert (Hsf := mul_spec k x). rewrite Hs in Hsf.
    assert (Hnn : Prim2SF (k * x) <> S754_nan)
      by (intros Hc; apply is_nan_sf in Hc; congruence).
    destruct (Prim2SF x) as [sx|[]| |[] m e]; cbn in Hx, Hsf; try contradiction.
    + rewrite Hsf. reflexivity.
    + rewrite Hsf. reflexivity.
Qed.


(** A sum of numbers that are not negative grows with each term. *)
Lemma add_mono x x' y y' :
  nonneg x = true -> nonneg x' = true -> nonneg y = true -> nonneg y' = true ->
  (x <=? x') = true -> (y <=? y') = true -> (x + y <=? x' + y') = true.
Proof.
  intros Hx Hx' Hy Hy' Hxx Hyy.
  apply (leb_trans _ (x' + y)); try now apply add_nonneg.
  - apply nonneg_sf in Hx, Hx', Hy. rewrite leb_spec in *. rewrite !add_spec.
    apply SFadd_mono; auto using Prim2SF_valid.
  - apply nonneg_sf in Hx', Hy, Hy'. rewrite leb_spec in *. rewrite !add_spec.
    rewrite (SFadd_comm (Prim2SF x') (Prim2SF y)), (SFadd_comm (Prim2SF x') (Prim2SF y')).
    apply SFadd_mono; auto using Prim2SF_valid.
Qed.

(** What is left of [r] falls as the amount taken away grows; infinity
    minus infinity is NaN. *)
Lemma sub_anti r c c' :
  nonneg r = true -> nonneg c = true -> nonneg c' = true -> (c <=? c') = true ->
  (r - c' <=? r - c) = true \/ (r = infinity /\ c' = infinity).
Proof.
  intros Hr Hc Hc' Hle. apply nonneg_sf in Hr, Hc, Hc'. rewrite leb_spec in *.
  rewrite !sub_spec.
  destruct (SFsub_anti (Prim2SF r) (Prim2SF c) (Prim2SF c')) as [H|[H1 H2]];
    auto using Prim2SF_valid.
  right. split; now apply infinity_sf.
Qed.

(** What is left grows with [r]. *)
Lemma sub_mono r r' c :
  nonneg r = true -> nonneg r' = true -> nonneg c = true -> (r <=? r') = true ->
  (r - c <=? r' - c) = true \/ (r' = infinity /\ c = infinity).
Proof.
  intros Hr Hr' Hc Hle. apply nonneg_sf in Hr, Hr', Hc. rewrite leb_spec in *.
  rewrite !sub_spec.
  destruct (SFsub_mono (Prim2SF r) (Prim2SF r') (Prim2SF c)) as [H|[H1 H2]];
    auto using Prim2SF_valid.
  right. split; now apply infinity_sf.
Qed.

Lemma leb_refl x : is_nan x = false -> (x <=? x) = true.
Proof.
  intros Hn. rewrite leb_spec.
  assert (Prim2SF x <> S754_nan) by (intros Hc; apply is_nan_sf in Hc; congruence).
  destruct (Prim2SF x) as [s|[]| |s m e]; try reflexivity; [contradiction|].
  apply SFleb_refl_fin.
Qed.

Lemma nonneg_not_nan x : nonneg x = true -> is_nan x = false.
Proof. intros H. unfold nonneg in H. now apply leb_not_nan in H. Qed.


Lemma nonneg_cases x : nonneg x = true -> x = infinity \/ fin_nonneg x = true.
Proof.
  intros H. apply nonneg_sf in H.
  destruct (sf_nonneg_cases _ H) as [Hi|Hf]; [left; now apply infinity_sf | right].
  now apply fin_nonneg_sf.
Qed.

(** A quotient by a finite number above zero falls as the divisor grows. *)
Lemma div_anti x y y' :
  nonneg x = true -> finpos y = true -> finpos y' = true -> (y <=? y') = true ->
  (x / y' <=? x / y) = true.
Proof.
  intros Hx Hy Hy'. apply nonneg_sf in Hx. apply finpos_sf in Hy, Hy'.
  rewrite !leb_spec, !div_spec. apply SFdiv_anti; auto using Prim2SF_valid.
Qed.

(** The cost of a mass at a price per kg, as the sum counts it, grows with
    the mass. *)
Lemma mul_mono_fill_l k k' x :
  fin_nonneg k = true -> fin_nonneg k' = true -> nonneg x = true -> (k <=? k') = true ->
  (Np.fillna0 (k * x) <=? Np.fillna0 (k' * x)) = true.
Proof.
  intros Hk Hk' Hx Hle. destruct (nonneg_cases x Hx) as [->|Hf].
  - apply fin_nonneg_sf in Hk, Hk'. rewrite leb_spec in Hle.
    assert (Hz : forall y s, Prim2SF y = S754_zero s -> Np.fillna0 (y * infinity) = 0).
    { intros y s Hs. unfold Np.fillna0, Np.isna.
      replace (is_nan (y * infinity)) with true; [reflexivity|].
      symmetry. apply is_nan_sf. rewrite mul_spec, Hs. reflexivity. }
    assert (Hp : forall y m e, Prim2SF y = S754_finite false m e ->
                               Np.fillna0 (y * infinity) = infinity).
    { intros y m e Hs.
      assert (y * infinity = infinity) as ->
          by (apply Prim2SF_inj; rewrite mul_spec, Hs; reflexivity).
      reflexivity. }
    destruct (Prim2SF k) as [s| | |[] m e] eqn:Ek, (Prim2SF k') as [s'| | |[] m' e'] eqn:Ek';
      cbn in Hk, Hk'; try contradiction.
    + rewrite (Hz k s Ek), (Hz k' s' Ek'). reflexivity.
    + rewrite (Hz k s Ek), (Hp k' m' e' Ek'). reflexivity.
    + discriminate.
    + rewrite (Hp k m e Ek), (Hp k' m' e' Ek'). reflexivity.
  - assert (H : (k * x <=? k' * x) = true)
      by (rewrite (mul_comm k x), (mul_comm k' x); now apply mul_mono).
    destruct (leb_not_nan _ _ H) as [Hn Hn'].
    unfold Np.fillna0, Np.isna. now rewrite Hn, Hn'.
Qed.

End B64RoundFacts.


(* ===================================================================== *)
(** ** Dividing by 100 and multiplying by 100 *)
(* ===================================================================== *)

Module B64Hundred.

Import B64 B64Facts B64Round B64RoundFacts.

#[local] Open Scope Z_scope.

#[local] Abbreviation fexp := (SpecFloat.fexp prec emax).

(** The number of binary digits of a positive is fixed by its bounds. *)
Lemma digits2_pos_unique p d :
  2 ^ (d - 1) <= Zpos p < 2 ^ d -> Zpos (digits2_pos p) = d.
Proof.
  intros [Hlo Hhi]. destruct (digits2_pos_bounds p) as [Blo Bhi].
  assert (H1 : d - 1 < Zpos (digits2_pos p)).
  { apply (Z.pow_lt_mono_r_iff 2); lia. }
  assert (H2 : Zpos (digits2_pos p) - 1 < d).
  { destruct (Z_lt_le_dec d 0) as [Hneg|Hpos].
    - rewrite (Z.pow_neg_r 2 d) in Hhi by lia. lia.
    - apply (Z.pow_lt_mono_r_iff 2); lia. }
  lia.
Qed.

(** An integer of at most 53 bits, at an exponent that binary64 has, is on
    the grid. *)
Lemma on_grid_int n e : 0 <= n <= 2 ^ 53 -> -1074 <= e -> on_grid (F2R n e).
Proof.
  intros [Hn0 Hn] He.
  destruct n as [|p|p]; [left; unfold F2R; lra| |lia].
  right. destruct (Z.eq_dec (Zpos p) (2 ^ 53)) as [Heq|Hne].
  { exists (2 ^ 52)%positive, (e + 1). split.
    - unfold canonical. change (Zpos (digits2_pos (2 ^ 52))) with 53.
      rewrite fexp_eq. lia.
    - rewrite Heq. rewrite (F2R_shift (Zpos (2 ^ 52)) (e + 1) e) by lia.
      f_equal. replace (e + 1 - e) with 1 by lia. reflexivity. }
  set (d := Zpos (digits2_pos p)).
  assert (Hd : 1 <= d <= 53).
  { destruct (digits2_pos_bounds p) as [Blo Bhi]. fold d in Blo, Bhi. split; [lia|].
    destruct (Z_le_gt_dec d 53) as [|Hgt]; [assumption|].
    assert (2 ^ 53 <= 2 ^ (d - 1)) by (apply Z.pow_le_mono_r; lia). lia. }
  set (c := fexp (d + e)).
  assert (Hc : c <= e /\ -1074 <= c) by (unfold c; rewrite fexp_eq; lia).
  assert (Hpos : 0 < Zpos p * 2 ^ (e - c)) by (apply Z.mul_pos_pos; [lia|apply Z.pow_pos_nonneg; lia]).
  destruct (Zpos p * 2 ^ (e - c)) as [|m|m] eqn:Hm; try lia.
  exists m, c. split.
  - unfold canonical.
    assert (Hdm : Zpos (digits2_pos m) = d + (e - c)).
    { apply digits2_pos_unique. rewrite <- Hm.
      destruct (digits2_pos_bounds p) as [Blo Bhi]. fold d in Blo, Bhi.
      replace (d + (e - c) - 1) with (d - 1 + (e - c)) by lia.
      rewrite !Z.pow_add_r by lia.
      assert (0 < 2 ^ (e - c)) by (apply Z.pow_pos_nonneg; lia). nia. }
    rewrite Hdm. replace (d + (e - c) + c) with (d + e) by lia. reflexivity.
  - rewrite <- Hm. now apply F2R_shift.
Qed.

(** A point that rounds to nearest lies within half the distance of two
    points of the grid around it. *)
Lemma nearest_half U V K1 K2 :
  nearest U V -> on_grid K1 -> on_grid K2 -> (K1 <= V <= K2)%R ->
  (V - (K2 - K1) / 2 <= U <= V + (K2 - K1) / 2)%R.
Proof.
  intros HU G1 G2 [H1 H2].
  pose proof (nearest_below U V K2 HU G2 H2) as Hb.
  pose proof (nearest_above U V K1 HU G1 H1) as Ha.
  destruct (HU K1 G1) as [Hlo _]. destruct (HU K2 G2) as [_ Hhi].
  clear HU G1 G2. split.
  - destruct (Rle_lt_or_eq_dec _ _ Hb) as [Hlt|Heq].
    + specialize (Hhi Hlt). clear Hlo. lra.
    + clear Hlo Hhi. lra.
  - destruct (Rle_lt_or_eq_dec _ _ Ha) as [Hlt|Heq].
    + specialize (Hlo Hlt). clear Hhi. lra.
    + clear Hlo Hhi. lra.
Qed.

(** A grid point below [2^1024] is the value of the number it stands
    for. *)
Lemma rounds_to_val U x :
  rounds_to U x -> (U < bpow 1024)%R -> sf_fin x /\ sf_val x = U.
Proof.
  destruct x as [s|s| |s m e]; cbn [rounds_to sf_fin sf_val].
  - intros -> _. now split.
  - intros (-> & m & e & Hc & He & ->) Hlt. exfalso.
    pose proof (F2R_mag m e) as [Hlo _].
    unfold canonical in Hc. rewrite fexp_eq in Hc.
    assert (1024 <= Zpos (digits2_pos m) + e - 1) by lia.
    pose proof (bpow_le _ _ H). lra.
  - intros [].
  - intros (-> & _ & _ & ->) _. now split.
Qed.

(** Two numbers that stand for the same grid point above zero are the
    same. *)
Lemma rounds_to_inj U x y : rounds_to U x -> rounds_to U y -> (0 < U)%R -> x = y.
Proof.
  destruct x as [s|s| |s m e], y as [s'|s'| |s' m' e']; cbn [rounds_to]; try tauto;
    try (intros -> ; intros; lra); try (intros ? -> ; intros; lra).
  - intros (-> & _) (-> & _) _. reflexivity.
  - intros (-> & m & e & Hc & He & ->) (-> & Hc' & He' & Heq) _.
    destruct (canonical_inj _ _ _ _ Hc Hc' Heq). lia.
  - intros (-> & Hc & He & ->) (-> & m' & e' & Hc' & He' & Heq) _.
    destruct (canonical_inj _ _ _ _ Hc Hc' Heq). lia.
  - intros (-> & Hc & He & ->) (-> & Hc' & He' & Heq) _.
    destruct (canonical_inj _ _ _ _ Hc Hc' Heq) as [-> ->]. reflexivity.
Qed.

(** A real on the grid rounds to itself. *)
Lemma rounded_on_grid V x : rounded V x -> on_grid V -> rounds_to V x.
Proof.
  intros (U & HU & Hx) HV.
  assert (U = V) as ->; [|exact Hx].
  apply Rle_antisym;
    [apply (nearest_below U V V) | apply (nearest_above U V V)]; auto; lra.
Qed.

Lemma hundred_sf : Prim2SF 100 = S754_finite false 7036874417766400 (-46).
Proof. reflexivity. Qed.

Lemma hundred_val : sf_val (Prim2SF 100) = 100%R.
Proof.
  rewrite hundred_sf. cbn [sf_val].
  rewrite (F2R_shift _ (-46) (-48)) by lia.
  change (7036874417766400 * 2 ^ (-46 - -48)) with (100 * 2 ^ 48).
  unfold F2R. rewrite mult_IZR, <- bpow_IZR by lia.
  rewrite Rmult_assoc, <- bpow_add. change (48 + -48) with 0. rewrite bpow_0. lra.
Qed.

Lemma bpow_m6 : bpow (-6) = (/ 64)%R.
Proof.
  apply (Rmult_eq_reg_l (bpow 6)); [|pose proof (bpow_gt0 6); lra].
  rewrite <- bpow_add. change (6 + -6) with 0. rewrite bpow_0.
  rewrite (bpow_IZR 6) by lia. change (2 ^ 6) with 64. lra.
Qed.

(** [p / 100 * 100] is within one unit in the last place of [p], for
    [p = m * 2^e] between [2^-1016] and [2^1023]. *)
Lemma div_mul_100_near p m e :
  Prim2SF p = S754_finite false m e -> -1068 <= e <= 970 ->
  exists m' e',
    Prim2SF (p / 100 * 100)%float = S754_finite false m' e'
    /\ (Rabs (F2R (Zpos m') e' - F2R (Zpos m) e) <= bpow e)%R.
Proof.
  intros Hp He.
  pose proof (Prim2SF_valid p) as Hv. rewrite Hp in Hv.
  destruct (valid_canonical _ _ _ Hv) as [Hc _].
  assert (Hm : 2 ^ 52 <= Zpos m < 2 ^ 53).
  { unfold canonical in Hc. rewrite fexp_eq in Hc.
    destruct (digits2_pos_bounds m) as [Blo Bhi].
    assert (Hd : Zpos (digits2_pos m) = 53) by lia.
    rewrite Hd in Blo, Bhi. exact (conj Blo Bhi). }
  pose proof (Prim2SF_valid 100) as Hvh. rewrite hundred_sf in Hvh.
  set (P := F2R (Zpos m) e). set (B := bpow e).
  assert (HB : (0 < B)%R) by apply bpow_gt0.
  assert (HP : (bpow 52 * B <= P < bpow 53 * B)%R).
  { unfold P, F2R. fold B. rewrite !bpow_IZR by lia.
    destruct Hm as [Hlo Hhi]. apply IZR_le in Hlo. apply IZR_lt in Hhi.
    split; [apply Rmult_le_compat_r | apply Rmult_lt_compat_r]; lra. }
  assert (H52 : (2 <= bpow 52)%R) by (rewrite <- bpow_1; apply bpow_le; lia).
  assert (Htop : (2 * P < bpow 1024)%R).
  { replace 1024 with (1 + 1023) by lia. rewrite bpow_add, bpow_1.
    assert ((bpow 53 * B <= bpow 1023)%R).
    { unfold B. rewrite <- bpow_add. apply bpow_le. lia. }
    lra. }
  (* the quotient *)
  assert (Hq : rounded (P / 100) (Prim2SF (p / 100)%float)).
  { rewrite div_spec, Hp, hundred_sf.
    change P with (sf_val (S754_finite false m e)).
    rewrite <- hundred_val, hundred_sf.
    apply SFdiv_rounded; try assumption; exact I. }
  destruct Hq as (U1 & N1 & R1).
  set (k := 64 * Zpos m / 100).
  assert (Hk : 100 * k <= 64 * Zpos m < 100 * (k + 1)).
  { unfold k. split; [apply Z.mul_div_le; lia | apply Z.mul_succ_div_gt; lia]. }
  assert (G1 : on_grid (F2R k (e - 6))) by (apply on_grid_int; lia).
  assert (G2 : on_grid (F2R (k + 1) (e - 6))) by (apply on_grid_int; lia).
  assert (HK : (F2R k (e - 6) = IZR k * B / 64
                /\ F2R (k + 1) (e - 6) = (IZR k + 1) * B / 64)%R).
  { unfold F2R. replace (e - 6) with (e + -6) by lia.
    rewrite bpow_add, bpow_m6, plus_IZR. fold B. split; lra. }
  destruct HK as [HK1 HK2].
  assert (HkR : (100 * IZR k <= 64 * IZR (Zpos m) < 100 * (IZR k + 1))%R).
  { destruct Hk as [Hlo Hhi]. apply IZR_le in Hlo. apply IZR_lt in Hhi.
    rewrite !mult_IZR in Hlo, Hhi. rewrite plus_IZR in Hhi. lra. }
  assert (HPm : P = (IZR (Zpos m) * B)%R) by reflexivity.
  assert (HV : (F2R k (e - 6) <= P / 100 <= F2R (k + 1) (e - 6))%R).
  { rewrite HK1, HK2, HPm. clear - HkR HB. nra. }
  pose proof (nearest_half U1 (P / 100) _ _ N1 G1 G2 HV) as Herr.
  rewrite HK1, HK2 in Herr.
  assert (Hmul : (P - B <= U1 * 100 <= P + B)%R) by (clear - Herr HB; lra).
  assert (HPB : (B <= P)%R) by (clear - HP H52 HB; nra).
  destruct (rounds_to_val U1 _ R1) as [Fq Vq]; [clear - Herr HB HPB Htop HP; lra|].
  (* the product *)
  assert (Hr : rounded (U1 * 100) (Prim2SF (p / 100 * 100)%float)).
  { rewrite mul_spec, hundred_sf. rewrite <- Vq, <- hundred_val, hundred_sf.
    apply SFmul_rounded; try assumption; try exact I. apply Prim2SF_valid. }
  destruct Hr as (U2 & N2 & R2).
  assert (G3 : on_grid (F2R (Zpos m - 1) e)) by (apply on_grid_int; lia).
  assert (G4 : on_grid (F2R (Zpos m + 1) e)) by (apply on_grid_int; lia).
  assert (HG : (F2R (Zpos m - 1) e = P - B /\ F2R (Zpos m + 1) e = P + B)%R).
  { unfold F2R. rewrite minus_IZR, plus_IZR. fold B. rewrite HPm. split; lra. }
  destruct HG as [HG3 HG4].
  pose proof (nearest_above U2 _ _ N2 G3 ltac:(rewrite HG3; tauto)) as Hlo.
  pose proof (nearest_below U2 _ _ N2 G4 ltac:(rewrite HG4; tauto)) as Hhi.
  rewrite HG3 in Hlo. rewrite HG4 in Hhi.
  destruct (rounds_to_val U2 _ R2) as [Fr Vr]; [clear - Hhi HPB Htop; lra|].
  destruct (Prim2SF (p / 100 * 100)%float) as [s|s| |[] m' e']; try contradiction.
  - exfalso. cbn [sf_val] in Vr. clear - Vr Hlo HP H52 HB. nra.
  - exists m', e'. split; [reflexivity|]. cbn [sf_val] in Vr. rewrite Vr.
    fold P. apply Rabs_le. clear - Hlo Hhi. lra.
Qed.

(** [p / 100 * 100] is [p] when [p] is 100 times a binary64 number. *)
Lemma div_mul_100_exact p k :
  finpos p = true -> fin_nonneg k = true ->
  (sf_val (Prim2SF k) * 100 = sf_val (Prim2SF p))%R ->
  (p / 100 * 100)%float = p.
Proof.
  intros Hp Hk Heq. apply finpos_sf in Hp. apply fin_nonneg_sf in Hk.
  pose proof (Prim2SF_valid p) as Hvp. pose proof (Prim2SF_valid k) as Hvk.
  pose proof (Prim2SF_valid 100) as Hvh.
  assert (Hpos : (0 < sf_val (Prim2SF p))%R).
  { destruct (Prim2SF p) as [s|s| |[] m e]; try contradiction.
    cbn [sf_val]. apply F2R_pos. }
  assert (Hfp : sf_fin (Prim2SF p)).
  { destruct (Prim2SF p) as [s|s| |[] m e]; try contradiction. exact I. }
  assert (Hq : Prim2SF (p / 100)%float = Prim2SF k).
  { apply (rounds_to_inj (sf_val (Prim2SF k))).
    - apply rounded_on_grid.
      + replace (sf_val (Prim2SF k)) with (sf_val (Prim2SF p) / sf_val (Prim2SF 100))%R
          by (rewrite hundred_val, <- Heq; field).
        rewrite div_spec. apply SFdiv_rounded; try assumption.
        rewrite hundred_sf. exact I.
      + now apply (rounds_to_on_grid _ (Prim2SF k)), valid_rounds_to.
    - now apply valid_rounds_to.
    - lra. }
  apply Prim2SF_inj. apply (rounds_to_inj (sf_val (Prim2SF p))).
  - apply rounded_on_grid.
    + rewrite <- Heq, <- hundred_val. rewrite mul_spec, Hq.
      apply SFmul_rounded; try assumption. rewrite hundred_sf. exact I.
    + now apply (rounds_to_on_grid _ (Prim2SF p)), valid_rounds_to.
  - now apply valid_rounds_to.
  - exact Hpos.
Qed.

End B64Hundred.

(* ===================================================================== *)
(** ** Sums of numbers that are not negative *)
(* ===================================================================== *)

Section Sums.

Import B64 B64Facts.

#[local] Abbreviation all_nonneg := (Forall (fun x : float => nonneg x = true)).

Lemma sum_loop_nonneg a : forall res,
  nonneg res = true -> all_nonneg a -> nonneg (Np.sum_loop res a) = true.
Proof.
  unfold Np.sum_loop. induction a as [|x a IH]; intros res Hres Ha; [exact Hres|].
  apply Forall_cons in Ha as [Hx Ha]. cbn [fold_left].
  apply IH; [now apply add_nonneg | exact Ha].
Qed.

Lemma zip_with_add_nonneg r : forall a,
  all_nonneg r -> all_nonneg a -> all_nonneg (zip_with add r a).
Proof.
  induction r as [|x r IH]; intros [|y a] Hr Ha; cbn; try constructor.
  - apply Forall_cons in Hr as [Hx _], Ha as [Hy _]. now apply add_nonneg.
  - apply Forall_cons in Hr as [_ Hr], Ha as [_ Ha]. now apply IH.
Qed.

Lemma unrolled_nonneg blocks : forall r a,
  all_nonneg r -> all_nonneg a ->
  all_nonneg (fst (Np.unrolled blocks r a)) /\ all_nonneg (snd (Np.unrolled blocks r a)).
Proof.
  induction blocks as [|b IH]; intros r a Hr Ha; cbn [Np.unrolled]; [now split|].
  apply IH.
  - apply zip_with_add_nonneg; [exact Hr | now apply Forall_take].
  - now apply Forall_drop.
Qed.

Lemma acc8_nonneg r j : all_nonneg r -> nonneg (Np.acc8 r j) = true.
Proof.
  unfold Np.acc8. intros Hr. revert j.
  induction Hr as [|x r Hx Hr IH]; intros [|j]; cbn; auto.
Qed.

Lemma tree8_nonneg r : all_nonneg r -> nonneg (Np.tree8 r) = true.
Proof.
  intros Hr. unfold Np.tree8. repeat apply add_nonneg; now apply acc8_nonneg.
Qed.

Lemma block_sum_nonneg a : all_nonneg a -> nonneg (Np.block_sum a) = true.
Proof.
  intros Ha. unfold Np.block_sum.
  pose proof (unrolled_nonneg (length a / 8 - 1) (take 8 a) (drop 8 a)
                (Forall_take _ _ _ Ha) (Forall_drop _ _ _ Ha)) as [Hr Hrest].
  destruct (Np.unrolled _ _ _) as [r rest]. cbn [fst snd] in *.
  apply sum_loop_nonneg; [now apply tree8_nonneg | exact Hrest].
Qed.

Lemma pairwise_sum_nonneg fuel : forall a,
  all_nonneg a -> nonneg (Np.pairwise_sum fuel a) = true.
Proof.
  induction fuel as [|f IH]; intros a Ha; cbn [Np.pairwise_sum];
    destruct (length a <? 8)%nat; try (now apply sum_loop_nonneg);
    destruct (length a <=? Np.PW_BLOCKSIZE)%nat; try (now apply block_sum_nonneg).
  apply add_nonneg; apply IH; [now apply Forall_take | now apply Forall_drop].
Qed.

Lemma sum_nonneg a : all_nonneg a -> nonneg (Np.sum a) = true.
Proof.
  intros Ha. unfold Np.sum.
  apply add_nonneg; [reflexivity | now apply pairwise_sum_nonneg].
Qed.

Lemma fillna0_nonneg x :
  nonneg x = true \/ is_nan x = true -> nonneg (Np.fillna0 x) = true.
Proof.
  unfold Np.fillna0, Np.isna. intros [H|H].
  - destruct (is_nan x); [reflexivity | exact H].
  - now rewrite H.
Qed.

(** A Series of costs, each a number that is not negative or a NaN, sums
    to a number that is not negative. *)
Lemma Series_sum_nonneg s :
  Forall (fun x => nonneg x = true \/ is_nan x = true) s ->
  nonneg (Np.Series_sum s) = true.
Proof.
  intros Hs. unfold Np.Series_sum. apply sum_nonneg, Forall_fmap.
  eapply Forall_impl; [exact Hs|]. intros x Hx. now apply fillna0_nonneg.
Qed.

End Sums.

(** [length a] steps of fuel are enough: more fuel changes nothing. *)
Lemma pairwise_sum_fuel f1 : forall f2 (a : list float),
  (length a <= f1)%nat -> (length a <= f2)%nat ->
  Np.pairwise_sum f1 a = Np.pairwise_sum f2 a.
Proof.
  induction f1 as [|f IH]; intros f2 a H1 H2.
  - destruct a; [|cbn in H1; lia]. destruct f2; reflexivity.
  - cbn [Np.pairwise_sum].
    destruct (Nat.ltb_spec (length a) 8) as [Hlt|Hge].
    { destruct f2; cbn [Np.pairwise_sum];
        destruct (Nat.ltb_spec (length a) 8); try lia; reflexivity. }
    destruct (Nat.leb_spec (length a) Np.PW_BLOCKSIZE) as [Hle|Hgt].
    { destruct f2; cbn [Np.pairwise_sum];
        destruct (Nat.ltb_spec (length a) 8); try lia;
        destruct (Nat.leb_spec (length a) Np.PW_BLOCKSIZE); try lia; reflexivity. }
    unfold Np.PW_BLOCKSIZE in Hgt.
    destruct f2 as [|f2]; [lia|]. cbn [Np.pairwise_sum].
    destruct (Nat.ltb_spec (length a) 8); try lia.
    destruct (Nat.leb_spec (length a) Np.PW_BLOCKSIZE) as [Hle'|_];
      [unfold Np.PW_BLOCKSIZE in Hle'; lia|].
    set (n := length a) in *. set (n2 := (n / 2 - (n / 2) mod 8)%nat).
    assert (Hn2 : (0 < n2 < n)%nat).
    { pose proof (Nat.mod_upper_bound (n / 2) 8 ltac:(lia)).
      pose proof (Nat.div_mod_eq n 2). pose proof (Nat.mod_upper_bound n 2 ltac:(lia)).
      unfold n2. lia. }
    f_equal; apply IH; rewrite ?length_take, ?length_drop; fold n; lia.
Qed.

(* ===================================================================== *)
(** ** What a call does to the heap, and printing is not observed *)
(* ===================================================================== *)

Lemma same_or_grown_refl dicts a o : same_or_grown dicts a o o.
Proof. now left. Qed.

Lemma same_or_grown_trans dicts a o1 o2 o3 :
  same_or_grown dicts a o1 o2 -> same_or_grown dicts a o2 o3 -> same_or_grown dicts a o1 o3.
Proof.
  intros [->|(Ha & d1 & d2 & v & -> & -> & H12)] H23; [exact H23|].
  destruct H23 as [->|(_ & d2' & d3 & v' & Heq & -> & H23)].
  - right. split; [exact Ha|]. now exists d1, d2, v.
  - injection Heq as <- <-. right. split; [exact Ha|].
    exists d1, d3, v. repeat split. now transitivity d2.
Qed.

(** A computation that leaves the heap as it is. *)
Lemma keeps_same_heap {A} dicts (m : Py A) :
  (forall w, heap (snd (m w)) = heap w) -> keeps dicts m.
Proof. intros H w a o Ha. exists o. rewrite H. split; [exact Ha | apply same_or_grown_refl]. Qed.

Lemma keeps_ret {A} dicts (a : A) : keeps dicts (ret a).
Proof. now apply keeps_same_heap. Qed.

Lemma keeps_raise {A} dicts (e : exn) : keeps dicts (@raise A e).
Proof. now apply keeps_same_heap. Qed.

Lemma keeps_deref dicts a : keeps dicts (deref a).
Proof.
  apply keeps_same_heap. intros w. unfold deref. now destruct (heap w !! a).
Qed.

Lemma keeps_print dicts p : keeps dicts (print p).
Proof. now apply keeps_same_heap. Qed.

Lemma keeps_alloc dicts o : keeps dicts (alloc o).
Proof.
  intros w a x Ha. exists x. split; [|apply same_or_grown_refl].
  cbn. now apply lookup_app_l_Some.
Qed.

Lemma keeps_bind {A B} dicts (m : Py A) (k : A -> Py B) :
  keeps dicts m -> (forall a, keeps dicts (k a)) -> keeps dicts (bind m k).
Proof.
  intros Hm Hk w a o Ha. unfold bind. destruct (Hm w a o Ha) as (o1 & H1 & K1).
  destruct (m w) as [[e|x] w']; cbn [snd] in *; [now exists o1|].
  destruct (Hk x w' a o1 H1) as (o2 & H2 & K2).
  exists o2. split; [exact H2 | now apply (same_or_grown_trans _ _ _ o1)].
Qed.

(** [d[key]] writes to the dict it reads, and only to a defaultdict that
    lacks the key. *)
Lemma keeps_getitem dicts a key : a ∈ dicts -> keeps dicts (getitem a key).
Proof.
  intros Hin w a0 o0 H0. unfold getitem, bind, deref.
  destruct (heap w !! a) as [o|] eqn:Ha; [|exists o0; split; [exact H0 | apply same_or_grown_refl]].
  destruct o as [d|d v| | | | |];
    try (exists o0; split; [exact H0 | apply same_or_grown_refl]).
  - destruct (d !! key); exists o0; (split; [exact H0 | apply same_or_grown_refl]).
  - destruct (d !! key) eqn:Hk; [exists o0; split; [exact H0 | apply same_or_grown_refl]|].
    cbn. destruct (decide (a0 = a)) as [->|Hne].
    + rewrite Ha in H0. injection H0 as <-.
      exists (ODefaultDict (<[key := v]> d) v). split.
      * apply list_lookup_insert_eq. now apply lookup_lt_Some in Ha.
      * right. split; [exact Hin|]. exists d, (<[key := v]> d), v.
        repeat split. now apply insert_subseteq.
    + exists o0. split; [|apply same_or_grown_refl].
      now rewrite list_lookup_insert_ne by congruence.
Qed.

Lemma keeps_mapM {A B} dicts (f : A -> Py B) l :
  (forall x, keeps dicts (f x)) -> keeps dicts (mapM f l).
Proof.
  intros Hf. induction l as [|x l IH]; cbn [mapM]; [apply keeps_ret|].
  apply keeps_bind; [apply Hf|]. intros y.
  apply keeps_bind; [exact IH|]. intros ys. apply keeps_ret.
Qed.

Lemma keeps_Series_map dicts a s : a ∈ dicts -> keeps dicts (Series_map a s).
Proof.
  intros Hin. unfold Series_map. apply keeps_bind; [apply keeps_deref|].
  intros [d|d v| | | | |]; try apply keeps_raise; [apply keeps_ret|].
  apply keeps_mapM. intros x. now apply keeps_getitem.
Qed.

Lemma sim_ret {A} (a : A) : sim (ret a) (ret a).
Proof. intros w1 w2 H. now split. Qed.

Lemma sim_raise {A} (e : exn) : sim (@raise A e) (raise e).
Proof. intros w1 w2 H. now split. Qed.

Lemma sim_deref a : sim (deref a) (deref a).
Proof.
  intros w1 w2 H. unfold deref. rewrite H.
  destruct (heap w2 !! a); now split.
Qed.

Lemma sim_alloc o : sim (alloc o) (alloc o).
Proof. intros w1 w2 H. unfold alloc. cbn. rewrite H. now split. Qed.

Lemma sim_store a o : sim (store a o) (store a o).
Proof. intros w1 w2 H. unfold store. cbn. rewrite H. now split. Qed.

Lemma sim_bind {A B} (m1 m2 : Py A) (k1 k2 : A -> Py B) :
  sim m1 m2 -> (forall a, sim (k1 a) (k2 a)) -> sim (bind m1 k1) (bind m2 k2).
Proof.
  intros Hm Hk w1 w2 H. unfold bind. destruct (Hm w1 w2 H) as [Hr Hh].
  destruct (m1 w1) as [[e1|a1] w1'], (m2 w2) as [[e2|a2] w2']; cbn in *;
    try congruence.
  - injection Hr as ->. now split.
  - injection Hr as ->. now apply Hk.
Qed.

Lemma sim_getitem a key : sim (getitem a key) (getitem a key).
Proof.
  unfold getitem. apply sim_bind; [apply sim_deref|].
  intros [d|d v| | | | |]; try apply sim_raise.
  - destruct (d !! key); [apply sim_ret | apply sim_raise].
  - destruct (d !! key); [apply sim_ret|].
    apply sim_bind; [apply sim_store | intros; apply sim_ret].
Qed.

Lemma sim_mapM {A B} (f : A -> Py B) l :
  (forall x, sim (f x) (f x)) -> sim (mapM f l) (mapM f l).
Proof.
  intros Hf. induction l as [|x l IH]; cbn [mapM]; [apply sim_ret|].
  apply sim_bind; [apply Hf|]. intros y.
  apply sim_bind; [exact IH|]. intros ys. apply sim_ret.
Qed.

Lemma sim_Series_map a s : sim (Series_map a s) (Series_map a s).
Proof.
  unfold Series_map. apply sim_bind; [apply sim_deref|].
  intros [d|d v| | | | |]; try apply sim_raise; [apply sim_ret|].
  apply sim_mapM. intros x. apply sim_getitem.
Qed.

(** A [print] on the left changes what is printed and nothing else. *)
Lemma sim_print_l p (m : Py unit) : sim (ret tt) m -> sim (print p) m.
Proof. intros Hm w1 w2 H. apply (Hm (World (heap w1) (stdout w1 ++ [p])) w2 H). Qed.

Lemma sim_print_bind_l p (k : unit -> Py unit) (m : Py unit) :
  sim (k tt) m -> sim (bind (print p) k) m.
Proof. intros Hm w1 w2 H. apply (Hm (World (heap w1) (stdout w1 ++ [p])) w2 H). Qed.

Lemma quiet_ret {A} (a : A) : quiet (ret a).
Proof. intros w. reflexivity. Qed.

Lemma quiet_raise {A} (e : exn) : quiet (@raise A e).
Proof. intros w. reflexivity. Qed.

Lemma quiet_deref a : quiet (deref a).
Proof. intros w. unfold deref. destruct (heap w !! a); reflexivity. Qed.

Lemma quiet_alloc o : quiet (alloc o).
Proof. intros w. reflexivity. Qed.

Lemma quiet_store a o : quiet (store a o).
Proof. intros w. reflexivity. Qed.

Lemma quiet_bind {A B} (m : Py A) (k : A -> Py B) :
  quiet m -> (forall a, quiet (k a)) -> quiet (bind m k).
Proof.
  intros Hm Hk w. unfold bind. specialize (Hm w).
  destruct (m w) as [[e|a] w']; cbn in *; [assumption|].
  now rewrite Hk.
Qed.

Lemma quiet_getitem a key : quiet (getitem a key).
Proof.
  unfold getitem. apply quiet_bind; [apply quiet_deref|].
  intros [d|d v| | | | |]; try apply quiet_raise.
  - destruct (d !! key); [apply quiet_ret | apply quiet_raise].
  - destruct (d !! key); [apply quiet_ret|].
    apply quiet_bind; [apply quiet_store | intros; apply quiet_ret].
Qed.

Lemma quiet_mapM {A B} (f : A -> Py B) l :
  (forall x, quiet (f x)) -> quiet (mapM f l).
Proof.
  intros Hf. induction l as [|x l IH]; cbn [mapM]; [apply quiet_ret|].
  apply quiet_bind; [apply Hf|]. intros y.
  apply quiet_bind; [exact IH|]. intros ys. apply quiet_ret.
Qed.

Lemma quiet_Series_map a s : quiet (Series_map a s).
Proof.
  unfold Series_map. apply quiet_bind; [apply quiet_deref|].
  intros [d|d v| | | | |]; try apply quiet_raise; [apply quiet_ret|].
  apply quiet_mapM. intros x. apply quiet_getitem.
Qed.

Create HintDb py.
#[local] Hint Resolve keeps_ret keeps_raise keeps_deref keeps_alloc keeps_print : py.
#[local] Hint Resolve sim_ret sim_raise sim_deref sim_alloc sim_getitem sim_Series_map : py.
#[local] Hint Resolve quiet_ret quiet_raise quiet_deref quiet_alloc quiet_getitem
  quiet_Series_map : py.

Ltac keeps_step :=
  first
    [ apply keeps_getitem; set_solver
    | apply keeps_Series_map; set_solver
    | apply keeps_bind; [|intros ?]
    | match goal with
      | |- keeps _ (match ?x with _ => _ end) => destruct x
      | |- keeps _ (when ?b _) => destruct b; cbn [when]
      end
    | solve [auto with py] ].

Ltac sim_step :=
  first
    [ apply sim_print_bind_l
    | apply sim_print_l
    | solve [auto with py]
    | apply sim_bind; [|intros ?]
    | match goal with
      | |- sim (match ?x with _ => _ end) _ => destruct x
      end ].

Ltac quiet_step :=
  first
    [ solve [auto with py]
    | apply quiet_bind; [|intros ?]
    | match goal with
      | |- quiet (match ?x with _ => _ end) => destruct x
      end ].

(** The manual calculator writes to nothing but a defaultdict among its
    three dict arguments. *)
Lemma keeps_calc_IOFC_manual mp mc ip rdf verbose :
  keeps [mp; mc; ip] (calc_IOFC_manual mp mc ip rdf verbose).
Proof.
  unfold calc_IOFC_manual, as_ration, as_ration_cost.
  repeat keeps_step.
Qed.

Lemma keeps_calc_IOFC_nd mp ip mo : keeps [mp; ip] (calc_IOFC_nd mp ip mo).
Proof.
  unfold calc_IOFC_nd, get_value, operand, Intakes_diet_info, as_diet, as_diet_cost.
  repeat keeps_step.
Qed.

Lemma sim_calc_IOFC_manual mp mc ip rdf :
  sim (calc_IOFC_manual mp mc ip rdf true) (calc_IOFC_manual mp mc ip rdf false).
Proof.
  unfold calc_IOFC_manual, as_ration, as_ration_cost.
  cbn [when]. repeat sim_step.
Qed.

Lemma quiet_calc_IOFC_manual mp mc ip rdf :
  quiet (calc_IOFC_manual mp mc ip rdf false).
Proof.
  unfold calc_IOFC_manual, as_ration, as_ration_cost.
  cbn [when]. repeat quiet_step.
Qed.

(* ===================================================================== *)
(** ** Running the calculators *)
(* ===================================================================== *)

Lemma bind_run {A B} (m : Py A) (k : A -> Py B) w a w' :
  m w = (inr a, w') -> bind m k w = k a w'.
Proof. intros H. unfold bind. now rewrite H. Qed.

Lemma getitem_run w a d k v :
  heap w !! a = Some (ODict d) -> d !! k = Some v -> getitem a k w = (inr v, w).
Proof. intros H Hk. unfold getitem, bind, deref. now rewrite H, Hk. Qed.

(** [Series.map] with a plain dict reads it and writes nothing. *)
Lemma Series_map_run w a d s :
  heap w !! a = Some (ODict d) -> Series_map a s w = (inr (Np.map_dict d <$> s), w).
Proof. intros H. unfold Series_map, bind, deref. now rewrite H. Qed.

(** The frame that [assign] builds from a plain dict of prices. *)
Lemma cost_line_column prices (rows : list RationLine) :
  zip_with cost_line rows (Np.map_dict prices <$> (Ingredient <$> rows))
  = assign_cost prices <$> rows.
Proof.
  induction rows as [|r rows IH]; [reflexivity|].
  rewrite !fmap_cons. cbn [zip_with]. now rewrite IH.
Qed.

Lemma diet_cost_row_column prices (rows : list DietRow) :
  zip_with diet_cost_row rows (Np.map_dict prices <$> (Feedstuff <$> rows))
  = assign_diet_cost prices <$> rows.
Proof.
  induction rows as [|r rows IH]; [reflexivity|].
  rewrite !fmap_cons. cbn [zip_with]. now rewrite IH.
Qed.

Lemma as_ration_run w a rows :
  heap w !! a = Some (ORation rows) -> as_ration a w = (inr rows, w).
Proof. intros H. unfold as_ration, bind, deref. now rewrite H. Qed.

Lemma as_diet_run w a rows :
  heap w !! a = Some (ODiet rows) -> as_diet a w = (inr rows, w).
Proof. intros H. unfold as_diet, bind, deref. now rewrite H. Qed.

(** A value that the model output has, read as an operand. *)
Lemma get_value_run {B} w a values di k v (f : float -> Py B) :
  heap w !! a = Some (OModelOutput values di) -> values !! k = Some v ->
  bind (get_value a k) (fun x => bind (operand x) f) w = f v w.
Proof. intros H Hk. unfold get_value, bind, deref. now rewrite H, Hk. Qed.

Lemma Intakes_diet_info_run w a values di :
  heap w !! a = Some (OModelOutput values di) ->
  Intakes_diet_info a w = (inr di, w).
Proof. intros H. unfold Intakes_diet_info, bind, deref. now rewrite H. Qed.

(** What was just allocated is found at the end of the heap. *)
Lemma lookup_fresh (h : list object) (o : object) :
  ((h ++ [o])%list !! length h) = Some o.
Proof. rewrite lookup_app_r by reflexivity. now rewrite Nat.sub_diag. Qed.

Lemma lookup_old (h : list object) (o : object) (a : nat) x :
  h !! a = Some x -> (h ++ [o])%list !! a = Some x.
Proof. intros H. now apply lookup_app_l_Some. Qed.

(** A call of the manual calculator that passes the validation and finds
    its fields returns revenue minus the sum of the [daily_cost] column. *)
Lemma calc_IOFC_manual_run w mp mc ip rdf d_mp d_mc prices rows
    MY fp tp os pf pp po verbose :
  manual_args w mp mc ip rdf d_mp d_mc prices rows ->
  milk_prices_fields d_mp os pf pp po ->
  milk_components_fields d_mc MY fp tp ->
  Np.Series_all (ingredient_validation rows) = true ->
  fst (calc_IOFC_manual mp mc ip rdf verbose w) =
    inr (revenue_dollar_per_d (manual_revenue MY fp tp os pf pp po)
         - Np.Series_sum (daily_cost <$> (assign_cost prices <$> rows))).
Proof.
  intros (Hmp & Hmc & Hip & Hrdf) (Hos & Hpf & Hpp & Hpo) (HMY & Hfp & Htp) Hok.
  unfold calc_IOFC_manual.
  rewrite (bind_run _ _ _ _ _ (as_ration_run _ _ _ Hrdf)).
  rewrite Hok. cbn [negb].
  rewrite (bind_run _ _ _ _ _ (getitem_run _ _ _ _ _ Hmc HMY)).
  rewrite (bind_run _ _ _ _ _ (getitem_run _ _ _ _ _ Hmc Hfp)).
  rewrite (bind_run _ _ _ _ _ (getitem_run _ _ _ _ _ Hmc Htp)).
  rewrite (bind_run _ _ _ _ _ (getitem_run _ _ _ _ _ Hmp Hos)).
  assert (Hpr : forall (p : printed) (k : unit -> Py float) w0,
             bind (print p) k w0 = k tt (World (heap w0) (stdout w0 ++ [p])))
    by reflexivity.
  assert (Hrt : forall (k : unit -> Py float) w0, bind (ret tt) k w0 = k tt w0)
    by reflexivity.
  assert (Hal : forall o (k : addr -> Py float) w0,
             bind (alloc o) k w0
             = k (length (heap w0)) (World (heap w0 ++ [o]) (stdout w0)))
    by reflexivity.
  assert (Hrc : forall w0 rs,
             as_ration_cost (length (heap w0))
               (World (heap w0 ++ [ORationCost rs]) (stdout w0))
             = (inr rs, World (heap w0 ++ [ORationCost rs]) (stdout w0))).
  { intros w0 rs. unfold as_ration_cost, bind, deref. cbn [heap].
    now rewrite lookup_fresh. }
  destruct verbose; cbn [when].
  - rewrite Hpr.
    rewrite (bind_run _ _ _ _ _ (getitem_run (World _ _) _ _ _ _ Hmp Hpf)).
    rewrite (bind_run _ _ _ _ _ (getitem_run (World _ _) _ _ _ _ Hmp Hpp)).
    rewrite (bind_run _ _ _ _ _ (getitem_run (World _ _) _ _ _ _ Hmp Hpo)).
    unfold bind at 2. cbn [print]. unfold bind at 1. cbn [print].
    rewrite (bind_run _ _ _ _ _ (Series_map_run (World _ _) _ _ _ Hip)).
    rewrite cost_line_column.
    rewrite Hal. rewrite (bind_run _ _ _ _ _ (Hrc (World _ _) _)).
    reflexivity.
  - rewrite Hrt.
    rewrite (bind_run _ _ _ _ _ (getitem_run _ _ _ _ _ Hmp Hpf)).
    rewrite (bind_run _ _ _ _ _ (getitem_run _ _ _ _ _ Hmp Hpp)).
    rewrite (bind_run _ _ _ _ _ (getitem_run _ _ _ _ _ Hmp Hpo)).
    rewrite Hrt.
    rewrite (bind_run _ _ _ _ _ (Series_map_run _ _ _ _ Hip)).
    rewrite cost_line_column.
    rewrite Hal. rewrite (bind_run _ _ _ _ _ (Hrc _ _)).
    reflexivity.
Qed.

(** A call of the model calculator that finds its fields returns revenue
    minus the sum of the [dollar_fed_p_d] column. *)
Lemma calc_IOFC_nd_run w mp ip mo d_mp prices values rows g_fat g_np MY os pf pp po :
  nd_args w mp ip mo d_mp prices values rows ->
  milk_prices_fields d_mp os pf pp po ->
  model_values values g_fat g_np MY ->
  fst (calc_IOFC_nd mp ip mo w) =
    inr (revenue_dollar_per_d (nd_revenue g_fat g_np MY os pf pp po)
         - Np.Series_sum (dollar_fed_p_d <$> (assign_diet_cost prices <$> rows))).
Proof.
  intros (di & Hmp & Hip & Hmo & Hdi) (Hos & Hpf & Hpp & Hpo) (Hgf & Hgn & HMY).
  unfold calc_IOFC_nd.
  rewrite (get_value_run _ _ _ _ _ _ _ Hmo Hgf).
  rewrite (bind_run _ _ _ _ _ (getitem_run _ _ _ _ _ Hmp Hpf)).
  rewrite (get_value_run _ _ _ _ _ _ _ Hmo Hgn).
  rewrite (bind_run _ _ _ _ _ (getitem_run _ _ _ _ _ Hmp Hpp)).
  assert (HMY' : get_value mo "Mlk_Prod" w = (inr (Some MY), w))
    by (unfold get_value, bind, deref; now rewrite Hmo, HMY).
  rewrite (bind_run _ _ _ _ _ HMY').
  rewrite (bind_run _ _ _ _ _ (getitem_run _ _ _ _ _ Hmp Hos)).
  unfold bind at 1. cbn [operand ret].
  rewrite (bind_run _ _ _ _ _ (getitem_run _ _ _ _ _ Hmp Hpo)).
  rewrite (bind_run _ _ _ _ _ (Intakes_diet_info_run _ _ _ _ Hmo)).
  rewrite (bind_run _ _ _ _ _ (as_diet_run _ _ _ Hdi)).
  unfold bind at 1. cbn [alloc].
  rewrite (bind_run _ _ _ _ _ (as_diet_run (World _ _) _ _ (lookup_fresh _ _))).
  rewrite (bind_run _ _ _ _ _
             (Series_map_run (World _ _) _ _ _ (lookup_old _ _ _ _ Hip))).
  rewrite diet_cost_row_column.
  unfold bind at 1. cbn [alloc heap stdout].
  unfold as_diet_cost, bind, deref. cbn [heap]. rewrite lookup_fresh.
  reflexivity.
Qed.



(* ===================================================================== *)
(** ** numpy's sum is a sum *)
(* ===================================================================== *)

Lemma sum_of_sum_loop a : forall l res,
  sum_of l res -> sum_of (l ++ a) (Np.sum_loop res a).
Proof.
  unfold Np.sum_loop. induction a as [|x a IH]; intros l res H; cbn [fold_left].
  - now rewrite app_nil_r.
  - replace (l ++ x :: a)%list with ((l ++ [x]) ++ a)%list by now rewrite <- app_assoc.
    apply IH. apply sum_of_add; [exact H | apply sum_of_one].
Qed.

(** The accumulators after one more block: each has taken one element. *)
Lemma sum_of_zip_with_add (Ls : list (list float)) r : forall xs,
  Forall2 sum_of Ls r -> length xs = length r ->
  Forall2 sum_of (zip_with (fun (L : list float) (x : float) => (L ++ [x])%list) Ls xs) (zip_with add r xs)
  /\ concat (zip_with (fun (L : list float) (x : float) => (L ++ [x])%list) Ls xs) ≡ₚ (concat Ls ++ xs)%list.
Proof.
  intros xs H. revert xs.
  induction H as [|L s Ls r HL _ IH]; intros [|x xs] Hlen; try discriminate.
  - split; [constructor | reflexivity].
  - cbn [length] in Hlen. injection Hlen as Hlen.
    destruct (IH xs Hlen) as [IH1 IH2]. cbn [zip_with concat]. split.
    + constructor; [|exact IH1]. apply sum_of_add; [exact HL | apply sum_of_one].
    + rewrite IH2. rewrite <- !app_assoc. apply Permutation_app_head.
      cbn. rewrite Permutation_middle. reflexivity.
Qed.

Lemma sum_of_unrolled blocks : forall (Ls : list (list float)) r a,
  Forall2 sum_of Ls r -> length r = 8%nat -> (8 * blocks <= length a)%nat ->
  exists Ls',
    Forall2 sum_of Ls' (Np.unrolled blocks r a).1
    /\ length (Np.unrolled blocks r a).1 = 8%nat
    /\ (concat Ls' ++ (Np.unrolled blocks r a).2)%list ≡ₚ (concat Ls ++ a)%list.
Proof.
  induction blocks as [|b IH]; intros Ls r a H Hr Ha; cbn [Np.unrolled].
  - now exists Ls.
  - assert (Ht : length (take 8 a) = length r) by (rewrite length_take; lia).
    destruct (sum_of_zip_with_add Ls r (take 8 a) H Ht) as [H1 H2].
    destruct (IH _ _ (drop 8 a) H1) as (Ls' & H3 & H4 & H5).
    + rewrite length_zip_with, length_take. lia.
    + rewrite length_drop. lia.
    + exists Ls'. split; [exact H3|]. split; [exact H4|].
      rewrite H5, H2, <- app_assoc. now rewrite take_drop.
Qed.

Lemma sum_of_tree8 (Ls : list (list float)) r :
  Forall2 sum_of Ls r -> length r = 8%nat -> sum_of (concat Ls) (Np.tree8 r).
Proof.
  intros H Hr.
  destruct r as [|r0 [|r1 [|r2 [|r3 [|r4 [|r5 [|r6 [|r7 [|]]]]]]]]]; try discriminate.
  repeat match goal with
         | H : Forall2 _ _ (_ :: _) |- _ =>
             apply Forall2_cons_inv_r in H as (? & ? & ? & H & ->)
         | H : Forall2 _ _ [] |- _ => apply Forall2_nil_inv_r in H as ->
         end.
  unfold Np.tree8, Np.acc8. cbn [nth concat]. rewrite app_nil_r.
  rewrite !app_assoc.
  match goal with
  | |- sum_of (((((((?a ++ ?b) ++ ?c) ++ ?d) ++ ?e) ++ ?f) ++ ?g) ++ ?h)%list _ =>
      replace (((((((a ++ b) ++ c) ++ d) ++ e) ++ f) ++ g) ++ h)%list
        with (((a ++ b) ++ (c ++ d)) ++ ((e ++ f) ++ (g ++ h)))%list
        by (now rewrite <- !app_assoc)
  end.
  repeat apply sum_of_add; assumption.
Qed.

Lemma sum_of_singletons (l : list float) :
  Forall2 sum_of ((fun x => [x]) <$> l) l /\ concat ((fun x : float => [x]) <$> l) = l.
Proof.
  induction l as [|x l [IH1 IH2]]; [split; [constructor | reflexivity]|].
  rewrite fmap_cons. cbn [concat app]. split.
  - constructor; [apply sum_of_one | exact IH1].
  - now f_equal.
Qed.

Lemma sum_of_block_sum a : (8 <= length a)%nat -> sum_of a (Np.block_sum a).
Proof.
  intros Ha. unfold Np.block_sum.
  destruct (sum_of_singletons (take 8 a)) as [H0 Hc].
  destruct (sum_of_unrolled (length a / 8 - 1) _ (take 8 a) (drop 8 a) H0)
    as (Ls' & H1 & Hlen & H2).
  - rewrite length_take. lia.
  - rewrite length_drop. pose proof (Nat.Div0.mul_div_le (length a) 8). lia.
  - destruct (Np.unrolled _ _ _) as [r rest]. cbn [fst snd] in *.
    rewrite Hc, take_drop in H2.
    apply (sum_of_perm _ _ _ H2). apply sum_of_sum_loop.
    now apply sum_of_tree8.
Qed.

Lemma sum_of_pairwise_sum fuel : forall a, sum_of a (Np.pairwise_sum fuel a).
Proof.
  induction fuel as [|f IH]; intros a; cbn [Np.pairwise_sum];
    destruct (Nat.ltb_spec (length a) 8) as [Hlt|Hge];
    try (apply (sum_of_sum_loop a [] 0 sum_of_nil));
    destruct (length a <=? Np.PW_BLOCKSIZE)%nat;
    try (now apply sum_of_block_sum).
  rewrite <- (take_drop (length a / 2 - (length a / 2) mod 8) a) at 1.
  apply sum_of_add; apply IH.
Qed.

(** What [ndarray.sum()] returns is a sum of the elements. *)
Lemma sum_of_sum a : sum_of a (Np.sum a).
Proof.
  unfold Np.sum. apply (sum_of_add [] a 0 _ sum_of_nil), sum_of_pairwise_sum.
Qed.

(** Below eight elements numpy adds them first to last, from zero. *)
Lemma sum_short a :
  (length a < 8)%nat -> Np.sum a = 0 + fold_left add a 0.
Proof.
  intros H. unfold Np.sum. apply Nat.ltb_lt in H. f_equal.
  destruct (length a) eqn:Hn; unfold Np.pairwise_sum; rewrite Hn in *;
    now rewrite H.
Qed.

(* ===================================================================== *)
(** ** The cost columns *)
(* ===================================================================== *)

Lemma daily_cost_column prices rows :
  Np.Series_sum (daily_cost <$> (assign_cost prices <$> rows)) = ration_cost prices rows.
Proof.
  unfold ration_cost. f_equal. induction rows as [|r rows IH]; [reflexivity|].
  cbn [fmap list_fmap] in *. now rewrite IH.
Qed.

Lemma dollar_fed_column prices rows :
  Np.Series_sum (dollar_fed_p_d <$> (assign_diet_cost prices <$> rows))
  = diet_cost prices rows.
Proof.
  unfold diet_cost. f_equal. induction rows as [|r rows IH]; [reflexivity|].
  cbn [fmap list_fmap] in *. now rewrite IH.
Qed.

(** A line without a price has a NaN daily cost, which the sum counts as
    zero. *)
Lemma fillna0_daily_cost prices r :
  Np.fillna0 (daily_cost (assign_cost prices r)) = counted_cost prices r.
Proof.
  unfold counted_cost, assign_cost, Np.map_dict, line_cost. cbn [daily_cost].
  destruct (prices !! Ingredient r) as [p|]; [reflexivity|].
  change (Np.fillna0 (kg_inclusion r * (nan / DM_perc r * 100 / 1000)) = 0).
  now rewrite B64Facts.nan_div, B64Facts.nan_mul, B64Facts.nan_div, B64Facts.mul_nan.
Qed.

Lemma fillna0_dollar_fed prices r :
  Np.fillna0 (dollar_fed_p_d (assign_diet_cost prices r)) = counted_row_cost prices r.
Proof.
  unfold counted_row_cost, assign_diet_cost, Np.map_dict, row_cost. cbn [dollar_fed_p_d].
  destruct (prices !! Feedstuff r) as [p|]; [reflexivity|].
  change (Np.fillna0 (nan / Fd_DM r * 100 / 1000 * Fd_DMIn r) = 0).
  now rewrite B64Facts.nan_div, B64Facts.nan_mul.
Qed.

Lemma ration_cost_counted prices rows :
  ration_cost prices rows = Np.sum (counted_cost prices <$> rows).
Proof.
  rewrite <- daily_cost_column. unfold Np.Series_sum. f_equal.
  induction rows as [|r rows IH]; [reflexivity|].
  cbn [fmap list_fmap] in *. now rewrite IH, fillna0_daily_cost.
Qed.

Lemma diet_cost_counted prices rows :
  diet_cost prices rows = Np.sum (counted_row_cost prices <$> rows).
Proof.
  rewrite <- dollar_fed_column. unfold Np.Series_sum. f_equal.
  induction rows as [|r rows IH]; [reflexivity|].
  cbn [fmap list_fmap] in *. now rewrite IH, fillna0_dollar_fed.
Qed.

(* ===================================================================== *)
(** ** Revenue and feed cost of valid inputs are not negative *)
(* ===================================================================== *)

Section NonNegative.

Import B64 B64Facts.

Lemma percentage_inv x :
  percentage x = true -> nonneg x = true /\ (x <=? 100) = true.
Proof. unfold percentage, nonneg. intros H. now apply andb_true_iff in H. Qed.

Lemma dm_percentage_finpos x : dm_percentage x = true -> finpos x = true.
Proof.
  unfold dm_percentage, finpos. intros H. apply andb_true_iff in H as [H0 H1].
  rewrite H0. cbn [andb]. now apply (leb_finite x 100).
Qed.

(** [perc / 100 * MY * price] *)
Lemma percent_term_nonneg perc MY price :
  percentage perc = true -> fin_nonneg MY = true -> fin_nonneg price = true ->
  nonneg (perc / 100 * MY * price) = true.
Proof.
  intros Hp HMY Hprice. apply percentage_inv in Hp as [Hp0 Hp100].
  apply mul_fin_nonneg; [|exact Hprice].
  now apply fraction_of_finite.
Qed.

(** [g / 1000 * price] *)
Lemma gram_term_nonneg g price :
  fin_nonneg g = true -> fin_nonneg price = true ->
  nonneg (g / 1000 * price) = true.
Proof.
  intros Hg Hprice. apply mul_fin_nonneg; [|exact Hprice].
  now apply div_ge1_finite.
Qed.

Lemma manual_revenue_nonneg MY fp tp os pf pp po :
  valid_milk MY fp tp os pf pp po = true ->
  nonneg (revenue_dollar_per_d (manual_revenue MY fp tp os pf pp po)) = true.
Proof.
  unfold valid_milk. intros H.
  do 6 (apply andb_true_iff in H as [H ?]).
  unfold revenue_dollar_per_d, manual_revenue.
  cbn [fat_dollar_d protein_dollar_d other_dollar_d].
  repeat apply add_nonneg; now apply percent_term_nonneg.
Qed.

Lemma nd_revenue_nonneg g_fat g_np MY os pf pp po :
  valid_outputs g_fat g_np MY os pf pp po = true ->
  nonneg (revenue_dollar_per_d (nd_revenue g_fat g_np MY os pf pp po)) = true.
Proof.
  unfold valid_outputs. intros H.
  do 6 (apply andb_true_iff in H as [H ?]).
  unfold revenue_dollar_per_d, nd_revenue.
  cbn [fat_dollar_d protein_dollar_d other_dollar_d].
  repeat apply add_nonneg;
    [now apply gram_term_nonneg | now apply gram_term_nonneg
    | now apply percent_term_nonneg].
Qed.

(** [price / DM * 100 / 1000], which may be plus infinity. *)
Lemma price_DM_kg_nonneg p dm :
  fin_nonneg p = true -> dm_percentage dm = true ->
  nonneg (p / dm * 100 / 1000) = true.
Proof.
  intros Hp Hdm. apply dm_percentage_finpos in Hdm.
  apply div_nonneg_finpos; [|reflexivity].
  apply mul_nonneg_finpos; [|reflexivity].
  apply div_nonneg_finpos; [now apply fin_nonneg_nonneg | exact Hdm].
Qed.

Lemma ration_cost_nonneg prices rows :
  forallb (valid_line prices) rows = true ->
  nonneg (ration_cost prices rows) = true.
Proof.
  intros H. unfold ration_cost. apply Series_sum_nonneg, Forall_fmap.
  apply Forall_forall. intros r Hr. cbn.
  assert (Hv : valid_line prices r = true).
  { rewrite forallb_forall in H. apply H. now apply list_elem_of_In. }
  unfold valid_line in Hv. unfold Np.map_dict.
  destruct (prices !! Ingredient r) as [p|]; [|discriminate]. cbn [from_option].
  do 2 (apply andb_true_iff in Hv as [Hv ?]).
  unfold line_cost. apply mul_fin_nonneg_or_nan; [assumption|].
  now apply price_DM_kg_nonneg.
Qed.

Lemma diet_cost_nonneg prices rows :
  forallb (valid_row prices) rows = true ->
  nonneg (diet_cost prices rows) = true.
Proof.
  intros H. unfold diet_cost. apply Series_sum_nonneg, Forall_fmap.
  apply Forall_forall. intros r Hr. cbn.
  assert (Hv : valid_row prices r = true).
  { rewrite forallb_forall in H. apply H. now apply list_elem_of_In. }
  unfold valid_row in Hv. unfold Np.map_dict.
  destruct (prices !! Feedstuff r) as [p|]; [|discriminate]. cbn [from_option].
  do 2 (apply andb_true_iff in Hv as [Hv ?]).
  unfold row_cost. apply mul_nonneg_fin_or_nan; [|assumption].
  now apply price_DM_kg_nonneg.
Qed.

End NonNegative.

(* ===================================================================== *)
(** ** The validation of the manual calculator *)
(* ===================================================================== *)

(** When a line fails the membership test the call raises at once: nothing
    else is read, nothing is allocated or printed. *)
Lemma calc_IOFC_manual_rejects w mp mc ip rdf rows verbose :
  heap w !! rdf = Some (ORation rows) ->
  Np.Series_all (ingredient_validation rows) = false ->
  calc_IOFC_manual mp mc ip rdf verbose w
  = (inl (ValueError (unmatched_ingredients rows)), w).
Proof.
  intros Hrdf Hbad. unfold calc_IOFC_manual.
  rewrite (bind_run _ _ _ _ _ (as_ration_run _ _ _ Hrdf)).
  now rewrite Hbad.
Qed.

(** The reported list holds, in row order, the identifiers of the ration
    that are not keys of the module-level table. *)
Lemma unmatched_ingredients_spec rows :
  unmatched_ingredients rows
  = filter (fun x => x ∉ dom ingredient_prices_asfed_tonne) (Ingredient <$> rows).
Proof.
  unfold unmatched_ingredients, ingredient_validation.
  induction rows as [|r rows IH]; [reflexivity|].
  rewrite !fmap_cons. cbn [Np.mask_rows]. rewrite filter_cons.
  destruct (decide (Ingredient r ∉ dom ingredient_prices_asfed_tonne)) as [Hn|Hy].
  - rewrite bool_decide_eq_false_2 by (now rewrite <- elem_of_dom).
    cbn [negb]. rewrite fmap_cons. now f_equal.
  - rewrite bool_decide_eq_true_2
      by (apply elem_of_dom;
          destruct (decide (Ingredient r ∈ dom ingredient_prices_asfed_tonne));
          [assumption | contradiction]).
    cbn [negb]. exact IH.
Qed.

(** The validation passes exactly when every identifier of the ration is a
    key of the module-level table. *)
Lemma validation_passes_iff rows :
  Np.Series_all (ingredient_validation rows) = true
  <-> Forall (fun r => Ingredient r ∈ dom ingredient_prices_asfed_tonne) rows.
Proof.
  unfold Np.Series_all, ingredient_validation.
  induction rows as [|r rows IH]; [split; [constructor | reflexivity]|].
  rewrite !fmap_cons. cbn [forallb]. rewrite andb_true_iff, Forall_cons, IH.
  now rewrite bool_decide_eq_true, elem_of_dom.
Qed.

(* ===================================================================== *)
(** ** The claims *)
(* ===================================================================== *)

(** The notebook also prints [ration_df['kg_inclusion'].sum()]. *)
Example kg_inclusion_sum :
  Np.Series_sum (kg_inclusion <$> ration_list) = 23.799999999999997.
Proof. vm_compute. reflexivity. Qed.

(** After the notebook's call the heap holds the four objects it held
    before and, behind them, the table that [assign] built. *)
Example manual_call_heap :
  heap (snd (run_manual milk_components ingredient_prices_asfed_tonne ration_list false))
  = (heap notebook
     ++ [ORationCost (assign_cost ingredient_prices_asfed_tonne <$> ration_list)])%list.
Proof. vm_compute. reflexivity. Qed.

(** C1 (code defect). The claim: a ration with an identifier absent from the
    price table passed as [ingredient_prices] makes [calc_IOFC_manual] raise,
    reporting exactly the ration identifiers that the passed table lacks.
    The code tests membership in the module-level
    [ingredient_prices_asfed_tonne] instead. With the example ration and a
    passed table that lacks Canola the call returns a number and raises
    nothing; with a ration of Barley and a passed table that prices Barley
    the call raises and reports Barley. *)
Theorem C1_validation_reads_module_table :
  fst (run_manual milk_components prices_without_canola ration_list false)
  = inr 14.84591543314923
  /\ prices_without_canola !! "Canola" = None
  /\ fst (run_manual milk_components barley_prices barley_ration false)
     = inl (ValueError ["Barley"])
  /\ barley_prices !! "Barley" = Some 300.
Proof. repeat split; vm_compute; reflexivity. Qed.

(** C2. With the example inputs the manual calculator returns exactly
    14.186574773808571, with or without [verbose]; the verbose run prints
    revenue 27.645180000000003 (27.65 to two decimals) and diet cost
    13.458605226191432 (13.46 to two decimals), which is the sum of the
    [daily_cost] column of the printed table, whose seven entries are, to
    four decimals, 0.1111, 5.3886, 4.4727, 1.0632, 1.3636, 0.6593 and
    0.4000. *)
Theorem C2_manual_example :
  let run := run_manual milk_components ingredient_prices_asfed_tonne ration_list in
  let rows := assign_cost ingredient_prices_asfed_tonne <$> ration_list in
  let revenue := 27.645180000000003 in
  let diet_cost := 13.458605226191432 in
  fst (run false) = inr 14.186574773808571
  /\ fst (run true) = inr 14.186574773808571
  /\ stdout (snd (run true))
     = [ PComponents 1.116 1.0230000000000001 1.7670000000000001;
         PDollars 14.842800000000002 11.212080000000002 1.5903;
         PRevenue revenue;
         PFrame rows;
         PDietCost diet_cost;
         PIOFC 14.186574773808571 ]
  /\ revenue - diet_cost = 14.186574773808571
  /\ shown2 revenue 27.65 = true
  /\ shown2 diet_cost 13.46 = true
  /\ diet_cost = Np.Series_sum (daily_cost <$> rows)
  /\ cl_Ingredient <$> rows = Ingredient <$> ration_list
  /\ Forall2 (fun c d => shown4 c d = true) (daily_cost <$> rows)
       [0.1111; 5.3886; 4.4727; 1.0632; 1.3636; 0.6593; 0.4000].
Proof.
  cbv zeta. repeat split; try (vm_compute; reflexivity).
  repeat constructor; vm_compute; reflexivity.
Qed.

(** C3. For every call that the calculator accepts (for
    [calc_IOFC_manual]: a ration whose identifiers are all keys of the
    module-level table, which is the test the code makes; both: the fields
    of the dictionaries and of the model output present) the value returned
    is revenue minus feed cost and nothing else. Revenue is
    [fat_kg * p_fat + protein_kg * p_prot + other_kg * p_os] with
    [x_kg = x_perc / 100 * MY_kg_d], and for the model calculator the fat
    and protein masses are the gram outputs divided by 1000. Feed cost is a
    sum in binary64 of the costs of the lines, each counted once, where a
    line with the price [p] costs
    [kg_inclusion * (p / DM_perc * 100 / 1000)] and a line without a price,
    or whose cost is NaN, counts as zero; for fewer than eight lines they
    are added first to last, starting from zero. When milk yield, masses,
    inclusions and prices are finite and not negative, the percentages are
    in [0, 100], every line has a price and every dry-matter percentage is
    in (0, 100], revenue and feed cost are each at least zero. *)
Theorem C3_revenue_minus_feed_cost :
  (forall w mp mc ip rdf d_mp d_mc prices rows MY fp tp os pf pp po verbose,
      manual_args w mp mc ip rdf d_mp d_mc prices rows ->
      milk_prices_fields d_mp os pf pp po ->
      milk_components_fields d_mc MY fp tp ->
      Np.Series_all (ingredient_validation rows) = true ->
      let revenue := fp / 100 * MY * pf + tp / 100 * MY * pp + os / 100 * MY * po in
      let cost := fun r =>
        match prices !! Ingredient r with
        | Some p =>
            let c := kg_inclusion r * (p / DM_perc r * 100 / 1000) in
            if is_nan c then 0 else c
        | None => 0
        end in
      exists feed_cost,
        fst (calc_IOFC_manual mp mc ip rdf verbose w) = inr (revenue - feed_cost)
        /\ sum_of (cost <$> rows) feed_cost
        /\ ((length rows < 8)%nat -> feed_cost = 0 + fold_left add (cost <$> rows) 0)
        /\ (valid_milk MY fp tp os pf pp po = true ->
            forallb (valid_line prices) rows = true ->
            (0 <=? revenue) = true /\ (0 <=? feed_cost) = true))
  /\
  (forall w mp ip mo d_mp prices values rows g_fat g_np MY os pf pp po,
      nd_args w mp ip mo d_mp prices values rows ->
      milk_prices_fields d_mp os pf pp po ->
      model_values values g_fat g_np MY ->
      let revenue := g_fat / 1000 * pf + g_np / 1000 * pp + os / 100 * MY * po in
      let cost := fun r =>
        match prices !! Feedstuff r with
        | Some p =>
            let c := Fd_DMIn r * (p / Fd_DM r * 100 / 1000) in
            if is_nan c then 0 else c
        | None => 0
        end in
      exists feed_cost,
        fst (calc_IOFC_nd mp ip mo w) = inr (revenue - feed_cost)
        /\ sum_of (cost <$> rows) feed_cost
        /\ ((length rows < 8)%nat -> feed_cost = 0 + fold_left add (cost <$> rows) 0)
        /\ (valid_outputs g_fat g_np MY os pf pp po = true ->
            forallb (valid_row prices) rows = true ->
            (0 <=? revenue) = true /\ (0 <=? feed_cost) = true)).
Proof.
  split.
  - intros w mp mc ip rdf d_mp d_mc prices rows MY fp tp os pf pp po verbose
      Hargs Hmp Hmc Hok. cbv zeta.
    change (fun r => match prices !! Ingredient r with
                     | Some p =>
                         if is_nan (kg_inclusion r * (p / DM_perc r * 100 / 1000))
                         then 0 else kg_inclusion r * (p / DM_perc r * 100 / 1000)
                     | None => 0
                     end) with (counted_cost prices).
    exists (ration_cost prices rows). repeat split.
    + rewrite <- daily_cost_column.
      now apply (calc_IOFC_manual_run w mp mc ip rdf d_mp d_mc).
    + rewrite ration_cost_counted. apply sum_of_sum.
    + intros Hlen. rewrite ration_cost_counted. apply sum_short.
      now rewrite length_fmap.
    + now apply (manual_revenue_nonneg MY fp tp os pf pp po).
    + now apply ration_cost_nonneg.
  - intros w mp ip mo d_mp prices values rows g_fat g_np MY os pf pp po
      Hargs Hmp Hmo. cbv zeta.
    assert (Hcost : (fun r => match prices !! Feedstuff r with
                              | Some p =>
                                  if is_nan (Fd_DMIn r * (p / Fd_DM r * 100 / 1000))
                                  then 0 else Fd_DMIn r * (p / Fd_DM r * 100 / 1000)
                              | None => 0
                              end) <$> rows = counted_row_cost prices <$> rows).
    { apply list_fmap_ext. intros i r _. unfold counted_row_cost, row_cost.
      destruct (prices !! Feedstuff r) as [p|]; [|reflexivity].
      now rewrite (mul_comm (Fd_DMIn r)). }
    rewrite Hcost.
    exists (diet_cost prices rows). repeat split.
    + rewrite <- dollar_fed_column.
      now apply (calc_IOFC_nd_run w mp ip mo d_mp prices values).
    + rewrite diet_cost_counted. apply sum_of_sum.
    + intros Hlen. rewrite diet_cost_counted. apply sum_short.
      now rewrite length_fmap.
    + now apply (nd_revenue_nonneg g_fat g_np MY os pf pp po).
    + now apply diet_cost_nonneg.
Qed.

(** The notebook's call, and a model output that reports the feeds of its
    ration: in both the feed cost 13.458605226191432 is the seven line
    costs added first to last. *)
Lemma C3_revenue_minus_feed_cost_witness :
  let diet := (fun r => {| Feedstuff := Ingredient r; Fd_DMInp := 0;
                           Fd_DM := DM_perc r; Fd_DMIn := kg_inclusion r |})
                <$> ration_list in
  let costs := [0.11111111111111112; 5.3885714285714279; 4.4727272727272718;
                1.0632183908045978; 1.3636363636363638; 0.65934065934065922;
                0.40000000000000002] in
  let feed_cost := 13.458605226191432 in
  feed_cost = 0 + fold_left add costs 0
  /\ sum_of costs feed_cost
  /\ (0 <=? feed_cost) = true
  /\ fst (run_manual milk_components ingredient_prices_asfed_tonne ration_list false)
     = inr (27.645180000000003 - feed_cost)
  /\ fst (run_nd ingredient_prices_asfed_tonne outputs_nd diet)
     = inr (26.522428980000001 - feed_cost).
Proof.
  cbv zeta.
  set (diet := (fun r => {| Feedstuff := Ingredient r; Fd_DMInp := 0;
                            Fd_DM := DM_perc r; Fd_DMIn := kg_inclusion r |})
                 <$> ration_list).
  destruct C3_revenue_minus_feed_cost as [Hmanual Hnd].
  assert (Ha : manual_args notebook milk_prices_ref milk_components_ref
                 ingredient_prices_ref ration_df_ref milk_prices milk_components
                 ingredient_prices_asfed_tonne ration_list)
    by (repeat split; reflexivity).
  assert (Hb : nd_args (nd_world ingredient_prices_asfed_tonne outputs_nd diet)
                 milk_prices_ref nd_prices_ref mod_output_ref
                 milk_prices ingredient_prices_asfed_tonne outputs_nd diet)
    by (exists diet_info_ref; repeat split; reflexivity).
  assert (Hp : milk_prices_fields milk_prices 5.7 13.3 10.96 0.9)
    by (repeat split; vm_compute; reflexivity).
  assert (Hc : milk_components_fields milk_components 31 3.6 3.3)
    by (repeat split; vm_compute; reflexivity).
  assert (Ho : model_values outputs_nd 1070.676 981.453 29.741)
    by (repeat split; vm_compute; reflexivity).
  assert (Hv : Np.Series_all (ingredient_validation ration_list) = true)
    by (vm_compute; reflexivity).
  assert (Hm : valid_milk 31 3.6 3.3 5.7 13.3 10.96 0.9 = true)
    by (vm_compute; reflexivity).
  assert (Hl : forallb (valid_line ingredient_prices_asfed_tonne) ration_list = true)
    by (vm_compute; reflexivity).
  assert (Hu : valid_outputs 1070.676 981.453 29.741 5.7 13.3 10.96 0.9 = true)
    by (vm_compute; reflexivity).
  assert (Hd : forallb (valid_row ingredient_prices_asfed_tonne) diet = true)
    by (vm_compute; reflexivity).
  destruct (Hmanual _ _ _ _ _ _ _ _ _ _ _ _ _ _ _ _ false Ha Hp Hc Hv)
    as (fc & Hval & Hsum & Hshort & Hnn).
  destruct (Hnd _ _ _ _ _ _ _ _ _ _ _ _ _ _ _ Hb Hp Ho)
    as (fc' & Hval' & Hsum' & Hshort' & Hnn').
  destruct (Hnn Hm Hl) as [_ Hfc]. destruct (Hnn' Hu Hd) as [_ Hfc'].
  specialize (Hshort ltac:(cbn; lia)). specialize (Hshort' ltac:(cbn; lia)).
  vm_compute in Hshort, Hshort'. subst fc fc'.
  vm_compute in Hsum.
  split; [vm_compute; reflexivity|]. split; [exact Hsum|]. split; [exact Hfc|].
  split; [exact Hval | exact Hval'].
Defined.

(** C4, as amended. The validation of [calc_IOFC_manual] tests membership in
    the module-level [ingredient_prices_asfed_tonne], not in the
    [ingredient_prices] argument: a ration whose identifiers are all in the
    module-level table passes it whatever that argument holds. An identifier
    absent from [ingredient_prices] then gets a NaN price and a NaN daily
    cost, and the sum of the column counts it as zero: the call raises
    nothing and returns revenue minus the cost of the priced lines. (The
    validation passes exactly when every identifier is a key of the
    module-level table, [validation_passes_iff].) *)
Theorem C4_unpriced_line_counts_as_zero
    w mp mc ip rdf d_mp d_mc prices rows MY fp tp os pf pp po verbose :
  manual_args w mp mc ip rdf d_mp d_mc prices rows ->
  milk_prices_fields d_mp os pf pp po ->
  milk_components_fields d_mc MY fp tp ->
  Np.Series_all (ingredient_validation rows) = true ->
  fst (calc_IOFC_manual mp mc ip rdf verbose w)
  = inr (revenue_dollar_per_d (manual_revenue MY fp tp os pf pp po)
         - Np.sum (counted_cost prices <$> rows))
  /\ (forall r, r ∈ rows -> prices !! Ingredient r = None ->
        price_asfed_t (assign_cost prices r) = nan
        /\ daily_cost (assign_cost prices r) = nan
        /\ counted_cost prices r = 0).
Proof.
  intros Hargs Hmp Hmc Hok. split.
  - rewrite <- ration_cost_counted, <- daily_cost_column.
    now apply (calc_IOFC_manual_run w mp mc ip rdf d_mp d_mc).
  - intros r _ Hnone. unfold counted_cost, assign_cost, Np.map_dict.
    cbn [price_asfed_t daily_cost]. rewrite Hnone. repeat split.
    change (kg_inclusion r * (nan / DM_perc r * 100 / 1000) = nan).
    now rewrite B64Facts.nan_div, B64Facts.nan_mul, B64Facts.nan_div, B64Facts.mul_nan.
Qed.

Lemma C4_unpriced_line_counts_as_zero_witness :
  Np.Series_all (ingredient_validation ration_list) = true
  /\ prices_without_canola !! "Canola" = None
  /\ fst (run_manual milk_components prices_without_canola ration_list false)
     = inr (revenue_dollar_per_d (manual_revenue 31 3.6 3.3 5.7 13.3 10.96 0.9)
            - Np.sum (counted_cost prices_without_canola <$> ration_list)).
Proof.
  split; [vm_compute; reflexivity|]. split; [vm_compute; reflexivity|].
  apply (C4_unpriced_line_counts_as_zero
           (manual_world milk_components prices_without_canola ration_list)
           milk_prices_ref milk_components_ref ingredient_prices_ref ration_df_ref
           milk_prices milk_components prices_without_canola ration_list
           31 3.6 3.3 5.7 13.3 10.96 0.9 false).
  - repeat split; reflexivity.
  - repeat split; vm_compute; reflexivity.
  - repeat split; vm_compute; reflexivity.
  - vm_compute; reflexivity.
Defined.

(** C4, as stated, fails: with the example ration and a price table that
    lacks Canola the call returns 14.84591543314923, not NaN. *)
Lemma C4_counterexample :
  Np.Series_all (ingredient_validation ration_list) = true
  /\ prices_without_canola !! "Canola" = None
  /\ fst (run_manual milk_components prices_without_canola ration_list false)
     = inr 14.84591543314923
  /\ fst (run_manual milk_components prices_without_canola ration_list false)
     <> inr nan.
Proof.
  repeat split; try (vm_compute; reflexivity).
  intros H.
  apply (f_equal (fun r : exn + float =>
                    match r with inr v => is_nan v | inl _ => true end)) in H.
  vm_compute in H. discriminate H.
Qed.

(** C5. For every call of [calc_IOFC_manual] the result with [verbose] is
    the result without it, and so is the heap; without [verbose] nothing is
    printed. *)
Theorem C5_verbose_only_prints mp mc ip rdf w :
  fst (calc_IOFC_manual mp mc ip rdf true w)
  = fst (calc_IOFC_manual mp mc ip rdf false w)
  /\ heap (snd (calc_IOFC_manual mp mc ip rdf true w))
     = heap (snd (calc_IOFC_manual mp mc ip rdf false w))
  /\ stdout (snd (calc_IOFC_manual mp mc ip rdf false w)) = stdout w.
Proof.
  split; [|split].
  - now apply sim_calc_IOFC_manual.
  - now apply sim_calc_IOFC_manual.
  - apply quiet_calc_IOFC_manual.
Qed.

Lemma hundreds_round_trip_all : forallb hundreds_round_trip (seq 0 1001) = true.
Proof. vm_compute. reflexivity. Qed.

(** Every price of the example table survives [/ 100 * 100], except the 230
    of Alfalfa Silage. *)
Example catalog_round_trips :
  Forall (fun kp : string * float => kp.2 / 100 * 100 = kp.2 \/ kp.1 = "Alfalfa Silage")
    ingredient_price_items.
Proof.
  unfold ingredient_price_items.
  repeat (apply Forall_cons; split; [first [left; reflexivity | right; reflexivity]|]).
  apply Forall_nil. exact I.
Qed.

(** Of the whole-dollar prices from 1 to 5000, 4427 survive
    [/ 100 * 100]. *)
Example whole_dollar_round_trips :
  length (filter (fun n => PrimFloat.Leibniz.eqb
                             (of_uint63 (Uint63.of_Z (Z.of_nat n)) / 100 * 100)
                             (of_uint63 (Uint63.of_Z (Z.of_nat n))) = true)
            (seq 1 5000)) = 4427%nat.
Proof. vm_compute. reflexivity. Qed.

(** C6, as amended. For a ration line with [DM_perc = 100] whose ingredient
    has the price [p], the calculator computes [price_asfed_t = p] and
    [price_DM_t = p / 100 * 100] in binary64. The two are equal whenever
    [p] is 100 times a binary64 number, and for every whole-dollar
    multiple of 100 up to 100 000. For every price [p = m * 2^e] of
    binary64 from [2^-1016] up to [2^1023] they differ by at most one unit
    in the last place of [p], which is [2^e]. *)
Theorem C6_dm_price_at_100 (prices : gmap string float) (r : RationLine) (p : float) :
  DM_perc r = 100 -> prices !! Ingredient r = Some p ->
  price_asfed_t (assign_cost prices r) = p
  /\ price_DM_t (assign_cost prices r) = p / 100 * 100
  /\ (forall k : float,
        B64.finpos p = true -> B64.fin_nonneg k = true ->
        (B64.sf_val (Prim2SF k) * 100 = B64.sf_val (Prim2SF p))%R ->
        price_DM_t (assign_cost prices r) = price_asfed_t (assign_cost prices r))
  /\ (forall k : nat, (k <= 1000)%nat ->
        p = of_uint63 (Uint63.of_Z (100 * Z.of_nat k)) ->
        price_DM_t (assign_cost prices r) = price_asfed_t (assign_cost prices r))
  /\ (forall m e,
        Prim2SF p = S754_finite false m e -> (-1068 <= e <= 970)%Z ->
        exists m' e',
          Prim2SF (price_DM_t (assign_cost prices r)) = S754_finite false m' e'
          /\ (Rabs (B64.F2R (Zpos m') e' - B64.F2R (Zpos m) e) <= B64.bpow e)%R).
Proof.
  intros Hdm Hp.
  assert (Ha : price_asfed_t (assign_cost prices r) = p)
    by (unfold assign_cost, cost_line, Np.map_dict; cbn [price_asfed_t]; now rewrite Hp).
  assert (Hd : price_DM_t (assign_cost prices r) = p / 100 * 100)
    by (unfold assign_cost, cost_line, Np.map_dict; cbn [price_DM_t]; now rewrite Hp, Hdm).
  rewrite Ha, Hd. repeat split.
  - intros k Hpos Hk Heq. now apply (B64Hundred.div_mul_100_exact p k).
  - intros k Hk ->.
    pose proof hundreds_round_trip_all as Hall. rewrite forallb_forall in Hall.
    specialize (Hall k ltac:(apply in_seq; lia)).
    now apply FloatAxioms.Leibniz.eqb_spec in Hall.
  - intros m e Hm He. now apply B64Hundred.div_mul_100_near.
Qed.

(** The example's line at 100 % dry matter, priced 2000 = 100 * 20; a line
    of limestone at 100 %, priced 1000; and Alfalfa Silage at 100 %, priced
    230 = 8092405580431360 * 2^-45. *)
Lemma C6_dm_price_at_100_witness :
  let limestone :=
    {| Ingredient := "Limestone calcium carbonate"; kg_inclusion := 0.1;
       DM_perc := 100 |} in
  (DM_perc mineral_mix_line = 100
   /\ ingredient_prices_asfed_tonne !! Ingredient mineral_mix_line = Some 2000
   /\ price_DM_t (assign_cost ingredient_prices_asfed_tonne mineral_mix_line)
      = price_asfed_t (assign_cost ingredient_prices_asfed_tonne mineral_mix_line))
  /\ (ingredient_prices_asfed_tonne !! Ingredient limestone = Some 1000
      /\ 1000 = of_uint63 (Uint63.of_Z (100 * Z.of_nat 10))
      /\ price_DM_t (assign_cost ingredient_prices_asfed_tonne limestone)
         = price_asfed_t (assign_cost ingredient_prices_asfed_tonne limestone))
  /\ (DM_perc alfalfa_at_100 = 100
      /\ ingredient_prices_asfed_tonne !! Ingredient alfalfa_at_100 = Some 230
      /\ Prim2SF 230 = S754_finite false 8092405580431360 (-45)
      /\ exists m' e',
           Prim2SF (price_DM_t (assign_cost ingredient_prices_asfed_tonne alfalfa_at_100))
           = S754_finite false m' e'
           /\ (Rabs (B64.F2R (Zpos m') e' - B64.F2R 8092405580431360 (-45))
               <= B64.bpow (-45))%R).
Proof.
  cbv zeta.
  set (limestone := {| Ingredient := "Limestone calcium carbonate";
                       kg_inclusion := 0.1; DM_perc := 100 |}).
  assert (H1 : ingredient_prices_asfed_tonne !! Ingredient mineral_mix_line = Some 2000)
    by (vm_compute; reflexivity).
  assert (H2 : ingredient_prices_asfed_tonne !! Ingredient alfalfa_at_100 = Some 230)
    by (vm_compute; reflexivity).
  assert (H3 : ingredient_prices_asfed_tonne !! Ingredient limestone = Some 1000)
    by (vm_compute; reflexivity).
  split; [|split].
  - split; [reflexivity|]. split; [exact H1|].
    destruct (C6_dm_price_at_100 ingredient_prices_asfed_tonne mineral_mix_line 2000
                eq_refl H1) as (_ & _ & Hexact & _ & _).
    apply (Hexact 20); [vm_compute; reflexivity | vm_compute; reflexivity |].
    change (Prim2SF 20) with (S754_finite false 5629499534213120 (-48)).
    change (Prim2SF 2000) with (S754_finite false 8796093022208000 (-42)).
    cbn [B64.sf_val].
    rewrite (B64Facts.F2R_shift 8796093022208000 (-42) (-48)) by lia.
    change (8796093022208000 * 2 ^ (-42 - -48))%Z with (5629499534213120 * 100)%Z.
    unfold B64.F2R. rewrite mult_IZR. lra.
  - split; [exact H3|]. split; [reflexivity|].
    destruct (C6_dm_price_at_100 ingredient_prices_asfed_tonne limestone 1000
                eq_refl H3) as (_ & _ & _ & Hhundreds & _).
    apply (Hhundreds 10%nat); [lia | reflexivity].
  - split; [reflexivity|]. split; [exact H2|]. split; [reflexivity|].
    destruct (C6_dm_price_at_100 ingredient_prices_asfed_tonne alfalfa_at_100 230
                eq_refl H2) as (_ & _ & _ & _ & Hnear).
    apply (Hnear 8092405580431360%positive (-45)%Z); [reflexivity | lia].
Defined.

(** C6, as stated, fails: for the single-ingredient ration of Alfalfa Silage
    at [DM_perc = 100] the as-fed price is 230 and the dry-matter price is
    229.99999999999997, as the table printed by the calculator shows. *)
Lemma C6_counterexample :
  let row := assign_cost ingredient_prices_asfed_tonne alfalfa_at_100 in
  DM_perc alfalfa_at_100 = 100
  /\ stdout (snd (run_manual milk_components ingredient_prices_asfed_tonne
                    [alfalfa_at_100] true)) !! 3%nat = Some (PFrame [row])
  /\ price_asfed_t row = 230
  /\ price_DM_t row = 229.99999999999997
  /\ price_DM_t row <> price_asfed_t row.
Proof.
  cbv zeta. repeat split; try (vm_compute; reflexivity).
  intros H. apply (f_equal (fun x => x =? 230)) in H. vm_compute in H. discriminate H.
Qed.

(** C7, as amended. The two calculators share the revenue formula: whenever
    the gram outputs of the model divided by 1000 are the component masses
    of the manual path ([Mlk_Fat_g / 1000 = Milk_Fat_perc / 100 * MY_kg_d],
    [Mlk_NP_g / 1000 = Milk_TProt_perc / 100 * MY_kg_d]) and [Mlk_Prod] is
    [MY_kg_d], the three revenue terms of the two paths are equal, and each
    calculator returns that revenue minus its own feed cost. *)
Theorem C7_shared_revenue_formula
    wm mp mc ip rdf d_mc prices_m rows_m verbose
    wn mp' ip' mo prices_n values rows_n
    d_mp g_fat g_np Mlk_Prod MY fp tp os pf pp po :
  manual_args wm mp mc ip rdf d_mp d_mc prices_m rows_m ->
  nd_args wn mp' ip' mo d_mp prices_n values rows_n ->
  milk_prices_fields d_mp os pf pp po ->
  milk_components_fields d_mc MY fp tp ->
  model_values values g_fat g_np Mlk_Prod ->
  Np.Series_all (ingredient_validation rows_m) = true ->
  g_fat / 1000 = fp / 100 * MY ->
  g_np / 1000 = tp / 100 * MY ->
  Mlk_Prod = MY ->
  nd_revenue g_fat g_np Mlk_Prod os pf pp po = manual_revenue MY fp tp os pf pp po
  /\ fst (calc_IOFC_manual mp mc ip rdf verbose wm)
     = inr (revenue_dollar_per_d (manual_revenue MY fp tp os pf pp po)
            - ration_cost prices_m rows_m)
  /\ fst (calc_IOFC_nd mp' ip' mo wn)
     = inr (revenue_dollar_per_d (manual_revenue MY fp tp os pf pp po)
            - diet_cost prices_n rows_n).
Proof.
  intros Hm Hn Hp Hc Hv Hok Hfat Hnp ->.
  assert (Hrev : nd_revenue g_fat g_np MY os pf pp po
                 = manual_revenue MY fp tp os pf pp po)
    by (unfold nd_revenue, manual_revenue; now rewrite Hfat, Hnp).
  repeat split.
  - exact Hrev.
  - rewrite <- daily_cost_column.
    now apply (calc_IOFC_manual_run wm mp mc ip rdf d_mp d_mc).
  - rewrite <- Hrev, <- dollar_fed_column.
    now apply (calc_IOFC_nd_run wn mp' ip' mo d_mp prices_n values).
Qed.

Lemma C7_shared_revenue_formula_witness :
  let g_fat := 1000 * (3.6 / 100 * 31) in
  let g_np := 1000 * (3.3 / 100 * 31) in
  g_fat / 1000 = 3.6 / 100 * 31
  /\ g_np / 1000 = 3.3 / 100 * 31
  /\ nd_revenue g_fat g_np 31 5.7 13.3 10.96 0.9
     = manual_revenue 31 3.6 3.3 5.7 13.3 10.96 0.9.
Proof.
  cbv zeta. split; [reflexivity|]. split; [reflexivity|].
  apply (C7_shared_revenue_formula
           notebook milk_prices_ref milk_components_ref ingredient_prices_ref
           ration_df_ref milk_components ingredient_prices_asfed_tonne ration_list false
           (nd_world ingredient_prices_asfed_tonne outputs_31 diet_nd)
           milk_prices_ref nd_prices_ref mod_output_ref
           ingredient_prices_asfed_tonne outputs_31 diet_nd
           milk_prices (1000 * (3.6 / 100 * 31)) (1000 * (3.3 / 100 * 31)) 31 31
           3.6 3.3 5.7 13.3 10.96 0.9).
  - repeat split; reflexivity.
  - exists diet_info_ref. repeat split; reflexivity.
  - repeat split; vm_compute; reflexivity.
  - repeat split; vm_compute; reflexivity.
  - repeat split; vm_compute; reflexivity.
  - vm_compute; reflexivity.
  - reflexivity.
  - reflexivity.
  - reflexivity.
Defined.

(** C7, as stated, fails: with milk yield 22 kg/d, fat 3.7 % and protein
    3.4 %, the gram outputs [1000 * (3.7 / 100 * 22)] and
    [1000 * (3.4 / 100 * 22)] are 814.0 and 748.0, and the fat revenue is
    10.8262 on the model path but 10.826200000000002 on the manual path;
    with nothing fed the two calculators return 20.15288 and
    20.152880000000003. *)
Lemma C7_counterexample :
  let MY := 22 in
  let g_fat := 1000 * (3.7 / 100 * MY) in
  let g_np := 1000 * (3.4 / 100 * MY) in
  model_values outputs_22 g_fat g_np MY
  /\ milk_components_fields components_22 MY 3.7 3.4
  /\ fat_dollar_d (nd_revenue g_fat g_np MY 5.7 13.3 10.96 0.9) = 10.8262
  /\ fat_dollar_d (manual_revenue MY 3.7 3.4 5.7 13.3 10.96 0.9) = 10.826200000000002
  /\ fat_dollar_d (nd_revenue g_fat g_np MY 5.7 13.3 10.96 0.9)
     <> fat_dollar_d (manual_revenue MY 3.7 3.4 5.7 13.3 10.96 0.9)
  /\ fst (run_nd ingredient_prices_asfed_tonne outputs_22 []) = inr 20.15288
  /\ fst (run_manual components_22 ingredient_prices_asfed_tonne [] false)
     = inr 20.152880000000003.
Proof.
  cbv zeta. repeat split; try (vm_compute; reflexivity).
  intros H. apply (f_equal (fun x => x =? 10.8262)) in H. vm_compute in H.
  discriminate H.
Qed.

(** C8 (code defect). The claim: a diet table with an identifier that has no
    entry in the price table makes [calc_IOFC_nd] fail at the lookup, naming
    the identifier. The code maps the identifier to NaN and the sum counts
    the row as zero: with the diet of the notebook, whose Wheat straw and
    Corn silage are not keys of the price table, the call returns
    17.647662137646954. *)
Theorem C8_nd_unpriced_feedstuff_returns_number :
  Feedstuff <$> filter (fun r => Feedstuff r ∉ dom ingredient_prices_asfed_tonne) diet_nd
  = ["Wheat straw"; "Corn silage"]
  /\ fst (run_nd ingredient_prices_asfed_tonne outputs_nd diet_nd)
     = inr 17.647662137646954
  /\ fst (run_nd ingredient_prices_asfed_tonne outputs_nd diet_nd)
     = inr (revenue_dollar_per_d (nd_revenue 1070.676 981.453 29.741 5.7 13.3 10.96 0.9)
            - Np.sum (counted_row_cost ingredient_prices_asfed_tonne <$> diet_nd)).
Proof. repeat split; vm_compute; reflexivity. Qed.

(** C9, as amended. Neither calculator changes an object it was given,
    unless it was given a defaultdict: every object of the heap before a
    call (price dictionaries, milk components, ration table, model output
    and its diet table) that is not a defaultdict, or is not one of the
    dict arguments, is at the same address, the same, after the call,
    whether the call returns or raises; the tables that [assign] and
    [filter] build are new objects behind them. A defaultdict keeps its
    entries and its factory and may gain keys. *)
Theorem C9_inputs_unchanged (w : world) (a : addr) (o : object) :
  heap w !! a = Some o ->
  (forall mp mc ip rdf verbose,
      let after := heap (snd (calc_IOFC_manual mp mc ip rdf verbose w)) in
      ((forall d default, o <> ODefaultDict d default) \/ a ∉ [mp; mc; ip] ->
       after !! a = Some o)
      /\ (forall d default, o = ODefaultDict d default ->
            exists d', after !! a = Some (ODefaultDict d' default) /\ d ⊆ d'))
  /\ (forall mp ip mo,
      let after := heap (snd (calc_IOFC_nd mp ip mo w)) in
      ((forall d default, o <> ODefaultDict d default) \/ a ∉ [mp; ip] ->
       after !! a = Some o)
      /\ (forall d default, o = ODefaultDict d default ->
            exists d', after !! a = Some (ODefaultDict d' default) /\ d ⊆ d')).
Proof.
  intros Ha.
  assert (Hkept : forall dicts o',
             same_or_grown dicts a o o' ->
             ((forall d default, o <> ODefaultDict d default) \/ a ∉ dicts -> o' = o)
             /\ (forall d default, o = ODefaultDict d default ->
                   exists d', o' = ODefaultDict d' default /\ d ⊆ d')).
  { intros dicts o' [->|(Hin & d1 & d2 & v & -> & -> & Hsub)]; split.
    - reflexivity.
    - intros d default ->. now exists d.
    - intros [Hno|Hnot]; [now destruct (Hno d1 v) | contradiction].
    - intros d default Heq. injection Heq as <- <-. now exists d2. }
  split.
  - intros mp mc ip rdf verbose. cbv zeta.
    destruct (keeps_calc_IOFC_manual mp mc ip rdf verbose w a o Ha) as (o' & Hafter & Hk).
    rewrite Hafter. destruct (Hkept _ _ Hk) as [Hsame Hgrown]. split.
    + intros H. now rewrite (Hsame H).
    + intros d default Heq. destruct (Hgrown d default Heq) as (d' & -> & Hsub).
      now exists d'.
  - intros mp ip mo. cbv zeta.
    destruct (keeps_calc_IOFC_nd mp ip mo w a o Ha) as (o' & Hafter & Hk).
    rewrite Hafter. destruct (Hkept _ _ Hk) as [Hsame Hgrown]. split.
    + intros H. now rewrite (Hsame H).
    + intros d default Heq. destruct (Hgrown d default Heq) as (d' & -> & Hsub).
      now exists d'.
Qed.

Lemma C9_inputs_unchanged_witness :
  heap notebook !! ingredient_prices_ref = Some (ODict ingredient_prices_asfed_tonne)
  /\ heap (snd (calc_IOFC_manual milk_prices_ref milk_components_ref
                  ingredient_prices_ref ration_df_ref true notebook))
     !! ingredient_prices_ref
     = Some (ODict ingredient_prices_asfed_tonne)
  /\ heap (snd (calc_IOFC_nd milk_prices_ref nd_prices_ref mod_output_ref
                  (nd_world ingredient_prices_asfed_tonne outputs_nd diet_nd)))
     !! diet_info_ref
     = Some (ODiet diet_nd).
Proof.
  split; [reflexivity|].
  destruct (C9_inputs_unchanged notebook ingredient_prices_ref
              (ODict ingredient_prices_asfed_tonne) eq_refl) as [Hmanual _].
  destruct (C9_inputs_unchanged
              (nd_world ingredient_prices_asfed_tonne outputs_nd diet_nd) diet_info_ref
              (ODiet diet_nd) eq_refl) as [_ Hnd].
  split.
  - apply (Hmanual milk_prices_ref milk_components_ref ingredient_prices_ref
             ration_df_ref true).
    left. intros d default. discriminate.
  - apply (Hnd milk_prices_ref nd_prices_ref mod_output_ref).
    left. intros d default. discriminate.
Defined.

(** C9, as stated, fails: a defaultdict is a dict, and a price table that
    is one gains every identifier that the call looks up and does not find.
    With the notebook's diet, whose Wheat straw and Corn silage are not keys
    of the price table, [calc_IOFC_nd] returns 17.647662137646954 and leaves
    the two names in the table, priced 0.0; [calc_IOFC_manual], given the
    example ration and a table without Canola, leaves Canola in it. *)
Lemma C9_counterexample :
  let w_nd := nd_world_defaultdict ingredient_prices_asfed_tonne outputs_nd diet_nd in
  let w_manual := manual_world_defaultdict prices_without_canola ration_list in
  heap w_nd !! nd_prices_ref = Some (ODefaultDict ingredient_prices_asfed_tonne 0)
  /\ fst (calc_IOFC_nd milk_prices_ref nd_prices_ref mod_output_ref w_nd)
     = inr 17.647662137646954
  /\ heap (snd (calc_IOFC_nd milk_prices_ref nd_prices_ref mod_output_ref w_nd))
       !! nd_prices_ref
     = Some (ODefaultDict
               (<["Corn silage" := 0]>
                  (<["Wheat straw" := 0]> ingredient_prices_asfed_tonne)) 0)
  /\ heap (snd (calc_IOFC_nd milk_prices_ref nd_prices_ref mod_output_ref w_nd))
       !! nd_prices_ref
     <> heap w_nd !! nd_prices_ref
  /\ heap w_manual !! ingredient_prices_ref = Some (ODefaultDict prices_without_canola 0)
  /\ fst (calc_IOFC_manual milk_prices_ref milk_components_ref ingredient_prices_ref
            ration_df_ref false w_manual)
     = inr 14.84591543314923
  /\ heap (snd (calc_IOFC_manual milk_prices_ref milk_components_ref
                  ingredient_prices_ref ration_df_ref false w_manual))
       !! ingredient_prices_ref
     = Some (ODefaultDict (<["Canola" := 0]> prices_without_canola) 0)
  /\ heap (snd (calc_IOFC_manual milk_prices_ref milk_components_ref
                  ingredient_prices_ref ration_df_ref false w_manual))
       !! ingredient_prices_ref
     <> heap w_manual !! ingredient_prices_ref.
Proof.
  cbv zeta. repeat split; try (vm_compute; reflexivity).
  - intros H.
    apply (f_equal (fun o => match o with
                             | Some (ODefaultDict d _) => d !! "Wheat straw"
                             | _ => None
                             end)) in H.
    vm_compute in H. discriminate H.
  - intros H.
    apply (f_equal (fun o => match o with
                             | Some (ODefaultDict d _) => d !! "Canola"
                             | _ => None
                             end)) in H.
    vm_compute in H. discriminate H.
Qed.

(** C10, as amended. The manual calculator does not validate [DM_perc]:
    every call whose ration passes the membership test and whose
    dictionaries have their fields returns a float, whatever the dry-matter
    percentages are. A line with [DM_perc = 0] and a finite price above
    zero gets the dry-matter price plus infinity. *)
Theorem C10_dm_perc_not_validated
    w mp mc ip rdf d_mp d_mc prices rows MY fp tp os pf pp po verbose :
  manual_args w mp mc ip rdf d_mp d_mc prices rows ->
  milk_prices_fields d_mp os pf pp po ->
  milk_components_fields d_mc MY fp tp ->
  Np.Series_all (ingredient_validation rows) = true ->
  (exists v, fst (calc_IOFC_manual mp mc ip rdf verbose w) = inr v)
  /\ (forall r p, r ∈ rows -> DM_perc r = 0 -> prices !! Ingredient r = Some p ->
        B64.finpos p = true -> price_DM_t (assign_cost prices r) = infinity).
Proof.
  intros Hargs Hmp Hmc Hok. split.
  - eexists.
    exact (calc_IOFC_manual_run w mp mc ip rdf d_mp d_mc prices rows
             MY fp tp os pf pp po verbose Hargs Hmp Hmc Hok).
  - intros r p _ Hdm Hp Hfin. unfold assign_cost, cost_line, Np.map_dict. cbn [price_DM_t].
    rewrite Hp, Hdm. cbn [from_option]. now rewrite B64Facts.div_zero_infinity.
Qed.

Lemma C10_dm_perc_not_validated_witness :
  DM_perc canola_dm_zero = 0
  /\ (exists v, fst (run_manual milk_components ingredient_prices_asfed_tonne
                       [canola_dm_zero] false) = inr v)
  /\ price_DM_t (assign_cost ingredient_prices_asfed_tonne canola_dm_zero) = infinity.
Proof.
  split; [reflexivity|].
  destruct (C10_dm_perc_not_validated
              (manual_world milk_components ingredient_prices_asfed_tonne [canola_dm_zero])
              milk_prices_ref milk_components_ref ingredient_prices_ref ration_df_ref
              milk_prices milk_components ingredient_prices_asfed_tonne [canola_dm_zero]
              31 3.6 3.3 5.7 13.3 10.96 0.9 false) as [Hv Hinf].
  - repeat split; reflexivity.
  - repeat split; vm_compute; reflexivity.
  - repeat split; vm_compute; reflexivity.
  - vm_compute; reflexivity.
  - split; [exact Hv|].
    apply (Hinf canola_dm_zero 600).
    + apply list_elem_of_singleton. reflexivity.
    + reflexivity.
    + vm_compute; reflexivity.
    + vm_compute; reflexivity.
Defined.

(** C10, as stated, fails: a ration line of Canola with [DM_perc = 0] is
    not rejected, the call returns minus infinity; with [DM_perc = -91] it
    returns 28.304520659340664, more than the revenue 27.645180000000003. *)
Lemma C10_counterexample :
  DM_perc canola_dm_zero = 0
  /\ fst (run_manual milk_components ingredient_prices_asfed_tonne
            [canola_dm_zero] false) = inr neg_infinity
  /\ DM_perc canola_dm_negative = -91
  /\ fst (run_manual milk_components ingredient_prices_asfed_tonne
            [canola_dm_negative] false) = inr 28.304520659340664.
Proof. repeat split; vm_compute; reflexivity. Qed.



(* ===================================================================== *)
(** ** Running a call step by step *)
(* ===================================================================== *)

(** [d[key]] on a dict: the value, or [KeyError] with the key. *)
Lemma bind_getitem {B} w a d k (f : float -> Py B) :
  heap w !! a = Some (ODict d) ->
  bind (getitem a k) f w
  = match d !! k with Some v => f v w | None => (inl (KeyError k), w) end.
Proof.
  intros H. unfold getitem, bind, deref. rewrite H.
  destruct (d !! k); reflexivity.
Qed.

Lemma bind_print {B} p (k : unit -> Py B) w :
  bind (print p) k w = k tt (World (heap w) (stdout w ++ [p])).
Proof. reflexivity. Qed.

Lemma bind_ret {A B} (a : A) (k : A -> Py B) w : bind (ret a) k w = k a w.
Proof. reflexivity. Qed.

Lemma bind_alloc {B} o (k : addr -> Py B) w :
  bind (alloc o) k w = k (length (heap w)) (World (heap w ++ [o]) (stdout w)).
Proof. reflexivity. Qed.

Lemma bind_bind {A B C} (m : Py A) (k : A -> Py B) (k' : B -> Py C) w :
  bind (bind m k) k' w = bind m (fun a => bind (k a) k') w.
Proof. unfold bind. destruct (m w) as [[e|a] w']; reflexivity. Qed.

Lemma as_ration_cost_fresh {B} h out rs (k : list CostLine -> Py B) :
  bind (as_ration_cost (length h)) k (World (h ++ [ORationCost rs]) out)
  = k rs (World (h ++ [ORationCost rs]) out).
Proof.
  unfold as_ration_cost, bind, deref. cbn [heap]. now rewrite lookup_fresh.
Qed.

(** The validation fails exactly when some identifier of the ration is not
    a key of the module-level table. *)
Lemma validation_fails_iff rows :
  Np.Series_all (ingredient_validation rows) = false
  <-> Exists (fun r => ingredient_prices_asfed_tonne !! Ingredient r = None) rows.
Proof.
  rewrite <- not_true_iff_false, validation_passes_iff.
  split.
  - intros H. apply not_Forall_Exists in H; [|intros x; apply _].
    eapply Exists_impl; [exact H|]. intros r Hr. now apply not_elem_of_dom.
  - intros H HF. apply Exists_exists in H as (r & Hr & Hnone).
    rewrite Forall_forall in HF. specialize (HF r Hr).
    apply elem_of_dom in HF. rewrite Hnone in HF. now destruct HF.
Qed.

Lemma unmatched_ingredients_lookup rows :
  unmatched_ingredients rows
  = filter (fun x => ingredient_prices_asfed_tonne !! x = None) (Ingredient <$> rows).
Proof.
  rewrite unmatched_ingredients_spec. apply list_filter_iff.
  intros x. apply not_elem_of_dom.
Qed.

(** A ration that fails the validation has an identifier to report. *)
Lemma unmatched_ingredients_nonempty rows :
  Np.Series_all (ingredient_validation rows) = false -> unmatched_ingredients rows <> [].
Proof.
  intros Hbad. apply validation_fails_iff in Hbad.
  apply Exists_exists in Hbad as (r & Hr & Hnone). intros Hnil.
  assert (Hin : Ingredient r ∈ unmatched_ingredients rows).
  { rewrite unmatched_ingredients_lookup. apply list_elem_of_filter.
    split; [exact Hnone|]. apply list_elem_of_fmap. now exists r. }
  rewrite Hnil in Hin. now apply not_elem_of_nil in Hin.
Qed.

(* ===================================================================== *)
(** ** Further properties of the two calculators *)
(* ===================================================================== *)

(** X1. A ration with an identifier outside the module-level table makes
    [calc_IOFC_manual] raise [ValueError] at once, whatever the other
    arguments and [verbose] are: nothing is printed, nothing is allocated.
    The error carries every identifier of the ration that the table lacks,
    in row order, a repeated one as often as it occurs; the list is not
    empty. *)
Theorem manual_reports_unmatched_ingredients w mp mc ip rdf rows verbose :
  heap w !! rdf = Some (ORation rows) ->
  Exists (fun r => ingredient_prices_asfed_tonne !! Ingredient r = None) rows ->
  let unmatched :=
    filter (fun x => ingredient_prices_asfed_tonne !! x = None) (Ingredient <$> rows) in
  calc_IOFC_manual mp mc ip rdf verbose w = (inl (ValueError unmatched), w)
  /\ unmatched <> [].
Proof.
  intros Hrdf Hbad. cbv zeta. apply validation_fails_iff in Hbad.
  rewrite <- unmatched_ingredients_lookup. split.
  - now apply calc_IOFC_manual_rejects.
  - now apply unmatched_ingredients_nonempty.
Qed.

(** The example ration between two lines of Barley. *)
Lemma manual_reports_unmatched_ingredients_witness :
  calc_IOFC_manual milk_prices_ref milk_components_ref ingredient_prices_ref
    ration_df_ref true
    (manual_world milk_components barley_prices (barley_ration ++ ration_list ++ barley_ration))
  = (inl (ValueError ["Barley"; "Barley"]),
     manual_world milk_components barley_prices (barley_ration ++ ration_list ++ barley_ration)).
Proof.
  apply (manual_reports_unmatched_ingredients
           (manual_world milk_components barley_prices
              (barley_ration ++ ration_list ++ barley_ration))
           milk_prices_ref milk_components_ref ingredient_prices_ref ration_df_ref
           (barley_ration ++ ration_list ++ barley_ration) true).
  - reflexivity.
  - apply Exists_cons_hd. vm_compute. reflexivity.
Defined.

(** The start of a call whose ration passes the validation. *)
Lemma calc_IOFC_manual_validated w mp mc ip rdf rows verbose :
  heap w !! rdf = Some (ORation rows) ->
  Np.Series_all (ingredient_validation rows) = true ->
  calc_IOFC_manual mp mc ip rdf verbose w
  = (MY_kg_d <- getitem mc "MY_kg_d" ;;
     Milk_Fat_perc <- getitem mc "Milk_Fat_perc" ;;
     Milk_TProt_perc <- getitem mc "Milk_TProt_perc" ;;
     os_perc <- getitem mp "milk_other_solids_production_perc" ;;
     when verbose (print (PComponents (Milk_Fat_perc / 100 * MY_kg_d)
                            (Milk_TProt_perc / 100 * MY_kg_d) (os_perc / 100 * MY_kg_d))) ;;;
     p_fat <- getitem mp "milk_fat_dollar_kg" ;;
     p_prot <- getitem mp "milk_protein_dollar_kg" ;;
     p_os <- getitem mp "other_solids_dollar_kg" ;;
     let r := manual_revenue MY_kg_d Milk_Fat_perc Milk_TProt_perc os_perc p_fat p_prot p_os in
     when verbose (
       print (PDollars (fat_dollar_d r) (protein_dollar_d r) (other_dollar_d r)) ;;;
       print (PRevenue (revenue_dollar_per_d r))) ;;;
     price_asfed_t <- Series_map ip (Ingredient <$> rows) ;;
     ration_df' <- alloc (ORationCost (zip_with cost_line rows price_asfed_t)) ;;
     costed <- as_ration_cost ration_df' ;;
     let diet_cost_p_d := Np.Series_sum (daily_cost <$> costed) in
     when verbose (print (PFrame costed) ;;; print (PDietCost diet_cost_p_d)) ;;;
     when verbose (print (PIOFC (revenue_dollar_per_d r - diet_cost_p_d))) ;;;
     ret (revenue_dollar_per_d r - diet_cost_p_d)) w.
Proof.
  intros Hrdf Hok. unfold calc_IOFC_manual.
  rewrite (bind_run _ _ _ _ _ (as_ration_run _ _ _ Hrdf)). rewrite Hok. reflexivity.
Qed.

(** X2. When the ration passes the validation and the milk components lack
    a field, or the price catalog lacks the share of other solids, the
    manual calculator raises [KeyError] with the first missing key, in the
    order the code reads them: [MY_kg_d], [Milk_Fat_perc],
    [Milk_TProt_perc], [milk_other_solids_production_perc]. Nothing is
    printed before, also under [verbose], and nothing is allocated. *)
Theorem manual_missing_component_field
    w mp mc ip rdf d_mp d_mc prices rows verbose :
  manual_args w mp mc ip rdf d_mp d_mc prices rows ->
  Np.Series_all (ingredient_validation rows) = true ->
  let call := calc_IOFC_manual mp mc ip rdf verbose w in
  (d_mc !! "MY_kg_d" = None -> call = (inl (KeyError "MY_kg_d"), w))
  /\ (is_Some (d_mc !! "MY_kg_d") -> d_mc !! "Milk_Fat_perc" = None ->
      call = (inl (KeyError "Milk_Fat_perc"), w))
  /\ (is_Some (d_mc !! "MY_kg_d") -> is_Some (d_mc !! "Milk_Fat_perc") ->
      d_mc !! "Milk_TProt_perc" = None ->
      call = (inl (KeyError "Milk_TProt_perc"), w))
  /\ (is_Some (d_mc !! "MY_kg_d") -> is_Some (d_mc !! "Milk_Fat_perc") ->
      is_Some (d_mc !! "Milk_TProt_perc") ->
      d_mp !! "milk_other_solids_production_perc" = None ->
      call = (inl (KeyError "milk_other_solids_production_perc"), w)).
Proof.
  intros (Hmp & Hmc & Hip & Hrdf) Hok. cbv zeta.
  rewrite (calc_IOFC_manual_validated _ _ _ _ _ _ _ Hrdf Hok).
  repeat split.
  - intros H1. rewrite (bind_getitem _ _ _ _ _ Hmc), H1. reflexivity.
  - intros [MY H1] H2.
    rewrite (bind_getitem _ _ _ _ _ Hmc), H1.
    rewrite (bind_getitem _ _ _ _ _ Hmc), H2. reflexivity.
  - intros [MY H1] [fp H2] H3.
    rewrite (bind_getitem _ _ _ _ _ Hmc), H1.
    rewrite (bind_getitem _ _ _ _ _ Hmc), H2.
    rewrite (bind_getitem _ _ _ _ _ Hmc), H3. reflexivity.
  - intros [MY H1] [fp H2] [tp H3] H4.
    rewrite (bind_getitem _ _ _ _ _ Hmc), H1.
    rewrite (bind_getitem _ _ _ _ _ Hmc), H2.
    rewrite (bind_getitem _ _ _ _ _ Hmc), H3.
    rewrite (bind_getitem _ _ _ _ _ Hmp), H4. reflexivity.
Qed.

(** Milk components that hold the milk yield only. *)
Lemma manual_missing_component_field_witness :
  let w := manual_world {[ "MY_kg_d" := 31 ]} ingredient_prices_asfed_tonne ration_list in
  calc_IOFC_manual milk_prices_ref milk_components_ref ingredient_prices_ref
    ration_df_ref true w
  = (inl (KeyError "Milk_Fat_perc"), w).
Proof.
  cbv zeta.
  destruct (manual_missing_component_field
              (manual_world {[ "MY_kg_d" := 31 ]} ingredient_prices_asfed_tonne ration_list)
              milk_prices_ref milk_components_ref ingredient_prices_ref ration_df_ref
              milk_prices {[ "MY_kg_d" := 31 ]} ingredient_prices_asfed_tonne ration_list
              true) as (_ & H & _).
  - repeat split; reflexivity.
  - vm_compute. reflexivity.
  - apply H.
    + exists 31. vm_compute. reflexivity.
    + vm_compute. reflexivity.
Defined.

(** X3. When the ration passes the validation, the milk components have
    their fields and the price catalog has the share of other solids but
    lacks a price, the manual calculator raises [KeyError] with the first
    missing key, in the order [milk_fat_dollar_kg],
    [milk_protein_dollar_kg], [other_solids_dollar_kg]. Under [verbose] the
    line of component masses has been printed by then, and nothing else;
    nothing is allocated. *)
Theorem manual_missing_price_field
    w mp mc ip rdf d_mp d_mc prices rows MY fp tp os verbose :
  manual_args w mp mc ip rdf d_mp d_mc prices rows ->
  Np.Series_all (ingredient_validation rows) = true ->
  milk_components_fields d_mc MY fp tp ->
  d_mp !! "milk_other_solids_production_perc" = Some os ->
  let call := calc_IOFC_manual mp mc ip rdf verbose w in
  let line := PComponents (fp / 100 * MY) (tp / 100 * MY) (os / 100 * MY) in
  let w' := World (heap w) (if verbose then stdout w ++ [line] else stdout w)%list in
  (d_mp !! "milk_fat_dollar_kg" = None ->
   call = (inl (KeyError "milk_fat_dollar_kg"), w'))
  /\ (is_Some (d_mp !! "milk_fat_dollar_kg") ->
      d_mp !! "milk_protein_dollar_kg" = None ->
      call = (inl (KeyError "milk_protein_dollar_kg"), w'))
  /\ (is_Some (d_mp !! "milk_fat_dollar_kg") ->
      is_Some (d_mp !! "milk_protein_dollar_kg") ->
      d_mp !! "other_solids_dollar_kg" = None ->
      call = (inl (KeyError "other_solids_dollar_kg"), w')).
Proof.
  intros (Hmp & Hmc & Hip & Hrdf) Hok (HMY & Hfp & Htp) Hos. cbv zeta.
  rewrite (calc_IOFC_manual_validated _ _ _ _ _ _ _ Hrdf Hok).
  rewrite (bind_getitem _ _ _ _ _ Hmc), HMY.
  rewrite (bind_getitem _ _ _ _ _ Hmc), Hfp.
  rewrite (bind_getitem _ _ _ _ _ Hmc), Htp.
  rewrite (bind_getitem _ _ _ _ _ Hmp), Hos.
  assert (Hw : forall (B : Type) (k : unit -> Py B),
             bind (when verbose
                     (print (PComponents (fp / 100 * MY) (tp / 100 * MY) (os / 100 * MY))))
                  k w
             = k tt (World (heap w)
                       (if verbose
                        then stdout w ++ [PComponents (fp / 100 * MY) (tp / 100 * MY)
                                            (os / 100 * MY)]
                        else stdout w)%list)).
  { intros B k. destruct verbose; cbn [when]; [reflexivity|]. now destruct w. }
  rewrite Hw.
  repeat split.
  - intros H1. rewrite (bind_getitem (World _ _) _ _ _ _ Hmp), H1. reflexivity.
  - intros [pf H1] H2.
    rewrite (bind_getitem (World _ _) _ _ _ _ Hmp), H1.
    rewrite (bind_getitem (World _ _) _ _ _ _ Hmp), H2. reflexivity.
  - intros [pf H1] [pp H2] H3.
    rewrite (bind_getitem (World _ _) _ _ _ _ Hmp), H1.
    rewrite (bind_getitem (World _ _) _ _ _ _ Hmp), H2.
    rewrite (bind_getitem (World _ _) _ _ _ _ Hmp), H3. reflexivity.
Qed.

(** The example call with a price catalog that has lost the protein price. *)
Lemma manual_missing_price_field_witness :
  let catalog := delete "milk_protein_dollar_kg" milk_prices in
  let objects := [ODict catalog; ODict milk_components;
                  ODict ingredient_prices_asfed_tonne; ORation ration_list] in
  calc_IOFC_manual milk_prices_ref milk_components_ref ingredient_prices_ref
    ration_df_ref true (World objects [])
  = (inl (KeyError "milk_protein_dollar_kg"),
     World objects [PComponents 1.116 1.0230000000000001 1.7670000000000001]).
Proof.
  cbv zeta.
  destruct (manual_missing_price_field
              (World [ODict (delete "milk_protein_dollar_kg" milk_prices);
                      ODict milk_components; ODict ingredient_prices_asfed_tonne;
                      ORation ration_list] [])
              milk_prices_ref milk_components_ref ingredient_prices_ref ration_df_ref
              (delete "milk_protein_dollar_kg" milk_prices) milk_components
              ingredient_prices_asfed_tonne ration_list 31 3.6 3.3 5.7 true)
    as (_ & H & _).
  - repeat split; reflexivity.
  - vm_compute. reflexivity.
  - repeat split; vm_compute; reflexivity.
  - vm_compute. reflexivity.
  - apply H.
    + exists 13.3. vm_compute. reflexivity.
    + vm_compute. reflexivity.
Defined.

(** The start of a call of the model calculator on well-formed arguments. *)
Lemma bind_get_value {B} w a values di k (f : option float -> Py B) :
  heap w !! a = Some (OModelOutput values di) ->
  bind (get_value a k) f w = f (values !! k) w.
Proof. intros H. unfold get_value, bind, deref. now rewrite H. Qed.

Lemma bind_operand {B} v (f : float -> Py B) w : bind (operand (Some v)) f w = f v w.
Proof. reflexivity. Qed.

(** X4. When the model output has its three values and the price catalog
    lacks a field, the model calculator raises [KeyError] with the first
    missing key, in the order the code reads them: [milk_fat_dollar_kg],
    [milk_protein_dollar_kg], [milk_other_solids_production_perc],
    [other_solids_dollar_kg]. This happens before the diet table is read:
    nothing is allocated. *)
Theorem nd_missing_price_field
    w mp ip mo d_mp prices values rows g_fat g_np MY :
  nd_args w mp ip mo d_mp prices values rows ->
  model_values values g_fat g_np MY ->
  let call := calc_IOFC_nd mp ip mo w in
  (d_mp !! "milk_fat_dollar_kg" = None ->
   call = (inl (KeyError "milk_fat_dollar_kg"), w))
  /\ (is_Some (d_mp !! "milk_fat_dollar_kg") ->
      d_mp !! "milk_protein_dollar_kg" = None ->
      call = (inl (KeyError "milk_protein_dollar_kg"), w))
  /\ (is_Some (d_mp !! "milk_fat_dollar_kg") ->
      is_Some (d_mp !! "milk_protein_dollar_kg") ->
      d_mp !! "milk_other_solids_production_perc" = None ->
      call = (inl (KeyError "milk_other_solids_production_perc"), w))
  /\ (is_Some (d_mp !! "milk_fat_dollar_kg") ->
      is_Some (d_mp !! "milk_protein_dollar_kg") ->
      is_Some (d_mp !! "milk_other_solids_production_perc") ->
      d_mp !! "other_solids_dollar_kg" = None ->
      call = (inl (KeyError "other_solids_dollar_kg"), w)).
Proof.
  intros (di & Hmp & Hip & Hmo & Hdi) (Hgf & Hgn & HMY). cbv zeta.
  unfold calc_IOFC_nd.
  rewrite (bind_get_value _ _ _ _ _ _ Hmo), Hgf, bind_operand.
  repeat split.
  - intros H1. rewrite (bind_getitem _ _ _ _ _ Hmp), H1. reflexivity.
  - intros [pf H1] H2.
    rewrite (bind_getitem _ _ _ _ _ Hmp), H1.
    rewrite (bind_get_value _ _ _ _ _ _ Hmo), Hgn, bind_operand.
    rewrite (bind_getitem _ _ _ _ _ Hmp), H2. reflexivity.
  - intros [pf H1] [pp H2] H3.
    rewrite (bind_getitem _ _ _ _ _ Hmp), H1.
    rewrite (bind_get_value _ _ _ _ _ _ Hmo), Hgn, bind_operand.
    rewrite (bind_getitem _ _ _ _ _ Hmp), H2.
    rewrite (bind_get_value _ _ _ _ _ _ Hmo), HMY.
    rewrite (bind_getitem _ _ _ _ _ Hmp), H3. reflexivity.
  - intros [pf H1] [pp H2] [os H3] H4.
    rewrite (bind_getitem _ _ _ _ _ Hmp), H1.
    rewrite (bind_get_value _ _ _ _ _ _ Hmo), Hgn, bind_operand.
    rewrite (bind_getitem _ _ _ _ _ Hmp), H2.
    rewrite (bind_get_value _ _ _ _ _ _ Hmo), HMY.
    rewrite (bind_getitem _ _ _ _ _ Hmp), H3, bind_operand.
    rewrite (bind_getitem _ _ _ _ _ Hmp), H4. reflexivity.
Qed.

(** The diet of the notebook with a price catalog without milk prices. *)
Lemma nd_missing_price_field_witness :
  let catalog : gmap string float := {[ "milk_other_solids_production_perc" := 5.7 ]} in
  let w := World [ODict catalog; ODict ingredient_prices_asfed_tonne;
                  OModelOutput outputs_nd diet_info_ref; ODiet diet_nd] [] in
  calc_IOFC_nd milk_prices_ref nd_prices_ref mod_output_ref w
  = (inl (KeyError "milk_fat_dollar_kg"), w).
Proof.
  cbv zeta.
  destruct (nd_missing_price_field
              (World [ODict {[ "milk_other_solids_production_perc" := 5.7 ]};
                      ODict ingredient_prices_asfed_tonne;
                      OModelOutput outputs_nd diet_info_ref; ODiet diet_nd] [])
              milk_prices_ref nd_prices_ref mod_output_ref
              {[ "milk_other_solids_production_perc" := 5.7 ]}
              ingredient_prices_asfed_tonne outputs_nd diet_nd
              1070.676 981.453 29.741) as (H & _).
  - exists diet_info_ref. repeat split; reflexivity.
  - repeat split; vm_compute; reflexivity.
  - apply H. vm_compute. reflexivity.
Defined.

(** X5. What a successful call under [verbose] prints, in order: the three
    component masses; the three dollar amounts, each a printed mass times
    its price; the revenue, their sum; the table with the cost columns,
    one row per ration line in the order of the ration, the three input
    columns as they were; the diet cost, the sum of the [daily_cost]
    column of that table; and the IOFC, the printed revenue minus the
    printed diet cost, which is the value returned. *)
Theorem manual_verbose_trace
    w mp mc ip rdf d_mp d_mc prices rows MY fp tp os pf pp po :
  manual_args w mp mc ip rdf d_mp d_mc prices rows ->
  milk_prices_fields d_mp os pf pp po ->
  milk_components_fields d_mc MY fp tp ->
  Np.Series_all (ingredient_validation rows) = true ->
  let fat_kg := fp / 100 * MY in
  let TP_kg := tp / 100 * MY in
  let other_kg := os / 100 * MY in
  let revenue := fat_kg * pf + TP_kg * pp + other_kg * po in
  let table := assign_cost prices <$> rows in
  let diet_cost := Np.Series_sum (daily_cost <$> table) in
  let call := calc_IOFC_manual mp mc ip rdf true w in
  fst call = inr (revenue - diet_cost)
  /\ stdout (snd call)
     = (stdout w ++ [ PComponents fat_kg TP_kg other_kg;
                      PDollars (fat_kg * pf) (TP_kg * pp) (other_kg * po);
                      PRevenue revenue;
                      PFrame table;
                      PDietCost diet_cost;
                      PIOFC (revenue - diet_cost) ])%list
  /\ cl_Ingredient <$> table = Ingredient <$> rows
  /\ cl_kg_inclusion <$> table = kg_inclusion <$> rows
  /\ cl_DM_perc <$> table = DM_perc <$> rows.
Proof.
  intros (Hmp & Hmc & Hip & Hrdf) (Hos & Hpf & Hpp & Hpo) (HMY & Hfp & Htp) Hok.
  cbv zeta.
  rewrite (calc_IOFC_manual_validated _ _ _ _ _ _ _ Hrdf Hok).
  rewrite (bind_getitem _ _ _ _ _ Hmc), HMY.
  rewrite (bind_getitem _ _ _ _ _ Hmc), Hfp.
  rewrite (bind_getitem _ _ _ _ _ Hmc), Htp.
  rewrite (bind_getitem _ _ _ _ _ Hmp), Hos.
  cbn [when]. rewrite bind_print.
  rewrite (bind_getitem (World _ _) _ _ _ _ Hmp), Hpf.
  rewrite (bind_getitem (World _ _) _ _ _ _ Hmp), Hpp.
  rewrite (bind_getitem (World _ _) _ _ _ _ Hmp), Hpo.
  cbv zeta. rewrite bind_bind, !bind_print.
  rewrite (bind_run _ _ _ _ _ (Series_map_run (World _ _) _ _ _ Hip)),
      ?cost_line_column, ?diet_cost_row_column.
  rewrite bind_alloc. cbn [heap stdout]. rewrite as_ration_cost_fresh.
  rewrite bind_bind, !bind_print. cbn [heap stdout fst snd ret].
  repeat split.
  - now rewrite <- !app_assoc.
  - rewrite <- list_fmap_compose. reflexivity.
  - rewrite <- list_fmap_compose. reflexivity.
  - rewrite <- list_fmap_compose. reflexivity.
Qed.

(** The verbose run of the notebook. *)
Lemma manual_verbose_trace_witness :
  let call := calc_IOFC_manual milk_prices_ref milk_components_ref
                ingredient_prices_ref ration_df_ref true notebook in
  let table := assign_cost ingredient_prices_asfed_tonne <$> ration_list in
  let fat_kg := 3.6 / 100 * 31 in
  let TP_kg := 3.3 / 100 * 31 in
  let other_kg := 5.7 / 100 * 31 in
  let revenue := fat_kg * 13.3 + TP_kg * 10.96 + other_kg * 0.9 in
  let diet_cost := Np.Series_sum (daily_cost <$> table) in
  fst call = inr (revenue - diet_cost)
  /\ stdout (snd call)
     = [ PComponents fat_kg TP_kg other_kg;
         PDollars (fat_kg * 13.3) (TP_kg * 10.96) (other_kg * 0.9);
         PRevenue revenue;
         PFrame table;
         PDietCost diet_cost;
         PIOFC (revenue - diet_cost) ].
Proof.
  cbv zeta.
  destruct (manual_verbose_trace notebook
              milk_prices_ref milk_components_ref ingredient_prices_ref ration_df_ref
              milk_prices milk_components ingredient_prices_asfed_tonne ration_list
              31 3.6 3.3 5.7 13.3 10.96 0.9) as (Hv & Hout & _).
  - repeat split; reflexivity.
  - repeat split; vm_compute; reflexivity.
  - repeat split; vm_compute; reflexivity.
  - vm_compute. reflexivity.
  - split; [exact Hv | exact Hout].
Defined.

(* ===================================================================== *)
(** ** Sums whose terms share a property *)
(* ===================================================================== *)

Section SumsOf.

Variable P : float -> Prop.
Hypothesis P_zero : P 0.
Hypothesis P_add : forall x y, P x -> P y -> P (x + y).

Lemma sum_loop_closed a : forall res, P res -> Forall P a -> P (Np.sum_loop res a).
Proof.
  unfold Np.sum_loop. induction a as [|x a IH]; intros res Hres Ha; [exact Hres|].
  apply Forall_cons in Ha as [Hx Ha]. cbn [fold_left].
  apply IH; [now apply P_add | exact Ha].
Qed.

Lemma zip_with_add_closed r : forall a,
  Forall P r -> Forall P a -> Forall P (zip_with add r a).
Proof.
  induction r as [|x r IH]; intros [|y a] Hr Ha; cbn; try constructor.
  - apply Forall_cons in Hr as [Hx _], Ha as [Hy _]. now apply P_add.
  - apply Forall_cons in Hr as [_ Hr], Ha as [_ Ha]. now apply IH.
Qed.

Lemma unrolled_closed blocks : forall r a,
  Forall P r -> Forall P a ->
  Forall P (fst (Np.unrolled blocks r a)) /\ Forall P (snd (Np.unrolled blocks r a)).
Proof.
  induction blocks as [|b IH]; intros r a Hr Ha; cbn [Np.unrolled]; [now split|].
  apply IH.
  - apply zip_with_add_closed; [exact Hr | now apply Forall_take].
  - now apply Forall_drop.
Qed.

Lemma acc8_closed r j : Forall P r -> P (Np.acc8 r j).
Proof.
  unfold Np.acc8. intros Hr. revert j.
  induction Hr as [|x r Hx Hr IH]; intros [|j]; cbn; auto.
Qed.

Lemma block_sum_closed a : Forall P a -> P (Np.block_sum a).
Proof.
  intros Ha. unfold Np.block_sum.
  pose proof (unrolled_closed (length a / 8 - 1) (take 8 a) (drop 8 a)
                (Forall_take _ _ _ Ha) (Forall_drop _ _ _ Ha)) as [Hr Hrest].
  destruct (Np.unrolled _ _ _) as [r rest]. cbn [fst snd] in *.
  apply sum_loop_closed; [|exact Hrest].
  unfold Np.tree8. repeat apply P_add; now apply acc8_closed.
Qed.

Lemma pairwise_sum_closed fuel : forall a, Forall P a -> P (Np.pairwise_sum fuel a).
Proof.
  induction fuel as [|f IH]; intros a Ha; cbn [Np.pairwise_sum];
    destruct (length a <? 8)%nat; try (now apply sum_loop_closed);
    destruct (length a <=? Np.PW_BLOCKSIZE)%nat; try (now apply block_sum_closed).
  apply P_add; apply IH; [now apply Forall_take | now apply Forall_drop].
Qed.

(** A property that zero has and that sums keep holds of the sum of an
    array whose elements have it, however the pairwise summation groups
    them. *)
Lemma sum_closed a : Forall P a -> P (Np.sum a).
Proof.
  intros Ha. unfold Np.sum. apply P_add; [exact P_zero | now apply pairwise_sum_closed].
Qed.

End SumsOf.

(** A column without a number sums to zero. *)
Lemma Series_sum_all_nan s :
  Forall (fun x => is_nan x = true) s -> Np.Series_sum s = 0.
Proof.
  intros Hs. unfold Np.Series_sum.
  apply (sum_closed (fun x => x = 0)); [reflexivity | now intros x y -> -> |].
  apply Forall_fmap. eapply Forall_impl; [exact Hs|].
  intros x Hx. cbn. unfold Np.fillna0, Np.isna. now rewrite Hx.
Qed.

Lemma daily_cost_unpriced prices r :
  prices !! Ingredient r = None -> daily_cost (assign_cost prices r) = nan.
Proof.
  intros Hnone. unfold assign_cost, cost_line, Np.map_dict. cbn [daily_cost]. rewrite Hnone.
  change (kg_inclusion r * (nan / DM_perc r * 100 / 1000) = nan).
  now rewrite B64Facts.nan_div, B64Facts.nan_mul, B64Facts.nan_div, B64Facts.mul_nan.
Qed.

Lemma dollar_fed_unpriced prices r :
  prices !! Feedstuff r = None -> dollar_fed_p_d (assign_diet_cost prices r) = nan.
Proof.
  intros Hnone. unfold assign_diet_cost, diet_cost_row, Np.map_dict. cbn [dollar_fed_p_d]. rewrite Hnone.
  change (nan / Fd_DM r * 100 / 1000 * Fd_DMIn r = nan).
  now rewrite B64Facts.nan_div, B64Facts.nan_mul.
Qed.

(** X6. A table of which no line has a price in [ingredient_prices] costs
    nothing: each calculator then returns the revenue itself. This covers
    the empty ration and the empty diet table, which the manual validation
    lets pass, and an empty price table. *)
Theorem unpriced_table_returns_revenue :
  (forall w mp mc ip rdf d_mp d_mc prices rows MY fp tp os pf pp po verbose,
      manual_args w mp mc ip rdf d_mp d_mc prices rows ->
      milk_prices_fields d_mp os pf pp po ->
      milk_components_fields d_mc MY fp tp ->
      Np.Series_all (ingredient_validation rows) = true ->
      Forall (fun r => prices !! Ingredient r = None) rows ->
      fst (calc_IOFC_manual mp mc ip rdf verbose w)
      = inr (revenue_dollar_per_d (manual_revenue MY fp tp os pf pp po)))
  /\
  (forall w mp ip mo d_mp prices values rows g_fat g_np MY os pf pp po,
      nd_args w mp ip mo d_mp prices values rows ->
      milk_prices_fields d_mp os pf pp po ->
      model_values values g_fat g_np MY ->
      Forall (fun r => prices !! Feedstuff r = None) rows ->
      fst (calc_IOFC_nd mp ip mo w)
      = inr (revenue_dollar_per_d (nd_revenue g_fat g_np MY os pf pp po))).
Proof.
  split.
  - intros w mp mc ip rdf d_mp d_mc prices rows MY fp tp os pf pp po verbose
      Hargs Hmp Hmc Hok Hnone.
    rewrite (calc_IOFC_manual_run w mp mc ip rdf d_mp d_mc prices rows
               MY fp tp os pf pp po verbose Hargs Hmp Hmc Hok).
    rewrite Series_sum_all_nan, sub_zero; [reflexivity|].
    rewrite <- list_fmap_compose. apply Forall_fmap.
    eapply Forall_impl; [exact Hnone|]. intros r Hr.
    unfold compose. now rewrite (daily_cost_unpriced _ _ Hr).
  - intros w mp ip mo d_mp prices values rows g_fat g_np MY os pf pp po
      Hargs Hmp Hmo Hnone.
    rewrite (calc_IOFC_nd_run w mp ip mo d_mp prices values rows
               g_fat g_np MY os pf pp po Hargs Hmp Hmo).
    rewrite Series_sum_all_nan, sub_zero; [reflexivity|].
    rewrite <- list_fmap_compose. apply Forall_fmap.
    eapply Forall_impl; [exact Hnone|]. intros r Hr.
    unfold compose. now rewrite (dollar_fed_unpriced _ _ Hr).
Qed.

(** The example ration with an empty price table, and the diet of the
    notebook with the price table of Barley. *)
Lemma unpriced_table_returns_revenue_witness :
  fst (run_manual milk_components ∅ ration_list false) = inr 27.645180000000003
  /\ fst (run_nd barley_prices outputs_nd diet_nd) = inr 26.522428980000001.
Proof.
  destruct unpriced_table_returns_revenue as [Hmanual Hnd]. split.
  - apply (Hmanual (manual_world milk_components ∅ ration_list)
             milk_prices_ref milk_components_ref ingredient_prices_ref ration_df_ref
             milk_prices milk_components ∅ ration_list
             31 3.6 3.3 5.7 13.3 10.96 0.9 false).
    + repeat split; reflexivity.
    + repeat split; vm_compute; reflexivity.
    + repeat split; vm_compute; reflexivity.
    + vm_compute. reflexivity.
    + repeat constructor.
  - apply (Hnd (nd_world barley_prices outputs_nd diet_nd)
             milk_prices_ref nd_prices_ref mod_output_ref
             milk_prices barley_prices outputs_nd diet_nd
             1070.676 981.453 29.741 5.7 13.3 10.96 0.9).
    + exists diet_info_ref. repeat split; reflexivity.
    + repeat split; vm_compute; reflexivity.
    + repeat split; vm_compute; reflexivity.
    + repeat constructor.
Defined.

Lemma assign_cost_ext prices1 prices2 (rows : list RationLine) :
  (forall r, r ∈ rows -> prices1 !! Ingredient r = prices2 !! Ingredient r) ->
  assign_cost prices1 <$> rows = assign_cost prices2 <$> rows.
Proof.
  intros H. apply list_fmap_ext. intros i r Hr.
  unfold assign_cost, cost_line, Np.map_dict. now rewrite (H r (list_elem_of_lookup_2 _ _ _ Hr)).
Qed.

Lemma assign_diet_cost_ext prices1 prices2 (rows : list DietRow) :
  (forall r, r ∈ rows -> prices1 !! Feedstuff r = prices2 !! Feedstuff r) ->
  assign_diet_cost prices1 <$> rows = assign_diet_cost prices2 <$> rows.
Proof.
  intros H. apply list_fmap_ext. intros i r Hr.
  unfold assign_diet_cost, diet_cost_row, Np.map_dict. now rewrite (H r (list_elem_of_lookup_2 _ _ _ Hr)).
Qed.

(** One lookup in the same dict on both sides of an equation between two
    calls. *)
Ltac both_getitem H1 H2 :=
  rewrite (bind_getitem _ _ _ _ _ H1), (bind_getitem _ _ _ _ _ H2);
  match goal with |- context [match ?d !! ?k with _ => _ end] =>
    destruct (d !! k); [|reflexivity] end.

Ltac both_get_value H1 H2 :=
  rewrite (bind_get_value _ _ _ _ _ _ H1), (bind_get_value _ _ _ _ _ _ H2).

Ltac both_operand :=
  match goal with |- context [operand (?d !! ?k)] =>
    destruct (d !! k); [rewrite !bind_operand|reflexivity] end.

(** X7. Of the price table only the entries of the identifiers in the
    table of feeds are used: two calls that differ in the price table
    alone, the two tables giving every identifier of the ration (of the
    diet table) the same price or both none, have the same outcome, be it
    a number or an error. *)
Theorem only_prices_of_the_ration_are_used :
  (forall w1 w2 mp1 mc1 ip1 rdf1 mp2 mc2 ip2 rdf2 d_mp d_mc prices1 prices2 rows verbose,
      manual_args w1 mp1 mc1 ip1 rdf1 d_mp d_mc prices1 rows ->
      manual_args w2 mp2 mc2 ip2 rdf2 d_mp d_mc prices2 rows ->
      (forall r, r ∈ rows -> prices1 !! Ingredient r = prices2 !! Ingredient r) ->
      fst (calc_IOFC_manual mp1 mc1 ip1 rdf1 verbose w1)
      = fst (calc_IOFC_manual mp2 mc2 ip2 rdf2 verbose w2))
  /\
  (forall w1 w2 mp1 ip1 mo1 mp2 ip2 mo2 d_mp prices1 prices2 values rows,
      nd_args w1 mp1 ip1 mo1 d_mp prices1 values rows ->
      nd_args w2 mp2 ip2 mo2 d_mp prices2 values rows ->
      (forall r, r ∈ rows -> prices1 !! Feedstuff r = prices2 !! Feedstuff r) ->
      fst (calc_IOFC_nd mp1 ip1 mo1 w1) = fst (calc_IOFC_nd mp2 ip2 mo2 w2)).
Proof.
  split.
  - intros w1 w2 mp1 mc1 ip1 rdf1 mp2 mc2 ip2 rdf2 d_mp d_mc prices1 prices2 rows verbose
      (Hmp1 & Hmc1 & Hip1 & Hrdf1) (Hmp2 & Hmc2 & Hip2 & Hrdf2) Hsame.
    destruct (Np.Series_all (ingredient_validation rows)) eqn:Hok.
    2: { now rewrite !(calc_IOFC_manual_rejects _ _ _ _ _ rows). }
    rewrite (calc_IOFC_manual_validated _ _ _ _ _ _ _ Hrdf1 Hok).
    rewrite (calc_IOFC_manual_validated _ _ _ _ _ _ _ Hrdf2 Hok).
    both_getitem Hmc1 Hmc2. both_getitem Hmc1 Hmc2. both_getitem Hmc1 Hmc2.
    both_getitem Hmp1 Hmp2.
    destruct verbose; cbn [when]; rewrite ?bind_print, ?bind_ret.
    + rewrite (bind_getitem (World _ _) _ _ _ _ Hmp1),
        (bind_getitem (World _ _) _ _ _ _ Hmp2).
      destruct (d_mp !! "milk_fat_dollar_kg"); [|reflexivity].
      rewrite (bind_getitem (World _ _) _ _ _ _ Hmp1),
        (bind_getitem (World _ _) _ _ _ _ Hmp2).
      destruct (d_mp !! "milk_protein_dollar_kg"); [|reflexivity].
      rewrite (bind_getitem (World _ _) _ _ _ _ Hmp1),
        (bind_getitem (World _ _) _ _ _ _ Hmp2).
      destruct (d_mp !! "other_solids_dollar_kg"); [|reflexivity].
      cbv zeta. rewrite !bind_bind, !bind_print.
      rewrite (bind_run _ _ _ _ _ (Series_map_run (World _ _) _ _ _ Hip1)),
      ?cost_line_column, ?diet_cost_row_column.
      rewrite (bind_run _ _ _ _ _ (Series_map_run (World _ _) _ _ _ Hip2)),
      ?cost_line_column, ?diet_cost_row_column.
      rewrite !bind_alloc. cbn [heap stdout]. rewrite !as_ration_cost_fresh.
      rewrite !bind_bind, !bind_print. cbn [fst ret].
      now rewrite (assign_cost_ext _ _ _ Hsame).
    + both_getitem Hmp1 Hmp2. both_getitem Hmp1 Hmp2. both_getitem Hmp1 Hmp2.
      cbv zeta. rewrite !bind_ret.
      rewrite (bind_run _ _ _ _ _ (Series_map_run _ _ _ _ Hip1)),
      ?cost_line_column, ?diet_cost_row_column.
      rewrite (bind_run _ _ _ _ _ (Series_map_run _ _ _ _ Hip2)),
      ?cost_line_column, ?diet_cost_row_column.
      rewrite !bind_alloc. rewrite !as_ration_cost_fresh.
      rewrite !bind_ret. cbn [fst ret].
      now rewrite (assign_cost_ext _ _ _ Hsame).
  - intros w1 w2 mp1 ip1 mo1 mp2 ip2 mo2 d_mp prices1 prices2 values rows
      (di1 & Hmp1 & Hip1 & Hmo1 & Hdi1) (di2 & Hmp2 & Hip2 & Hmo2 & Hdi2) Hsame.
    unfold calc_IOFC_nd.
    both_get_value Hmo1 Hmo2. both_operand. both_getitem Hmp1 Hmp2.
    both_get_value Hmo1 Hmo2. both_operand. both_getitem Hmp1 Hmp2.
    both_get_value Hmo1 Hmo2. both_getitem Hmp1 Hmp2. both_operand.
    both_getitem Hmp1 Hmp2.
    rewrite (bind_run _ _ _ _ _ (Intakes_diet_info_run _ _ _ _ Hmo1)).
    rewrite (bind_run _ _ _ _ _ (Intakes_diet_info_run _ _ _ _ Hmo2)).
    rewrite (bind_run _ _ _ _ _ (as_diet_run _ _ _ Hdi1)).
    rewrite (bind_run _ _ _ _ _ (as_diet_run _ _ _ Hdi2)).
    rewrite !bind_alloc.
    rewrite (bind_run _ _ _ _ _ (as_diet_run (World _ _) _ _ (lookup_fresh _ _))).
    rewrite (bind_run _ _ _ _ _ (as_diet_run (World _ _) _ _ (lookup_fresh _ _))).
    rewrite (bind_run _ _ _ _ _ (Series_map_run (World _ _) _ _ _ (lookup_old _ _ _ _ Hip1))),
      ?cost_line_column, ?diet_cost_row_column.
    rewrite (bind_run _ _ _ _ _ (Series_map_run (World _ _) _ _ _ (lookup_old _ _ _ _ Hip2))),
      ?cost_line_column, ?diet_cost_row_column.
    rewrite !bind_alloc. cbn [heap stdout].
    unfold as_diet_cost, bind, deref. cbn [heap]. rewrite !lookup_fresh.
    cbn [fst ret]. now rewrite (assign_diet_cost_ext _ _ _ Hsame).
Qed.

(** The example call with a price table that has lost Tallow, which the
    ration does not feed. *)
Lemma only_prices_of_the_ration_are_used_witness :
  fst (run_manual milk_components (delete "Tallow" ingredient_prices_asfed_tonne)
         ration_list false)
  = fst (run_manual milk_components ingredient_prices_asfed_tonne ration_list false).
Proof.
  destruct only_prices_of_the_ration_are_used as [Hmanual _].
  apply (Hmanual
           (manual_world milk_components (delete "Tallow" ingredient_prices_asfed_tonne)
              ration_list)
           (manual_world milk_components ingredient_prices_asfed_tonne ration_list)
           milk_prices_ref milk_components_ref ingredient_prices_ref ration_df_ref
           milk_prices_ref milk_components_ref ingredient_prices_ref ration_df_ref
           milk_prices milk_components
           (delete "Tallow" ingredient_prices_asfed_tonne) ingredient_prices_asfed_tonne
           ration_list false).
  - repeat split; reflexivity.
  - repeat split; reflexivity.
  - intros r Hr. unfold ration_list in Hr.
    repeat (apply elem_of_cons in Hr as [->|Hr]; [vm_compute; reflexivity|]).
    now apply elem_of_nil in Hr.
Defined.

(** X8. The model calculator has no validation: whenever the model output
    has its three values and the price catalog its four fields, the call
    returns a number, whatever the diet table and the price table hold. A
    feedstuff without a price gets a NaN price and a NaN cost, which the
    sum counts as zero, so that the value returned is the revenue minus
    the cost of the priced rows. *)
Theorem nd_unpriced_row_counts_as_zero
    w mp ip mo d_mp prices values rows g_fat g_np MY os pf pp po :
  nd_args w mp ip mo d_mp prices values rows ->
  milk_prices_fields d_mp os pf pp po ->
  model_values values g_fat g_np MY ->
  fst (calc_IOFC_nd mp ip mo w)
  = inr (revenue_dollar_per_d (nd_revenue g_fat g_np MY os pf pp po)
         - Np.sum (counted_row_cost prices <$> rows))
  /\ (forall r, r ∈ rows -> prices !! Feedstuff r = None ->
        dollar_t_as_fed (assign_diet_cost prices r) = nan
        /\ dollar_fed_p_d (assign_diet_cost prices r) = nan
        /\ counted_row_cost prices r = 0).
Proof.
  intros Hargs Hmp Hmo. split.
  - rewrite <- diet_cost_counted, <- dollar_fed_column.
    now apply (calc_IOFC_nd_run w mp ip mo d_mp prices values).
  - intros r _ Hnone. repeat split.
    + unfold assign_diet_cost, diet_cost_row, Np.map_dict. cbn [dollar_t_as_fed]. now rewrite Hnone.
    + now apply dollar_fed_unpriced.
    + unfold counted_row_cost. now rewrite Hnone.
Qed.

(** The diet of the notebook, of which the price table lacks Wheat straw
    and Corn silage. *)
Lemma nd_unpriced_row_counts_as_zero_witness :
  fst (run_nd ingredient_prices_asfed_tonne outputs_nd diet_nd)
  = inr (revenue_dollar_per_d (nd_revenue 1070.676 981.453 29.741 5.7 13.3 10.96 0.9)
         - Np.sum (counted_row_cost ingredient_prices_asfed_tonne <$> diet_nd))
  /\ counted_row_cost ingredient_prices_asfed_tonne
       {| Feedstuff := "Corn silage"; Fd_DMInp := 8.2; Fd_DM := 33; Fd_DMIn := 8.2 |} = 0.
Proof.
  destruct (nd_unpriced_row_counts_as_zero
              (nd_world ingredient_prices_asfed_tonne outputs_nd diet_nd)
              milk_prices_ref nd_prices_ref mod_output_ref
              milk_prices ingredient_prices_asfed_tonne outputs_nd diet_nd
              1070.676 981.453 29.741 5.7 13.3 10.96 0.9) as [Hv Hz].
  - exists diet_info_ref. repeat split; reflexivity.
  - repeat split; vm_compute; reflexivity.
  - repeat split; vm_compute; reflexivity.
  - split; [exact Hv|].
    apply Hz; [|vm_compute; reflexivity].
    unfold diet_nd. do 2 apply list_elem_of_further. apply list_elem_of_here.
Defined.

(** The two calculators multiply the price per kg of dry matter and the
    mass in opposite orders, which gives the same cost. *)
Lemma line_cost_row_cost kg p dm : line_cost kg p dm = row_cost kg p dm.
Proof. unfold line_cost, row_cost. apply mul_comm. Qed.

(** A ration line and a diet row that stand for the same feed. *)
Lemma same_feed_same_cost prices (rows : list RationLine) (diet : list DietRow) :
  Forall2 (fun r d => Ingredient r = Feedstuff d
                      /\ kg_inclusion r = Fd_DMIn d /\ DM_perc r = Fd_DM d) rows diet ->
  daily_cost <$> (assign_cost prices <$> rows)
  = dollar_fed_p_d <$> (assign_diet_cost prices <$> diet).
Proof.
  induction 1 as [|r d rows diet (Hn & Hkg & Hdm) _ IH]; [reflexivity|].
  rewrite !fmap_cons, IH. f_equal.
  unfold assign_cost, assign_diet_cost, cost_line, diet_cost_row. cbn [daily_cost dollar_fed_p_d].
  rewrite Hn, Hkg, Hdm. apply mul_comm.
Qed.

(** X9. The two calculators agree. When the diet table of the model output
    lists the feeds of the ration, row by row with the same identifier,
    mass and dry-matter percentage, the two cost columns are equal, entry
    by entry; when moreover the gram outputs of the model divided by 1000
    are the component masses of the manual path and [Mlk_Prod] is the milk
    yield, the two calculators return the same value at the same prices. *)
Theorem calculators_agree_on_same_feeds
    wm mp mc ip rdf d_mc rows verbose
    wn mp' ip' mo values diet
    d_mp prices g_fat g_np Mlk_Prod MY fp tp os pf pp po :
  manual_args wm mp mc ip rdf d_mp d_mc prices rows ->
  nd_args wn mp' ip' mo d_mp prices values diet ->
  milk_prices_fields d_mp os pf pp po ->
  milk_components_fields d_mc MY fp tp ->
  model_values values g_fat g_np Mlk_Prod ->
  Np.Series_all (ingredient_validation rows) = true ->
  g_fat / 1000 = fp / 100 * MY ->
  g_np / 1000 = tp / 100 * MY ->
  Mlk_Prod = MY ->
  Forall2 (fun r d => Ingredient r = Feedstuff d
                      /\ kg_inclusion r = Fd_DMIn d /\ DM_perc r = Fd_DM d) rows diet ->
  daily_cost <$> (assign_cost prices <$> rows)
  = dollar_fed_p_d <$> (assign_diet_cost prices <$> diet)
  /\ fst (calc_IOFC_manual mp mc ip rdf verbose wm) = fst (calc_IOFC_nd mp' ip' mo wn).
Proof.
  intros Hm Hn Hp Hc Hv Hok Hfat Hnp -> Hsame.
  pose proof (same_feed_same_cost prices rows diet Hsame) as Hcol.
  split; [exact Hcol|].
  rewrite (calc_IOFC_manual_run wm mp mc ip rdf d_mp d_mc prices rows
             MY fp tp os pf pp po verbose Hm Hp Hc Hok).
  rewrite (calc_IOFC_nd_run wn mp' ip' mo d_mp prices values diet
             g_fat g_np MY os pf pp po Hn Hp Hv).
  rewrite Hcol. unfold nd_revenue, manual_revenue. now rewrite Hfat, Hnp.
Qed.

(** The example ration, and a model output that reports its feeds and the
    milk of the notebook. *)
Lemma calculators_agree_on_same_feeds_witness :
  let diet := (fun r => {| Feedstuff := Ingredient r; Fd_DMInp := 0;
                           Fd_DM := DM_perc r; Fd_DMIn := kg_inclusion r |})
                <$> ration_list in
  fst (run_manual milk_components ingredient_prices_asfed_tonne ration_list false)
  = fst (run_nd ingredient_prices_asfed_tonne outputs_31 diet).
Proof.
  cbv zeta.
  set (diet := (fun r => {| Feedstuff := Ingredient r; Fd_DMInp := 0;
                            Fd_DM := DM_perc r; Fd_DMIn := kg_inclusion r |})
                 <$> ration_list).
  apply (calculators_agree_on_same_feeds
           notebook milk_prices_ref milk_components_ref ingredient_prices_ref
           ration_df_ref milk_components ration_list false
           (nd_world ingredient_prices_asfed_tonne outputs_31 diet)
           milk_prices_ref nd_prices_ref mod_output_ref outputs_31 diet
           milk_prices ingredient_prices_asfed_tonne
           (1000 * (3.6 / 100 * 31)) (1000 * (3.3 / 100 * 31)) 31 31
           3.6 3.3 5.7 13.3 10.96 0.9).
  - repeat split; reflexivity.
  - exists diet_info_ref. repeat split; reflexivity.
  - repeat split; vm_compute; reflexivity.
  - repeat split; vm_compute; reflexivity.
  - repeat split; vm_compute; reflexivity.
  - vm_compute. reflexivity.
  - reflexivity.
  - reflexivity.
  - reflexivity.
  - unfold diet, ration_list. rewrite !fmap_cons.
    repeat (apply Forall2_cons; split; [repeat split|]). apply Forall2_nil. exact I.
Defined.

Ltac nan_through :=
  repeat first [ rewrite B64Facts.nan_div | rewrite B64Facts.nan_mul
               | rewrite B64Facts.mul_nan | rewrite nan_add | rewrite add_nan
               | rewrite nan_sub ].

Lemma manual_revenue_nan MY fp tp os pf pp po :
  Exists (fun x => is_nan x = true) [MY; fp; tp; os; pf; pp; po] ->
  revenue_dollar_per_d (manual_revenue MY fp tp os pf pp po) = nan.
Proof.
  intros H. unfold revenue_dollar_per_d, manual_revenue.
  cbn [fat_dollar_d protein_dollar_d other_dollar_d].
  repeat (apply Exists_cons in H as [H|H];
          [apply is_nan_eq in H; subst; now nan_through|]).
  now apply Exists_nil in H.
Qed.

Lemma nd_revenue_nan g_fat g_np MY os pf pp po :
  Exists (fun x => is_nan x = true) [g_fat; g_np; MY; os; pf; pp; po] ->
  revenue_dollar_per_d (nd_revenue g_fat g_np MY os pf pp po) = nan.
Proof.
  intros H. unfold revenue_dollar_per_d, nd_revenue.
  cbn [fat_dollar_d protein_dollar_d other_dollar_d].
  repeat (apply Exists_cons in H as [H|H];
          [apply is_nan_eq in H; subst; now nan_through|]).
  now apply Exists_nil in H.
Qed.

(** X10. A NaN among the milk numbers is not an error and is not skipped:
    when the milk yield, a component percentage or gram output, the share
    of other solids or a milk price is NaN, each calculator returns NaN,
    whatever the feed costs are. (A NaN among the feed prices, by
    contrast, is counted as zero by the sum.) *)
Theorem nan_milk_number_returns_nan :
  (forall w mp mc ip rdf d_mp d_mc prices rows MY fp tp os pf pp po verbose,
      manual_args w mp mc ip rdf d_mp d_mc prices rows ->
      milk_prices_fields d_mp os pf pp po ->
      milk_components_fields d_mc MY fp tp ->
      Np.Series_all (ingredient_validation rows) = true ->
      Exists (fun x => is_nan x = true) [MY; fp; tp; os; pf; pp; po] ->
      fst (calc_IOFC_manual mp mc ip rdf verbose w) = inr nan)
  /\
  (forall w mp ip mo d_mp prices values rows g_fat g_np MY os pf pp po,
      nd_args w mp ip mo d_mp prices values rows ->
      milk_prices_fields d_mp os pf pp po ->
      model_values values g_fat g_np MY ->
      Exists (fun x => is_nan x = true) [g_fat; g_np; MY; os; pf; pp; po] ->
      fst (calc_IOFC_nd mp ip mo w) = inr nan).
Proof.
  split.
  - intros w mp mc ip rdf d_mp d_mc prices rows MY fp tp os pf pp po verbose
      Hargs Hmp Hmc Hok Hnan.
    rewrite (calc_IOFC_manual_run w mp mc ip rdf d_mp d_mc prices rows
               MY fp tp os pf pp po verbose Hargs Hmp Hmc Hok).
    now rewrite (manual_revenue_nan _ _ _ _ _ _ _ Hnan), nan_sub.
  - intros w mp ip mo d_mp prices values rows g_fat g_np MY os pf pp po
      Hargs Hmp Hmo Hnan.
    rewrite (calc_IOFC_nd_run w mp ip mo d_mp prices values rows
               g_fat g_np MY os pf pp po Hargs Hmp Hmo).
    now rewrite (nd_revenue_nan _ _ _ _ _ _ _ Hnan), nan_sub.
Qed.

(** A milk yield that is missing. *)
Lemma nan_milk_number_returns_nan_witness :
  let components : gmap string float :=
    list_to_map [("MY_kg_d", nan); ("Milk_Fat_perc", 3.6); ("Milk_TProt_perc", 3.3)] in
  fst (run_manual components ingredient_prices_asfed_tonne ration_list false) = inr nan.
Proof.
  cbv zeta. destruct nan_milk_number_returns_nan as [Hmanual _].
  apply (Hmanual
           (manual_world
              (list_to_map [("MY_kg_d", nan); ("Milk_Fat_perc", 3.6);
                            ("Milk_TProt_perc", 3.3)])
              ingredient_prices_asfed_tonne ration_list)
           milk_prices_ref milk_components_ref ingredient_prices_ref ration_df_ref
           milk_prices
           (list_to_map [("MY_kg_d", nan); ("Milk_Fat_perc", 3.6);
                         ("Milk_TProt_perc", 3.3)])
           ingredient_prices_asfed_tonne ration_list
           nan 3.6 3.3 5.7 13.3 10.96 0.9 false).
  - repeat split; reflexivity.
  - repeat split; vm_compute; reflexivity.
  - repeat split; vm_compute; reflexivity.
  - vm_compute. reflexivity.
  - apply Exists_cons_hd. reflexivity.
Defined.

Ltac one_getitem H :=
  rewrite (bind_getitem _ _ _ _ _ H);
  match goal with |- context [match ?d !! ?k with _ => _ end] =>
    destruct (d !! k) eqn:?
  end.

Ltac one_getitem_at H :=
  rewrite (bind_getitem (World _ _) _ _ _ _ H);
  match goal with |- context [match ?d !! ?k with _ => _ end] =>
    destruct (d !! k) eqn:?
  end.

Ltac missing_key :=
  cbn [fst]; split; [reflexivity|];
  first [ left; split; [repeat constructor | assumption]
        | right; split; [repeat constructor | assumption] ].

(** X11. The outcomes of a call of [calc_IOFC_manual] on a ration table and
    three dicts. It returns a number exactly when the ration passes the
    validation and the seven fields are there. Otherwise it raises
    [ValueError] with the identifiers outside the module-level table, of
    which there is one at least, or, the ration having passed, [KeyError]
    with one of the seven field names, which its dict lacks. It raises no
    [KeyError] for an ingredient. *)
Theorem manual_outcomes w mp mc ip rdf d_mp d_mc prices rows verbose :
  manual_args w mp mc ip rdf d_mp d_mc prices rows ->
  let component_keys := ["MY_kg_d"; "Milk_Fat_perc"; "Milk_TProt_perc"] in
  let price_keys := ["milk_other_solids_production_perc"; "milk_fat_dollar_kg";
                     "milk_protein_dollar_kg"; "other_solids_dollar_kg"] in
  match fst (calc_IOFC_manual mp mc ip rdf verbose w) with
  | inr _ =>
      Np.Series_all (ingredient_validation rows) = true
      /\ Forall (fun k => is_Some (d_mc !! k)) component_keys
      /\ Forall (fun k => is_Some (d_mp !! k)) price_keys
  | inl (ValueError unmatched) =>
      unmatched = unmatched_ingredients rows /\ unmatched <> []
  | inl (KeyError k) =>
      Np.Series_all (ingredient_validation rows) = true
      /\ ((k ∈ component_keys /\ d_mc !! k = None)
          \/ (k ∈ price_keys /\ d_mp !! k = None))
  | inl TypeError => False
  end.
Proof.
  intros (Hmp & Hmc & Hip & Hrdf). cbv zeta.
  destruct (Np.Series_all (ingredient_validation rows)) eqn:Hok.
  2: { rewrite (calc_IOFC_manual_rejects _ _ _ _ _ rows _ Hrdf Hok). cbn [fst].
       split; [reflexivity | now apply unmatched_ingredients_nonempty]. }
  rewrite (calc_IOFC_manual_validated _ _ _ _ _ _ _ Hrdf Hok).
  one_getitem Hmc; [|missing_key].
  one_getitem Hmc; [|missing_key].
  one_getitem Hmc; [|missing_key].
  one_getitem Hmp; [|missing_key].
  destruct verbose; cbn [when]; rewrite ?bind_print, ?bind_ret.
  - one_getitem_at Hmp; [|missing_key].
    one_getitem_at Hmp; [|missing_key].
    one_getitem_at Hmp; [|missing_key].
    cbv zeta. rewrite !bind_bind, !bind_print.
    rewrite (bind_run _ _ _ _ _ (Series_map_run (World _ _) _ _ _ Hip)),
      ?cost_line_column, ?diet_cost_row_column.
    rewrite bind_alloc. cbn [heap stdout]. rewrite as_ration_cost_fresh.
    rewrite !bind_bind, !bind_print. cbn [fst ret].
    split; [reflexivity|]. split; repeat constructor; eauto.
  - one_getitem Hmp; [|missing_key].
    one_getitem Hmp; [|missing_key].
    one_getitem Hmp; [|missing_key].
    cbv zeta. rewrite !bind_ret.
    rewrite (bind_run _ _ _ _ _ (Series_map_run _ _ _ _ Hip)),
      ?cost_line_column, ?diet_cost_row_column.
    rewrite bind_alloc. rewrite as_ration_cost_fresh. rewrite !bind_ret. cbn [fst ret].
    split; [reflexivity|]. split; repeat constructor; eauto.
Qed.

(** The call of the notebook returns a number. *)
Lemma manual_outcomes_witness :
  Np.Series_all (ingredient_validation ration_list) = true
  /\ Forall (fun k => is_Some (milk_components !! k))
       ["MY_kg_d"; "Milk_Fat_perc"; "Milk_TProt_perc"]
  /\ Forall (fun k => is_Some (milk_prices !! k))
       ["milk_other_solids_production_perc"; "milk_fat_dollar_kg";
        "milk_protein_dollar_kg"; "other_solids_dollar_kg"].
Proof.
  apply (manual_outcomes notebook
           milk_prices_ref milk_components_ref ingredient_prices_ref ration_df_ref
           milk_prices milk_components ingredient_prices_asfed_tonne ration_list false).
  repeat split; reflexivity.
Defined.

Lemma quiet_calc_IOFC_nd mp ip mo : quiet (calc_IOFC_nd mp ip mo).
Proof.
  unfold calc_IOFC_nd, get_value, operand, Intakes_diet_info, as_diet, as_diet_cost.
  repeat quiet_step.
Qed.

(** X12. The outcomes of a call of [calc_IOFC_nd] on a model output that
    has its three values. The call prints nothing. It returns a number
    exactly when the price catalog has its four fields, whatever the diet
    table and the price table hold; otherwise it raises [KeyError] with a
    field name that the catalog lacks. It raises no [ValueError] and no
    [KeyError] for a feedstuff. *)
Theorem nd_outcomes w mp ip mo d_mp prices values rows g_fat g_np MY :
  nd_args w mp ip mo d_mp prices values rows ->
  model_values values g_fat g_np MY ->
  let price_keys := ["milk_fat_dollar_kg"; "milk_protein_dollar_kg";
                     "milk_other_solids_production_perc"; "other_solids_dollar_kg"] in
  stdout (snd (calc_IOFC_nd mp ip mo w)) = stdout w
  /\ match fst (calc_IOFC_nd mp ip mo w) with
     | inr _ => Forall (fun k => is_Some (d_mp !! k)) price_keys
     | inl (KeyError k) => k ∈ price_keys /\ d_mp !! k = None
     | inl (ValueError _) | inl TypeError => False
     end.
Proof.
  intros (di & Hmp & Hip & Hmo & Hdi) (Hgf & Hgn & HMY). cbv zeta.
  split; [apply quiet_calc_IOFC_nd|].
  unfold calc_IOFC_nd.
  rewrite (bind_get_value _ _ _ _ _ _ Hmo), Hgf, bind_operand.
  one_getitem Hmp; [|split; [repeat constructor | assumption]].
  rewrite (bind_get_value _ _ _ _ _ _ Hmo), Hgn, bind_operand.
  one_getitem Hmp; [|split; [repeat constructor | assumption]].
  rewrite (bind_get_value _ _ _ _ _ _ Hmo), HMY.
  one_getitem Hmp; [|split; [repeat constructor | assumption]].
  rewrite bind_operand.
  one_getitem Hmp; [|split; [repeat constructor | assumption]].
  rewrite (bind_run _ _ _ _ _ (Intakes_diet_info_run _ _ _ _ Hmo)).
  rewrite (bind_run _ _ _ _ _ (as_diet_run _ _ _ Hdi)).
  rewrite bind_alloc.
  rewrite (bind_run _ _ _ _ _ (as_diet_run (World _ _) _ _ (lookup_fresh _ _))).
  rewrite (bind_run _ _ _ _ _ (Series_map_run (World _ _) _ _ _ (lookup_old _ _ _ _ Hip))),
      ?cost_line_column, ?diet_cost_row_column.
  rewrite bind_alloc. cbn [heap stdout].
  unfold as_diet_cost, bind, deref. cbn [heap]. rewrite lookup_fresh.
  cbn [fst ret]. repeat constructor; eauto.
Qed.

(** The diet of the notebook: two feedstuffs have no price, and the call
    returns a number and prints nothing. *)
Lemma nd_outcomes_witness :
  stdout (snd (run_nd ingredient_prices_asfed_tonne outputs_nd diet_nd)) = []
  /\ Forall (fun k => is_Some (milk_prices !! k))
       ["milk_fat_dollar_kg"; "milk_protein_dollar_kg";
        "milk_other_solids_production_perc"; "other_solids_dollar_kg"].
Proof.
  apply (nd_outcomes (nd_world ingredient_prices_asfed_tonne outputs_nd diet_nd)
           milk_prices_ref nd_prices_ref mod_output_ref
           milk_prices ingredient_prices_asfed_tonne outputs_nd diet_nd
           1070.676 981.453 29.741).
  - exists diet_info_ref. repeat split; reflexivity.
  - repeat split; vm_compute; reflexivity.
Defined.

(* ===================================================================== *)
(** ** Sums of two arrays whose elements are related *)
(* ===================================================================== *)

Section SumsRelated.

Variable Rel : float -> float -> Prop.
Hypothesis Rel_zero : Rel 0 0.
Hypothesis Rel_add : forall x x' y y', Rel x x' -> Rel y y' -> Rel (x + y) (x' + y').

Lemma sum_loop_related a a' : Forall2 Rel a a' -> forall res res',
  Rel res res' -> Rel (Np.sum_loop res a) (Np.sum_loop res' a').
Proof.
  unfold Np.sum_loop. induction 1 as [|x x' a a' Hx Ha IH]; intros res res' Hres;
    [exact Hres|].
  cbn [fold_left]. apply IH. now apply Rel_add.
Qed.

Lemma zip_with_add_related r r' : Forall2 Rel r r' -> forall a a',
  Forall2 Rel a a' -> Forall2 Rel (zip_with add r a) (zip_with add r' a').
Proof.
  induction 1 as [|x x' r r' Hx Hr IH]; intros a a' Ha; [constructor|].
  destruct Ha as [|y y' a a' Hy Ha]; cbn; constructor; [now apply Rel_add | now apply IH].
Qed.

Lemma unrolled_related blocks : forall r r' a a',
  Forall2 Rel r r' -> Forall2 Rel a a' ->
  Forall2 Rel (fst (Np.unrolled blocks r a)) (fst (Np.unrolled blocks r' a'))
  /\ Forall2 Rel (snd (Np.unrolled blocks r a)) (snd (Np.unrolled blocks r' a')).
Proof.
  induction blocks as [|b IH]; intros r r' a a' Hr Ha; cbn [Np.unrolled]; [now split|].
  apply IH.
  - apply zip_with_add_related; [exact Hr | now apply Forall2_take].
  - now apply Forall2_drop.
Qed.

Lemma acc8_related r r' j : Forall2 Rel r r' -> Rel (Np.acc8 r j) (Np.acc8 r' j).
Proof.
  unfold Np.acc8. intros Hr. revert j.
  induction Hr as [|x x' r r' Hx Hr IH]; intros [|j]; cbn; auto.
Qed.

Lemma block_sum_related a a' :
  Forall2 Rel a a' -> Rel (Np.block_sum a) (Np.block_sum a').
Proof.
  intros Ha. unfold Np.block_sum. rewrite <- (Forall2_length _ _ _ Ha).
  pose proof (unrolled_related (length a / 8 - 1) (take 8 a) (take 8 a')
                (drop 8 a) (drop 8 a')
                (Forall2_take _ _ _ _ Ha) (Forall2_drop _ _ _ _ Ha)) as [Hr Hrest].
  destruct (Np.unrolled _ (take 8 a) _) as [r rest].
  destruct (Np.unrolled _ (take 8 a') _) as [r' rest']. cbn [fst snd] in *.
  apply sum_loop_related; [exact Hrest|].
  unfold Np.tree8. repeat apply Rel_add; now apply acc8_related.
Qed.

Lemma pairwise_sum_related fuel : forall a a',
  Forall2 Rel a a' -> Rel (Np.pairwise_sum fuel a) (Np.pairwise_sum fuel a').
Proof.
  induction fuel as [|f IH]; intros a a' Ha; cbn [Np.pairwise_sum];
    rewrite <- (Forall2_length _ _ _ Ha);
    destruct (length a <? 8)%nat; try (now apply sum_loop_related);
    destruct (length a <=? Np.PW_BLOCKSIZE)%nat; try (now apply block_sum_related).
  apply Rel_add; apply IH; [now apply Forall2_take | now apply Forall2_drop].
Qed.

(** A relation that holds of zero and zero and that sums keep holds of the
    sums of two arrays that it relates element by element. *)
Lemma sum_related a a' : Forall2 Rel a a' -> Rel (Np.sum a) (Np.sum a').
Proof.
  intros Ha. unfold Np.sum. rewrite <- (Forall2_length _ _ _ Ha).
  apply Rel_add; [exact Rel_zero | now apply pairwise_sum_related].
Qed.

End SumsRelated.

Section Monotone.

Import B64 B64Facts B64RoundFacts.

(** Two numbers that are not negative, the first no larger than the
    second. *)
#[local] Abbreviation below := (fun x y : float =>
  nonneg x = true /\ nonneg y = true /\ (x <=? y) = true).

Lemma below_add x x' y y' : below x x' -> below y y' -> below (x + y) (x' + y').
Proof.
  intros (Hx & Hx' & Hxx) (Hy & Hy' & Hyy).
  repeat split; [now apply add_nonneg | now apply add_nonneg | now apply add_mono].
Qed.

(** Sums of costs that are not negative grow with each cost. *)
Lemma sum_mono a a' : Forall2 below a a' -> below (Np.sum a) (Np.sum a').
Proof.
  apply (sum_related below); [repeat split; reflexivity | exact below_add].
Qed.


Lemma below_refl x : nonneg x = true -> below x x.
Proof. intros H. repeat split; try assumption. now apply leb_refl, nonneg_not_nan. Qed.

(** The price per kg of dry matter grows with the price as fed. *)
Lemma price_DM_kg_mono p p' dm :
  fin_nonneg p = true -> fin_nonneg p' = true -> dm_percentage dm = true ->
  (p <=? p') = true -> below (p / dm * 100 / 1000) (p' / dm * 100 / 1000).
Proof.
  intros Hp Hp' Hdm Hle.
  pose proof (price_DM_kg_nonneg p dm Hp Hdm) as Hq.
  pose proof (price_DM_kg_nonneg p' dm Hp' Hdm) as Hq'.
  repeat split; try assumption.
  apply dm_percentage_finpos in Hdm. apply fin_nonneg_nonneg in Hp, Hp'.
  assert (H1 : nonneg (p / dm) = true) by now apply div_nonneg_finpos.
  assert (H1' : nonneg (p' / dm) = true) by now apply div_nonneg_finpos.
  apply div_mono; [| |reflexivity|]; try (now apply mul_nonneg_finpos).
  apply mul_mono_finpos; [assumption | assumption | reflexivity|].
  now apply div_mono.
Qed.

(** What a ration line adds to the feed cost grows with its price. *)
Lemma line_cost_mono kg p p' dm :
  fin_nonneg kg = true -> fin_nonneg p = true -> fin_nonneg p' = true ->
  dm_percentage dm = true -> (p <=? p') = true ->
  below (Np.fillna0 (line_cost kg p dm)) (Np.fillna0 (line_cost kg p' dm)).
Proof.
  intros Hkg Hp Hp' Hdm Hle.
  destruct (price_DM_kg_mono p p' dm Hp Hp' Hdm Hle) as (Hq & Hq' & Hqq).
  unfold line_cost. repeat split.
  - now apply fillna0_nonneg, mul_fin_nonneg_or_nan.
  - now apply fillna0_nonneg, mul_fin_nonneg_or_nan.
  - now apply mul_mono_fill.
Qed.

Lemma row_cost_mono dmi p p' dm :
  fin_nonneg dmi = true -> fin_nonneg p = true -> fin_nonneg p' = true ->
  dm_percentage dm = true -> (p <=? p') = true ->
  below (Np.fillna0 (row_cost dmi p dm)) (Np.fillna0 (row_cost dmi p' dm)).
Proof.
  intros Hkg Hp Hp' Hdm Hle. rewrite <- !line_cost_row_cost. now apply line_cost_mono.
Qed.

(** The feed cost of a ration grows with the prices of its ingredients. *)
Lemma ration_cost_mono prices prices' (rows : list RationLine) :
  forallb (valid_line prices) rows = true ->
  forallb (valid_line prices') rows = true ->
  (forall r p p', r ∈ rows -> prices !! Ingredient r = Some p ->
     prices' !! Ingredient r = Some p' -> (p <=? p') = true) ->
  below (ration_cost prices rows) (ration_cost prices' rows).
Proof.
  intros Hv Hv' Hle. unfold ration_cost, Np.Series_sum. apply sum_mono.
  rewrite <- !list_fmap_compose. apply Forall2_fmap, Forall_Forall2_diag, Forall_forall.
  intros r Hr. unfold compose.
  rewrite forallb_forall in Hv, Hv'.
  specialize (Hv r ltac:(now apply list_elem_of_In)).
  specialize (Hv' r ltac:(now apply list_elem_of_In)).
  unfold valid_line, Np.map_dict in *. specialize (Hle r).
  destruct (prices !! Ingredient r) as [p|]; [|discriminate].
  destruct (prices' !! Ingredient r) as [p'|]; [|discriminate].
  cbn [default from_option].
  do 2 (apply andb_true_iff in Hv as [Hv ?]). do 2 (apply andb_true_iff in Hv' as [Hv' ?]).
  apply line_cost_mono; try assumption. now apply (Hle p p').
Qed.

Lemma diet_cost_mono prices prices' (rows : list DietRow) :
  forallb (valid_row prices) rows = true ->
  forallb (valid_row prices') rows = true ->
  (forall r p p', r ∈ rows -> prices !! Feedstuff r = Some p ->
     prices' !! Feedstuff r = Some p' -> (p <=? p') = true) ->
  below (diet_cost prices rows) (diet_cost prices' rows).
Proof.
  intros Hv Hv' Hle. unfold diet_cost, Np.Series_sum. apply sum_mono.
  rewrite <- !list_fmap_compose. apply Forall2_fmap, Forall_Forall2_diag, Forall_forall.
  intros r Hr. unfold compose.
  rewrite forallb_forall in Hv, Hv'.
  specialize (Hv r ltac:(now apply list_elem_of_In)).
  specialize (Hv' r ltac:(now apply list_elem_of_In)).
  unfold valid_row, Np.map_dict in *. specialize (Hle r).
  destruct (prices !! Feedstuff r) as [p|]; [|discriminate].
  destruct (prices' !! Feedstuff r) as [p'|]; [|discriminate].
  cbn [default from_option].
  do 2 (apply andb_true_iff in Hv as [Hv ?]). do 2 (apply andb_true_iff in Hv' as [Hv' ?]).
  apply row_cost_mono; try assumption. now apply (Hle p p').
Qed.


(** Nothing taken away leaves [r]; a cost that is not negative leaves no
    more. *)
Lemma sub_nonneg_le r c :
  nonneg r = true -> nonneg c = true ->
  (r - c <=? r) = true \/ (r = infinity /\ c = infinity).
Proof.
  intros Hr Hc.
  destruct (sub_anti r 0 c Hr ltac:(reflexivity) Hc Hc) as [H|H]; [left | now right].
  now rewrite sub_zero in H.
Qed.

(** X13. With valid input the income over feed cost is at most the
    revenue: for milk numbers and line numbers that are finite and not
    negative, percentages in [0, 100] and dry-matter percentages in
    (0, 100], the value that either calculator returns is no larger than
    its revenue, in binary64 as the code computes it. The one exception is
    a revenue and a feed cost that both overflow to infinity, whose
    difference is NaN. *)
Theorem IOFC_at_most_revenue :
  (forall w mp mc ip rdf d_mp d_mc prices rows MY fp tp os pf pp po verbose,
      manual_args w mp mc ip rdf d_mp d_mc prices rows ->
      milk_prices_fields d_mp os pf pp po ->
      milk_components_fields d_mc MY fp tp ->
      Np.Series_all (ingredient_validation rows) = true ->
      valid_milk MY fp tp os pf pp po = true ->
      forallb (valid_line prices) rows = true ->
      let revenue := revenue_dollar_per_d (manual_revenue MY fp tp os pf pp po) in
      let feed_cost := ration_cost prices rows in
      fst (calc_IOFC_manual mp mc ip rdf verbose w) = inr (revenue - feed_cost)
      /\ ((revenue - feed_cost <=? revenue) = true
          \/ (revenue = infinity /\ feed_cost = infinity)))
  /\
  (forall w mp ip mo d_mp prices values rows g_fat g_np MY os pf pp po,
      nd_args w mp ip mo d_mp prices values rows ->
      milk_prices_fields d_mp os pf pp po ->
      model_values values g_fat g_np MY ->
      valid_outputs g_fat g_np MY os pf pp po = true ->
      forallb (valid_row prices) rows = true ->
      let revenue := revenue_dollar_per_d (nd_revenue g_fat g_np MY os pf pp po) in
      let feed_cost := diet_cost prices rows in
      fst (calc_IOFC_nd mp ip mo w) = inr (revenue - feed_cost)
      /\ ((revenue - feed_cost <=? revenue) = true
          \/ (revenue = infinity /\ feed_cost = infinity))).
Proof.
  split.
  - intros w mp mc ip rdf d_mp d_mc prices rows MY fp tp os pf pp po verbose
      Hargs Hmp Hmc Hok Hmilk Hrows. cbv zeta. split.
    + rewrite <- daily_cost_column.
      now apply (calc_IOFC_manual_run w mp mc ip rdf d_mp d_mc).
    + apply sub_nonneg_le; [now apply manual_revenue_nonneg | now apply ration_cost_nonneg].
  - intros w mp ip mo d_mp prices values rows g_fat g_np MY os pf pp po
      Hargs Hmp Hmo Hout Hrows. cbv zeta. split.
    + rewrite <- dollar_fed_column.
      now apply (calc_IOFC_nd_run w mp ip mo d_mp prices values).
    + apply sub_nonneg_le; [now apply nd_revenue_nonneg | now apply diet_cost_nonneg].
Qed.

(** X14. Dearer feed never raises the income over feed cost. Of two calls
    with valid input that differ in the price table alone, the second
    table giving every ingredient of the ration a price that is no lower,
    the second has a feed cost that is no lower and returns a value that
    is no higher, in binary64 as the code computes it, for each
    calculator. The one exception is a revenue and a dearer feed cost that
    both overflow to infinity. *)
Theorem dearer_feed_never_raises_IOFC :
  (forall w w' mp mc ip rdf d_mp d_mc prices prices' rows MY fp tp os pf pp po verbose,
      manual_args w mp mc ip rdf d_mp d_mc prices rows ->
      manual_args w' mp mc ip rdf d_mp d_mc prices' rows ->
      milk_prices_fields d_mp os pf pp po ->
      milk_components_fields d_mc MY fp tp ->
      Np.Series_all (ingredient_validation rows) = true ->
      valid_milk MY fp tp os pf pp po = true ->
      forallb (valid_line prices) rows = true ->
      forallb (valid_line prices') rows = true ->
      (forall r p p', r ∈ rows -> prices !! Ingredient r = Some p ->
         prices' !! Ingredient r = Some p' -> (p <=? p') = true) ->
      let revenue := revenue_dollar_per_d (manual_revenue MY fp tp os pf pp po) in
      fst (calc_IOFC_manual mp mc ip rdf verbose w)
      = inr (revenue - ration_cost prices rows)
      /\ fst (calc_IOFC_manual mp mc ip rdf verbose w')
         = inr (revenue - ration_cost prices' rows)
      /\ (ration_cost prices rows <=? ration_cost prices' rows) = true
      /\ ((revenue - ration_cost prices' rows <=? revenue - ration_cost prices rows) = true
          \/ (revenue = infinity /\ ration_cost prices' rows = infinity)))
  /\
  (forall w w' mp ip mo d_mp prices prices' values rows g_fat g_np MY os pf pp po,
      nd_args w mp ip mo d_mp prices values rows ->
      nd_args w' mp ip mo d_mp prices' values rows ->
      milk_prices_fields d_mp os pf pp po ->
      model_values values g_fat g_np MY ->
      valid_outputs g_fat g_np MY os pf pp po = true ->
      forallb (valid_row prices) rows = true ->
      forallb (valid_row prices') rows = true ->
      (forall r p p', r ∈ rows -> prices !! Feedstuff r = Some p ->
         prices' !! Feedstuff r = Some p' -> (p <=? p') = true) ->
      let revenue := revenue_dollar_per_d (nd_revenue g_fat g_np MY os pf pp po) in
      fst (calc_IOFC_nd mp ip mo w) = inr (revenue - diet_cost prices rows)
      /\ fst (calc_IOFC_nd mp ip mo w') = inr (revenue - diet_cost prices' rows)
      /\ (diet_cost prices rows <=? diet_cost prices' rows) = true
      /\ ((revenue - diet_cost prices' rows <=? revenue - diet_cost prices rows) = true
          \/ (revenue = infinity /\ diet_cost prices' rows = infinity))).
Proof.
  split.
  - intros w w' mp mc ip rdf d_mp d_mc prices prices' rows MY fp tp os pf pp po verbose
      Hargs Hargs' Hmp Hmc Hok Hmilk Hrows Hrows' Hle. cbv zeta.
    destruct (ration_cost_mono prices prices' rows Hrows Hrows' Hle) as (Hc & Hc' & Hcc).
    repeat split.
    + rewrite <- daily_cost_column.
      now apply (calc_IOFC_manual_run w mp mc ip rdf d_mp d_mc).
    + rewrite <- daily_cost_column.
      now apply (calc_IOFC_manual_run w' mp mc ip rdf d_mp d_mc).
    + exact Hcc.
    + apply sub_anti; try assumption. now apply manual_revenue_nonneg.
  - intros w w' mp ip mo d_mp prices prices' values rows g_fat g_np MY os pf pp po
      Hargs Hargs' Hmp Hmo Hout Hrows Hrows' Hle. cbv zeta.
    destruct (diet_cost_mono prices prices' rows Hrows Hrows' Hle) as (Hc & Hc' & Hcc).
    repeat split.
    + rewrite <- dollar_fed_column.
      now apply (calc_IOFC_nd_run w mp ip mo d_mp prices values).
    + rewrite <- dollar_fed_column.
      now apply (calc_IOFC_nd_run w' mp ip mo d_mp prices' values).
    + exact Hcc.
    + apply sub_anti; try assumption. now apply nd_revenue_nonneg.
Qed.


(** A product of finite numbers that are not negative grows with both
    factors. *)
Lemma mul_mono2 x x' y y' :
  fin_nonneg x = true -> fin_nonneg x' = true ->
  fin_nonneg y = true -> fin_nonneg y' = true ->
  (x <=? x') = true -> (y <=? y') = true -> below (x * y) (x' * y').
Proof.
  intros Hx Hx' Hy Hy' Hxx Hyy.
  assert (H1 : nonneg (x * y) = true) by now apply mul_fin_nonneg.
  assert (H2 : nonneg (x * y') = true) by now apply mul_fin_nonneg.
  assert (H3 : nonneg (x' * y') = true) by now apply mul_fin_nonneg.
  repeat split; try assumption.
  apply (leb_trans _ (x * y')); try assumption.
  - now apply mul_mono.
  - rewrite (mul_comm x y'), (mul_comm x' y'). now apply mul_mono.
Qed.

Lemma percentage_fin x : percentage x = true -> fin_nonneg x = true.
Proof.
  intros H. apply percentage_inv in H as [H0 H100]. unfold fin_nonneg.
  unfold nonneg in H0. rewrite H0. cbn [andb]. now apply (leb_finite x 100).
Qed.

(** [perc / 100 * MY * price] grows with each of the three. *)
Lemma percent_term_mono perc perc' MY MY' price price' :
  percentage perc = true -> percentage perc' = true ->
  fin_nonneg MY = true -> fin_nonneg MY' = true ->
  fin_nonneg price = true -> fin_nonneg price' = true ->
  (perc <=? perc') = true -> (MY <=? MY') = true -> (price <=? price') = true ->
  below (perc / 100 * MY * price) (perc' / 100 * MY' * price').
Proof.
  intros Hp Hp' HM HM' Hpr Hpr' Hpp HMM Hprpr.
  pose proof (percentage_fin _ Hp) as Hpf. pose proof (percentage_fin _ Hp') as Hpf'.
  assert (Ha : fin_nonneg (perc / 100) = true) by now apply div_ge1_finite.
  assert (Ha' : fin_nonneg (perc' / 100) = true) by now apply div_ge1_finite.
  assert (Haa : (perc / 100 <=? perc' / 100) = true)
    by (apply div_mono; try reflexivity; try assumption; now apply fin_nonneg_nonneg).
  apply percentage_inv in Hp as [Hp0 Hp100], Hp' as [Hp0' Hp100'].
  assert (Hb : fin_nonneg (perc / 100 * MY) = true) by now apply fraction_of_finite.
  assert (Hb' : fin_nonneg (perc' / 100 * MY') = true) by now apply fraction_of_finite.
  destruct (mul_mono2 _ _ _ _ Ha Ha' HM HM' Haa HMM) as (_ & _ & Hbb).
  now apply mul_mono2.
Qed.

(** [g / 1000 * price] grows with both. *)
Lemma gram_term_mono g g' price price' :
  fin_nonneg g = true -> fin_nonneg g' = true ->
  fin_nonneg price = true -> fin_nonneg price' = true ->
  (g <=? g') = true -> (price <=? price') = true ->
  below (g / 1000 * price) (g' / 1000 * price').
Proof.
  intros Hg Hg' Hpr Hpr' Hgg Hprpr.
  assert (Ha : fin_nonneg (g / 1000) = true) by now apply div_ge1_finite.
  assert (Ha' : fin_nonneg (g' / 1000) = true) by now apply div_ge1_finite.
  assert (Haa : (g / 1000 <=? g' / 1000) = true)
    by (apply div_mono; try reflexivity; try assumption; now apply fin_nonneg_nonneg).
  now apply mul_mono2.
Qed.

Lemma manual_revenue_mono MY fp tp os pf pp po MY' fp' tp' os' pf' pp' po' :
  valid_milk MY fp tp os pf pp po = true ->
  valid_milk MY' fp' tp' os' pf' pp' po' = true ->
  Forall2 (fun x y => (x <=? y) = true)
    [MY; fp; tp; os; pf; pp; po] [MY'; fp'; tp'; os'; pf'; pp'; po'] ->
  below (revenue_dollar_per_d (manual_revenue MY fp tp os pf pp po))
        (revenue_dollar_per_d (manual_revenue MY' fp' tp' os' pf' pp' po')).
Proof.
  unfold valid_milk. intros H H' Hle.
  do 6 (apply andb_true_iff in H as [H ?]). do 6 (apply andb_true_iff in H' as [H' ?]).
  repeat match goal with
         | H : Forall2 _ (_ :: _) (_ :: _) |- _ => apply Forall2_cons in H as [? H]
         end.
  unfold revenue_dollar_per_d, manual_revenue.
  cbn [fat_dollar_d protein_dollar_d other_dollar_d].
  repeat apply below_add; now apply percent_term_mono.
Qed.

Lemma nd_revenue_mono g_fat g_np MY os pf pp po g_fat' g_np' MY' os' pf' pp' po' :
  valid_outputs g_fat g_np MY os pf pp po = true ->
  valid_outputs g_fat' g_np' MY' os' pf' pp' po' = true ->
  Forall2 (fun x y => (x <=? y) = true)
    [g_fat; g_np; MY; os; pf; pp; po] [g_fat'; g_np'; MY'; os'; pf'; pp'; po'] ->
  below (revenue_dollar_per_d (nd_revenue g_fat g_np MY os pf pp po))
        (revenue_dollar_per_d (nd_revenue g_fat' g_np' MY' os' pf' pp' po')).
Proof.
  unfold valid_outputs. intros H H' Hle.
  do 6 (apply andb_true_iff in H as [H ?]). do 6 (apply andb_true_iff in H' as [H' ?]).
  repeat match goal with
         | H : Forall2 _ (_ :: _) (_ :: _) |- _ => apply Forall2_cons in H as [? H]
         end.
  unfold revenue_dollar_per_d, nd_revenue.
  cbn [fat_dollar_d protein_dollar_d other_dollar_d].
  repeat apply below_add;
    [now apply gram_term_mono | now apply gram_term_mono | now apply percent_term_mono].
Qed.


(** X15. More milk, richer milk or better milk prices never lower the
    revenue nor the income over feed cost. Of two calls with valid input
    and the same feeds and feed prices, the second having a milk yield,
    component percentages (gram outputs), a share of other solids and milk
    prices that are each no lower, the second has a revenue that is no
    lower and returns a value that is no lower, in binary64 as the code
    computes it, for each calculator. The one exception is a feed cost and
    a higher revenue that both overflow to infinity. *)
Theorem better_milk_never_lowers_IOFC :
  (forall w w' mp mc ip rdf d_mp d_mc d_mp' d_mc' prices rows
          MY fp tp os pf pp po MY' fp' tp' os' pf' pp' po' verbose,
      manual_args w mp mc ip rdf d_mp d_mc prices rows ->
      manual_args w' mp mc ip rdf d_mp' d_mc' prices rows ->
      milk_prices_fields d_mp os pf pp po ->
      milk_prices_fields d_mp' os' pf' pp' po' ->
      milk_components_fields d_mc MY fp tp ->
      milk_components_fields d_mc' MY' fp' tp' ->
      Np.Series_all (ingredient_validation rows) = true ->
      valid_milk MY fp tp os pf pp po = true ->
      valid_milk MY' fp' tp' os' pf' pp' po' = true ->
      forallb (valid_line prices) rows = true ->
      Forall2 (fun x y => (x <=? y) = true)
        [MY; fp; tp; os; pf; pp; po] [MY'; fp'; tp'; os'; pf'; pp'; po'] ->
      let revenue := revenue_dollar_per_d (manual_revenue MY fp tp os pf pp po) in
      let revenue' := revenue_dollar_per_d (manual_revenue MY' fp' tp' os' pf' pp' po') in
      let feed_cost := ration_cost prices rows in
      fst (calc_IOFC_manual mp mc ip rdf verbose w) = inr (revenue - feed_cost)
      /\ fst (calc_IOFC_manual mp mc ip rdf verbose w') = inr (revenue' - feed_cost)
      /\ (revenue <=? revenue') = true
      /\ ((revenue - feed_cost <=? revenue' - feed_cost) = true
          \/ (revenue' = infinity /\ feed_cost = infinity)))
  /\
  (forall w w' mp ip mo d_mp d_mp' prices values values' rows
          g_fat g_np MY os pf pp po g_fat' g_np' MY' os' pf' pp' po',
      nd_args w mp ip mo d_mp prices values rows ->
      nd_args w' mp ip mo d_mp' prices values' rows ->
      milk_prices_fields d_mp os pf pp po ->
      milk_prices_fields d_mp' os' pf' pp' po' ->
      model_values values g_fat g_np MY ->
      model_values values' g_fat' g_np' MY' ->
      valid_outputs g_fat g_np MY os pf pp po = true ->
      valid_outputs g_fat' g_np' MY' os' pf' pp' po' = true ->
      forallb (valid_row prices) rows = true ->
      Forall2 (fun x y => (x <=? y) = true)
        [g_fat; g_np; MY; os; pf; pp; po] [g_fat'; g_np'; MY'; os'; pf'; pp'; po'] ->
      let revenue := revenue_dollar_per_d (nd_revenue g_fat g_np MY os pf pp po) in
      let revenue' := revenue_dollar_per_d (nd_revenue g_fat' g_np' MY' os' pf' pp' po') in
      let feed_cost := diet_cost prices rows in
      fst (calc_IOFC_nd mp ip mo w) = inr (revenue - feed_cost)
      /\ fst (calc_IOFC_nd mp ip mo w') = inr (revenue' - feed_cost)
      /\ (revenue <=? revenue') = true
      /\ ((revenue - feed_cost <=? revenue' - feed_cost) = true
          \/ (revenue' = infinity /\ feed_cost = infinity))).
Proof.
  split.
  - intros w w' mp mc ip rdf d_mp d_mc d_mp' d_mc' prices rows
      MY fp tp os pf pp po MY' fp' tp' os' pf' pp' po' verbose
      Hargs Hargs' Hmp Hmp' Hmc Hmc' Hok Hmilk Hmilk' Hrows Hle. cbv zeta.
    destruct (manual_revenue_mono _ _ _ _ _ _ _ _ _ _ _ _ _ _ Hmilk Hmilk' Hle)
      as (Hr & Hr' & Hrr).
    repeat split.
    + rewrite <- daily_cost_column.
      now apply (calc_IOFC_manual_run w mp mc ip rdf d_mp d_mc).
    + rewrite <- daily_cost_column.
      now apply (calc_IOFC_manual_run w' mp mc ip rdf d_mp' d_mc').
    + exact Hrr.
    + apply sub_mono; try assumption. now apply ration_cost_nonneg.
  - intros w w' mp ip mo d_mp d_mp' prices values values' rows
      g_fat g_np MY os pf pp po g_fat' g_np' MY' os' pf' pp' po'
      Hargs Hargs' Hmp Hmp' Hmo Hmo' Hout Hout' Hrows Hle. cbv zeta.
    destruct (nd_revenue_mono _ _ _ _ _ _ _ _ _ _ _ _ _ _ Hout Hout' Hle)
      as (Hr & Hr' & Hrr).
    repeat split.
    + rewrite <- dollar_fed_column.
      now apply (calc_IOFC_nd_run w mp ip mo d_mp prices values).
    + rewrite <- dollar_fed_column.
      now apply (calc_IOFC_nd_run w' mp ip mo d_mp' prices values').
    + exact Hrr.
    + apply sub_mono; try assumption. now apply diet_cost_nonneg.
Qed.


Lemma below_trans x y z : below x y -> below y z -> below x z.
Proof.
  intros (Hx & Hy & Hxy) (_ & Hz & Hyz). repeat split; try assumption.
  now apply (leb_trans x y z).
Qed.

(** The price per kg of dry matter falls as the dry-matter percentage
    grows. *)
Lemma price_DM_kg_anti p dm dm' :
  fin_nonneg p = true -> dm_percentage dm = true -> dm_percentage dm' = true ->
  (dm' <=? dm) = true -> below (p / dm * 100 / 1000) (p / dm' * 100 / 1000).
Proof.
  intros Hp Hdm Hdm' Hle.
  pose proof (price_DM_kg_nonneg p dm Hp Hdm) as Hq.
  pose proof (price_DM_kg_nonneg p dm' Hp Hdm') as Hq'.
  repeat split; try assumption.
  apply dm_percentage_finpos in Hdm, Hdm'. apply fin_nonneg_nonneg in Hp.
  assert (H1 : nonneg (p / dm) = true) by now apply div_nonneg_finpos.
  assert (H1' : nonneg (p / dm') = true) by now apply div_nonneg_finpos.
  apply div_mono; [| |reflexivity|]; try (now apply mul_nonneg_finpos).
  apply mul_mono_finpos; [assumption | assumption | reflexivity|].
  now apply div_anti.
Qed.

(** What a ration line adds to the feed cost grows with its mass and
    falls as its dry-matter percentage grows. *)
Lemma line_cost_mass_mono kg kg' p dm dm' :
  fin_nonneg kg = true -> fin_nonneg kg' = true -> fin_nonneg p = true ->
  dm_percentage dm = true -> dm_percentage dm' = true ->
  (kg <=? kg') = true -> (dm' <=? dm) = true ->
  below (Np.fillna0 (line_cost kg p dm)) (Np.fillna0 (line_cost kg' p dm')).
Proof.
  intros Hkg Hkg' Hp Hdm Hdm' Hkk Hdd.
  destruct (price_DM_kg_anti p dm dm' Hp Hdm Hdm' Hdd) as (Hq & Hq' & Hqq).
  unfold line_cost.
  apply (below_trans _ (Np.fillna0 (kg * (p / dm' * 100 / 1000)))); repeat split;
    try (now apply fillna0_nonneg, mul_fin_nonneg_or_nan).
  - now apply mul_mono_fill.
  - now apply mul_mono_fill_l.
Qed.

(** A ration that feeds the same ingredients, of each as much or more and
    as dry or wetter, costs as much or more. *)
Lemma ration_cost_mass_mono prices (rows rows' : list RationLine) :
  forallb (valid_line prices) rows = true ->
  forallb (valid_line prices) rows' = true ->
  Forall2 (fun r r' => Ingredient r = Ingredient r'
                       /\ (kg_inclusion r <=? kg_inclusion r') = true
                       /\ (DM_perc r' <=? DM_perc r) = true) rows rows' ->
  below (ration_cost prices rows) (ration_cost prices rows').
Proof.
  intros Hv Hv' Hle. unfold ration_cost, Np.Series_sum. apply sum_mono.
  rewrite <- !list_fmap_compose. apply Forall2_fmap.
  induction Hle as [|r r' rows rows' (Hn & Hkg & Hdm) _ IH]; [constructor|].
  cbn [forallb] in Hv, Hv'.
  apply andb_true_iff in Hv as [Hr Hv], Hv' as [Hr' Hv'].
  constructor; [|now apply IH].
  unfold compose, valid_line, Np.map_dict in *. rewrite <- Hn in *.
  destruct (prices !! Ingredient r) as [p|]; [|discriminate]. cbn [default from_option].
  do 2 (apply andb_true_iff in Hr as [Hr ?]). do 2 (apply andb_true_iff in Hr' as [Hr' ?]).
  now apply line_cost_mass_mono.
Qed.

Lemma diet_cost_mass_mono prices (rows rows' : list DietRow) :
  forallb (valid_row prices) rows = true ->
  forallb (valid_row prices) rows' = true ->
  Forall2 (fun r r' => Feedstuff r = Feedstuff r'
                       /\ (Fd_DMIn r <=? Fd_DMIn r') = true
                       /\ (Fd_DM r' <=? Fd_DM r) = true) rows rows' ->
  below (diet_cost prices rows) (diet_cost prices rows').
Proof.
  intros Hv Hv' Hle. unfold diet_cost, Np.Series_sum. apply sum_mono.
  rewrite <- !list_fmap_compose. apply Forall2_fmap.
  induction Hle as [|r r' rows rows' (Hn & Hkg & Hdm) _ IH]; [constructor|].
  cbn [forallb] in Hv, Hv'.
  apply andb_true_iff in Hv as [Hr Hv], Hv' as [Hr' Hv'].
  constructor; [|now apply IH].
  unfold compose, valid_row, Np.map_dict in *. rewrite <- Hn in *.
  destruct (prices !! Feedstuff r) as [p|]; [|discriminate]. cbn [default from_option].
  do 2 (apply andb_true_iff in Hr as [Hr ?]). do 2 (apply andb_true_iff in Hr' as [Hr' ?]).
  rewrite <- !line_cost_row_cost. now apply line_cost_mass_mono.
Qed.

(** X16. More feed, or wetter feed at the same price as fed, never raises
    the income over feed cost. Of two calls with valid input that differ in
    the table of feeds alone, the second listing the same ingredients row
    by row, each with a mass that is no lower and a dry-matter percentage
    that is no higher, the second has a feed cost that is no lower and
    returns a value that is no higher, in binary64 as the code computes
    it, for each calculator. The one exception is a revenue and a higher
    feed cost that both overflow to infinity. *)
Theorem more_feed_never_raises_IOFC :
  (forall w w' mp mc ip rdf d_mp d_mc prices rows rows' MY fp tp os pf pp po verbose,
      manual_args w mp mc ip rdf d_mp d_mc prices rows ->
      manual_args w' mp mc ip rdf d_mp d_mc prices rows' ->
      milk_prices_fields d_mp os pf pp po ->
      milk_components_fields d_mc MY fp tp ->
      Np.Series_all (ingredient_validation rows) = true ->
      Np.Series_all (ingredient_validation rows') = true ->
      valid_milk MY fp tp os pf pp po = true ->
      forallb (valid_line prices) rows = true ->
      forallb (valid_line prices) rows' = true ->
      Forall2 (fun r r' => Ingredient r = Ingredient r'
                           /\ (kg_inclusion r <=? kg_inclusion r') = true
                           /\ (DM_perc r' <=? DM_perc r) = true) rows rows' ->
      let revenue := revenue_dollar_per_d (manual_revenue MY fp tp os pf pp po) in
      fst (calc_IOFC_manual mp mc ip rdf verbose w)
      = inr (revenue - ration_cost prices rows)
      /\ fst (calc_IOFC_manual mp mc ip rdf verbose w')
         = inr (revenue - ration_cost prices rows')
      /\ (ration_cost prices rows <=? ration_cost prices rows') = true
      /\ ((revenue - ration_cost prices rows' <=? revenue - ration_cost prices rows) = true
          \/ (revenue = infinity /\ ration_cost prices rows' = infinity)))
  /\
  (forall w w' mp ip mo d_mp prices values rows rows' g_fat g_np MY os pf pp po,
      nd_args w mp ip mo d_mp prices values rows ->
      nd_args w' mp ip mo d_mp prices values rows' ->
      milk_prices_fields d_mp os pf pp po ->
      model_values values g_fat g_np MY ->
      valid_outputs g_fat g_np MY os pf pp po = true ->
      forallb (valid_row prices) rows = true ->
      forallb (valid_row prices) rows' = true ->
      Forall2 (fun r r' => Feedstuff r = Feedstuff r'
                           /\ (Fd_DMIn r <=? Fd_DMIn r') = true
                           /\ (Fd_DM r' <=? Fd_DM r) = true) rows rows' ->
      let revenue := revenue_dollar_per_d (nd_revenue g_fat g_np MY os pf pp po) in
      fst (calc_IOFC_nd mp ip mo w) = inr (revenue - diet_cost prices rows)
      /\ fst (calc_IOFC_nd mp ip mo w') = inr (revenue - diet_cost prices rows')
      /\ (diet_cost prices rows <=? diet_cost prices rows') = true
      /\ ((revenue - diet_cost prices rows' <=? revenue - diet_cost prices rows) = true
          \/ (revenue = infinity /\ diet_cost prices rows' = infinity))).
Proof.
  split.
  - intros w w' mp mc ip rdf d_mp d_mc prices rows rows' MY fp tp os pf pp po verbose
      Hargs Hargs' Hmp Hmc Hok Hok' Hmilk Hrows Hrows' Hle. cbv zeta.
    destruct (ration_cost_mass_mono prices rows rows' Hrows Hrows' Hle) as (Hc & Hc' & Hcc).
    repeat split.
    + rewrite <- daily_cost_column.
      now apply (calc_IOFC_manual_run w mp mc ip rdf d_mp d_mc).
    + rewrite <- daily_cost_column.
      now apply (calc_IOFC_manual_run w' mp mc ip rdf d_mp d_mc).
    + exact Hcc.
    + apply sub_anti; try assumption. now apply manual_revenue_nonneg.
  - intros w w' mp ip mo d_mp prices values rows rows' g_fat g_np MY os pf pp po
      Hargs Hargs' Hmp Hmo Hout Hrows Hrows' Hle. cbv zeta.
    destruct (diet_cost_mass_mono prices rows rows' Hrows Hrows' Hle) as (Hc & Hc' & Hcc).
    repeat split.
    + rewrite <- dollar_fed_column.
      now apply (calc_IOFC_nd_run w mp ip mo d_mp prices values).
    + rewrite <- dollar_fed_column.
      now apply (calc_IOFC_nd_run w' mp ip mo d_mp prices values).
    + exact Hcc.
    + apply sub_anti; try assumption. now apply nd_revenue_nonneg.
Qed.

End Monotone.

(** The notebook's call, and a model output that reports the feeds of its
    ration. *)
Lemma IOFC_at_most_revenue_witness :
  let diet := (fun r => {| Feedstuff := Ingredient r; Fd_DMInp := 0;
                           Fd_DM := DM_perc r; Fd_DMIn := kg_inclusion r |})
                <$> ration_list in
  (valid_milk 31 3.6 3.3 5.7 13.3 10.96 0.9 = true
   /\ forallb (valid_line ingredient_prices_asfed_tonne) ration_list = true
   /\ fst (run_manual milk_components ingredient_prices_asfed_tonne ration_list false)
      = inr (revenue_dollar_per_d (manual_revenue 31 3.6 3.3 5.7 13.3 10.96 0.9)
             - ration_cost ingredient_prices_asfed_tonne ration_list)
   /\ (revenue_dollar_per_d (manual_revenue 31 3.6 3.3 5.7 13.3 10.96 0.9)
       - ration_cost ingredient_prices_asfed_tonne ration_list
       <=? revenue_dollar_per_d (manual_revenue 31 3.6 3.3 5.7 13.3 10.96 0.9)) = true)
  /\
  (valid_outputs 1070.676 981.453 29.741 5.7 13.3 10.96 0.9 = true
   /\ forallb (valid_row ingredient_prices_asfed_tonne) diet = true
   /\ fst (run_nd ingredient_prices_asfed_tonne outputs_nd diet)
      = inr (revenue_dollar_per_d (nd_revenue 1070.676 981.453 29.741 5.7 13.3 10.96 0.9)
             - diet_cost ingredient_prices_asfed_tonne diet)
   /\ (revenue_dollar_per_d (nd_revenue 1070.676 981.453 29.741 5.7 13.3 10.96 0.9)
       - diet_cost ingredient_prices_asfed_tonne diet
       <=? revenue_dollar_per_d (nd_revenue 1070.676 981.453 29.741 5.7 13.3 10.96 0.9))
      = true).
Proof.
  cbv zeta.
  set (diet := (fun r => {| Feedstuff := Ingredient r; Fd_DMInp := 0;
                            Fd_DM := DM_perc r; Fd_DMIn := kg_inclusion r |})
                 <$> ration_list).
  destruct IOFC_at_most_revenue as [Hmanual Hnd].
  assert (Ha : manual_args notebook milk_prices_ref milk_components_ref
                 ingredient_prices_ref ration_df_ref milk_prices milk_components
                 ingredient_prices_asfed_tonne ration_list)
    by (repeat split; reflexivity).
  assert (Hb : nd_args (nd_world ingredient_prices_asfed_tonne outputs_nd diet)
                 milk_prices_ref nd_prices_ref mod_output_ref
                 milk_prices ingredient_prices_asfed_tonne outputs_nd diet)
    by (exists diet_info_ref; repeat split; reflexivity).
  assert (Hp : milk_prices_fields milk_prices 5.7 13.3 10.96 0.9)
    by (repeat split; vm_compute; reflexivity).
  assert (Hc : milk_components_fields milk_components 31 3.6 3.3)
    by (repeat split; vm_compute; reflexivity).
  assert (Ho : model_values outputs_nd 1070.676 981.453 29.741)
    by (repeat split; vm_compute; reflexivity).
  assert (Hv : Np.Series_all (ingredient_validation ration_list) = true)
    by (vm_compute; reflexivity).
  assert (Hm : valid_milk 31 3.6 3.3 5.7 13.3 10.96 0.9 = true)
    by (vm_compute; reflexivity).
  assert (Hl : forallb (valid_line ingredient_prices_asfed_tonne) ration_list = true)
    by (vm_compute; reflexivity).
  assert (Hu : valid_outputs 1070.676 981.453 29.741 5.7 13.3 10.96 0.9 = true)
    by (vm_compute; reflexivity).
  assert (Hd : forallb (valid_row ingredient_prices_asfed_tonne) diet = true)
    by (vm_compute; reflexivity).
  split.
  - destruct (Hmanual _ _ _ _ _ _ _ _ _ _ _ _ _ _ _ _ false Ha Hp Hc Hv Hm Hl)
      as [Hval [Hle|[Hinf _]]].
    + repeat split; assumption.
    + apply (f_equal is_infinity) in Hinf. vm_compute in Hinf. discriminate.
  - destruct (Hnd _ _ _ _ _ _ _ _ _ _ _ _ _ _ _ Hb Hp Ho Hu Hd)
      as [Hval [Hle|[Hinf _]]].
    + repeat split; assumption.
    + apply (f_equal is_infinity) in Hinf. vm_compute in Hinf. discriminate.
Defined.

Ltac finite_value H :=
  apply (f_equal is_infinity) in H; vm_compute in H; discriminate.

(** Canola at 700 instead of 600 dollars a tonne. *)
Lemma dearer_feed_never_raises_IOFC_witness :
  let diet := (fun r => {| Feedstuff := Ingredient r; Fd_DMInp := 0;
                           Fd_DM := DM_perc r; Fd_DMIn := kg_inclusion r |})
                <$> ration_list in
  let dearer := <["Canola" := 700]> ingredient_prices_asfed_tonne in
  (exists x y,
      fst (run_manual milk_components ingredient_prices_asfed_tonne ration_list false) = inr x
      /\ fst (run_manual milk_components dearer ration_list false) = inr y
      /\ (ration_cost ingredient_prices_asfed_tonne ration_list
          <=? ration_cost dearer ration_list) = true
      /\ (y <=? x) = true)
  /\
  (exists x y,
      fst (run_nd ingredient_prices_asfed_tonne outputs_nd diet) = inr x
      /\ fst (run_nd dearer outputs_nd diet) = inr y
      /\ (diet_cost ingredient_prices_asfed_tonne diet <=? diet_cost dearer diet) = true
      /\ (y <=? x) = true).
Proof.
  cbv zeta.
  set (diet := (fun r => {| Feedstuff := Ingredient r; Fd_DMInp := 0;
                            Fd_DM := DM_perc r; Fd_DMIn := kg_inclusion r |})
                 <$> ration_list).
  set (dearer := <["Canola" := 700]> ingredient_prices_asfed_tonne).
  destruct dearer_feed_never_raises_IOFC as [Hmanual Hnd].
  assert (Ha : manual_args notebook milk_prices_ref milk_components_ref
                 ingredient_prices_ref ration_df_ref milk_prices milk_components
                 ingredient_prices_asfed_tonne ration_list)
    by (repeat split; reflexivity).
  assert (Ha' : manual_args (manual_world milk_components dearer ration_list)
                  milk_prices_ref milk_components_ref
                  ingredient_prices_ref ration_df_ref milk_prices milk_components
                  dearer ration_list)
    by (repeat split; reflexivity).
  assert (Hb : nd_args (nd_world ingredient_prices_asfed_tonne outputs_nd diet)
                 milk_prices_ref nd_prices_ref mod_output_ref
                 milk_prices ingredient_prices_asfed_tonne outputs_nd diet)
    by (exists diet_info_ref; repeat split; reflexivity).
  assert (Hb' : nd_args (nd_world dearer outputs_nd diet)
                  milk_prices_ref nd_prices_ref mod_output_ref
                  milk_prices dearer outputs_nd diet)
    by (exists diet_info_ref; repeat split; reflexivity).
  assert (Hp : milk_prices_fields milk_prices 5.7 13.3 10.96 0.9)
    by (repeat split; vm_compute; reflexivity).
  assert (Hc : milk_components_fields milk_components 31 3.6 3.3)
    by (repeat split; vm_compute; reflexivity).
  assert (Ho : model_values outputs_nd 1070.676 981.453 29.741)
    by (repeat split; vm_compute; reflexivity).
  assert (Hv : Np.Series_all (ingredient_validation ration_list) = true)
    by (vm_compute; reflexivity).
  assert (Hm : valid_milk 31 3.6 3.3 5.7 13.3 10.96 0.9 = true)
    by (vm_compute; reflexivity).
  assert (Hu : valid_outputs 1070.676 981.453 29.741 5.7 13.3 10.96 0.9 = true)
    by (vm_compute; reflexivity).
  assert (Hl : forallb (valid_line ingredient_prices_asfed_tonne) ration_list = true)
    by (vm_compute; reflexivity).
  assert (Hl' : forallb (valid_line dearer) ration_list = true)
    by (vm_compute; reflexivity).
  assert (Hd : forallb (valid_row ingredient_prices_asfed_tonne) diet = true)
    by (vm_compute; reflexivity).
  assert (Hd' : forallb (valid_row dearer) diet = true)
    by (vm_compute; reflexivity).
  assert (Hle : forall r p p', r ∈ ration_list ->
                  ingredient_prices_asfed_tonne !! Ingredient r = Some p ->
                  dearer !! Ingredient r = Some p' -> (p <=? p') = true).
  { intros r p p' Hin. unfold ration_list in Hin.
    repeat (apply elem_of_cons in Hin as [->|Hin];
            [intros H1 H2; vm_compute in H1, H2;
             injection H1 as <-; injection H2 as <-; reflexivity|]).
    inversion Hin. }
  assert (Hle' : forall r p p', r ∈ diet ->
                   ingredient_prices_asfed_tonne !! Feedstuff r = Some p ->
                   dearer !! Feedstuff r = Some p' -> (p <=? p') = true).
  { intros r p p' Hin. unfold diet, ration_list in Hin. rewrite !fmap_cons in Hin.
    repeat (apply elem_of_cons in Hin as [->|Hin];
            [intros H1 H2; vm_compute in H1, H2;
             injection H1 as <-; injection H2 as <-; reflexivity|]).
    inversion Hin. }
  split.
  - destruct (Hmanual _ _ _ _ _ _ _ _ _ _ _ _ _ _ _ _ _ _ false
                Ha Ha' Hp Hc Hv Hm Hl Hl' Hle)
      as (Hx & Hy & Hcost & [Hyx|[Hinf _]]); [|finite_value Hinf].
    exact (ex_intro _ _ (ex_intro _ _ (conj Hx (conj Hy (conj Hcost Hyx))))).
  - destruct (Hnd _ _ _ _ _ _ _ _ _ _ _ _ _ _ _ _ _
                Hb Hb' Hp Ho Hu Hd Hd' Hle')
      as (Hx & Hy & Hcost & [Hyx|[Hinf _]]); [|finite_value Hinf].
    exact (ex_intro _ _ (ex_intro _ _ (conj Hx (conj Hy (conj Hcost Hyx))))).
Defined.

(** A yield of 32 kg/d instead of 31, and the model outputs of the larger
    yield. *)
Lemma better_milk_never_lowers_IOFC_witness :
  let diet := (fun r => {| Feedstuff := Ingredient r; Fd_DMInp := 0;
                           Fd_DM := DM_perc r; Fd_DMIn := kg_inclusion r |})
                <$> ration_list in
  let more := <["MY_kg_d" := 32]> milk_components in
  (exists x y,
      fst (run_manual milk_components ingredient_prices_asfed_tonne ration_list false) = inr x
      /\ fst (run_manual more ingredient_prices_asfed_tonne ration_list false) = inr y
      /\ (revenue_dollar_per_d (manual_revenue 31 3.6 3.3 5.7 13.3 10.96 0.9)
          <=? revenue_dollar_per_d (manual_revenue 32 3.6 3.3 5.7 13.3 10.96 0.9)) = true
      /\ (x <=? y) = true)
  /\
  (exists x y,
      fst (run_nd ingredient_prices_asfed_tonne outputs_nd diet) = inr x
      /\ fst (run_nd ingredient_prices_asfed_tonne outputs_31 diet) = inr y
      /\ (x <=? y) = true).
Proof.
  cbv zeta.
  set (diet := (fun r => {| Feedstuff := Ingredient r; Fd_DMInp := 0;
                            Fd_DM := DM_perc r; Fd_DMIn := kg_inclusion r |})
                 <$> ration_list).
  set (more := <["MY_kg_d" := 32]> milk_components).
  destruct better_milk_never_lowers_IOFC as [Hmanual Hnd].
  assert (Ha : manual_args notebook milk_prices_ref milk_components_ref
                 ingredient_prices_ref ration_df_ref milk_prices milk_components
                 ingredient_prices_asfed_tonne ration_list)
    by (repeat split; reflexivity).
  assert (Ha' : manual_args (manual_world more ingredient_prices_asfed_tonne ration_list)
                  milk_prices_ref milk_components_ref
                  ingredient_prices_ref ration_df_ref milk_prices more
                  ingredient_prices_asfed_tonne ration_list)
    by (repeat split; reflexivity).
  assert (Hb : nd_args (nd_world ingredient_prices_asfed_tonne outputs_nd diet)
                 milk_prices_ref nd_prices_ref mod_output_ref
                 milk_prices ingredient_prices_asfed_tonne outputs_nd diet)
    by (exists diet_info_ref; repeat split; reflexivity).
  assert (Hb' : nd_args (nd_world ingredient_prices_asfed_tonne outputs_31 diet)
                  milk_prices_ref nd_prices_ref mod_output_ref
                  milk_prices ingredient_prices_asfed_tonne outputs_31 diet)
    by (exists diet_info_ref; repeat split; reflexivity).
  assert (Hp : milk_prices_fields milk_prices 5.7 13.3 10.96 0.9)
    by (repeat split; vm_compute; reflexivity).
  assert (Hc : milk_components_fields milk_components 31 3.6 3.3)
    by (repeat split; vm_compute; reflexivity).
  assert (Hc' : milk_components_fields more 32 3.6 3.3)
    by (repeat split; vm_compute; reflexivity).
  assert (Ho : model_values outputs_nd 1070.676 981.453 29.741)
    by (repeat split; vm_compute; reflexivity).
  assert (Ho' : model_values outputs_31 (1000 * (3.6 / 100 * 31))
                  (1000 * (3.3 / 100 * 31)) 31)
    by (repeat split; vm_compute; reflexivity).
  assert (Hv : Np.Series_all (ingredient_validation ration_list) = true)
    by (vm_compute; reflexivity).
  assert (Hm : valid_milk 31 3.6 3.3 5.7 13.3 10.96 0.9 = true)
    by (vm_compute; reflexivity).
  assert (Hm' : valid_milk 32 3.6 3.3 5.7 13.3 10.96 0.9 = true)
    by (vm_compute; reflexivity).
  assert (Hu : valid_outputs 1070.676 981.453 29.741 5.7 13.3 10.96 0.9 = true)
    by (vm_compute; reflexivity).
  assert (Hu' : valid_outputs (1000 * (3.6 / 100 * 31)) (1000 * (3.3 / 100 * 31)) 31
                  5.7 13.3 10.96 0.9 = true)
    by (vm_compute; reflexivity).
  assert (Hl : forallb (valid_line ingredient_prices_asfed_tonne) ration_list = true)
    by (vm_compute; reflexivity).
  assert (Hd : forallb (valid_row ingredient_prices_asfed_tonne) diet = true)
    by (vm_compute; reflexivity).
  split.
  - destruct (Hmanual _ _ _ _ _ _ _ _ _ _ _ _ _ _ _ _ _ _ _ _ _ _ _ _ _ _ false
                Ha Ha' Hp Hp Hc Hc' Hv Hm Hm' Hl)
      as (Hx & Hy & Hrev & [Hxy|[Hinf _]]); [| | finite_value Hinf].
    + repeat (apply Forall2_cons; split; [vm_compute; reflexivity|]).
      apply Forall2_nil. exact I.
    + exact (ex_intro _ _ (ex_intro _ _ (conj Hx (conj Hy (conj Hrev Hxy))))).
  - destruct (Hnd _ _ _ _ _ _ _ _ _ _ _ _ _ _ _ _ _ _ _ _ _ _ _ _ _
                Hb Hb' Hp Hp Ho Ho' Hu Hu' Hd)
      as (Hx & Hy & Hrev & [Hxy|[Hinf _]]); [| | finite_value Hinf].
    + repeat (apply Forall2_cons; split; [vm_compute; reflexivity|]).
      apply Forall2_nil. exact I.
    + exact (ex_intro _ _ (ex_intro _ _ (conj Hx (conj Hy Hxy)))).
Defined.

(** Half a kilogram more canola, and corn silage at 30 instead of 33 per
    cent dry matter. *)
Lemma more_feed_never_raises_IOFC_witness :
  let more := [
    {| Ingredient := "Wheat straw, Elora";  kg_inclusion := 0.5; DM_perc := 90 |};
    {| Ingredient := "Alfalfa Silage";      kg_inclusion := 8.2; DM_perc := 35 |};
    {| Ingredient := "Corn silage, Elora";  kg_inclusion := 8.2; DM_perc := 30 |};
    {| Ingredient := "Corn Grain HM";       kg_inclusion := 3.7; DM_perc := 87 |};
    {| Ingredient := "Soybean meal 47%";    kg_inclusion := 2.0; DM_perc := 88 |};
    {| Ingredient := "Canola";              kg_inclusion := 1.5; DM_perc := 91 |};
    {| Ingredient := "Vitamin/mineral mix"; kg_inclusion := 0.2; DM_perc := 100 |} ] in
  let as_diet := fmap (fun r => {| Feedstuff := Ingredient r; Fd_DMInp := 0;
                                   Fd_DM := DM_perc r; Fd_DMIn := kg_inclusion r |}) in
  (exists x y,
      fst (run_manual milk_components ingredient_prices_asfed_tonne ration_list false) = inr x
      /\ fst (run_manual milk_components ingredient_prices_asfed_tonne more false) = inr y
      /\ (ration_cost ingredient_prices_asfed_tonne ration_list
          <=? ration_cost ingredient_prices_asfed_tonne more) = true
      /\ (y <=? x) = true)
  /\
  (exists x y,
      fst (run_nd ingredient_prices_asfed_tonne outputs_nd (as_diet ration_list)) = inr x
      /\ fst (run_nd ingredient_prices_asfed_tonne outputs_nd (as_diet more)) = inr y
      /\ (diet_cost ingredient_prices_asfed_tonne (as_diet ration_list)
          <=? diet_cost ingredient_prices_asfed_tonne (as_diet more)) = true
      /\ (y <=? x) = true).
Proof.
  cbv zeta.
  set (more := [
    {| Ingredient := "Wheat straw, Elora";  kg_inclusion := 0.5; DM_perc := 90 |};
    {| Ingredient := "Alfalfa Silage";      kg_inclusion := 8.2; DM_perc := 35 |};
    {| Ingredient := "Corn silage, Elora";  kg_inclusion := 8.2; DM_perc := 30 |};
    {| Ingredient := "Corn Grain HM";       kg_inclusion := 3.7; DM_perc := 87 |};
    {| Ingredient := "Soybean meal 47%";    kg_inclusion := 2.0; DM_perc := 88 |};
    {| Ingredient := "Canola";              kg_inclusion := 1.5; DM_perc := 91 |};
    {| Ingredient := "Vitamin/mineral mix"; kg_inclusion := 0.2; DM_perc := 100 |} ]).
  set (as_diet := fmap (fun r => {| Feedstuff := Ingredient r; Fd_DMInp := 0;
                                    Fd_DM := DM_perc r; Fd_DMIn := kg_inclusion r |})).
  destruct more_feed_never_raises_IOFC as [Hmanual Hnd].
  assert (Ha : manual_args notebook milk_prices_ref milk_components_ref
                 ingredient_prices_ref ration_df_ref milk_prices milk_components
                 ingredient_prices_asfed_tonne ration_list)
    by (repeat split; reflexivity).
  assert (Ha' : manual_args (manual_world milk_components ingredient_prices_asfed_tonne more)
                  milk_prices_ref milk_components_ref
                  ingredient_prices_ref ration_df_ref milk_prices milk_components
                  ingredient_prices_asfed_tonne more)
    by (repeat split; reflexivity).
  assert (Hb : nd_args (nd_world ingredient_prices_asfed_tonne outputs_nd (as_diet ration_list))
                 milk_prices_ref nd_prices_ref mod_output_ref
                 milk_prices ingredient_prices_asfed_tonne outputs_nd (as_diet ration_list))
    by (exists diet_info_ref; repeat split; reflexivity).
  assert (Hb' : nd_args (nd_world ingredient_prices_asfed_tonne outputs_nd (as_diet more))
                  milk_prices_ref nd_prices_ref mod_output_ref
                  milk_prices ingredient_prices_asfed_tonne outputs_nd (as_diet more))
    by (exists diet_info_ref; repeat split; reflexivity).
  assert (Hp : milk_prices_fields milk_prices 5.7 13.3 10.96 0.9)
    by (repeat split; vm_compute; reflexivity).
  assert (Hc : milk_components_fields milk_components 31 3.6 3.3)
    by (repeat split; vm_compute; reflexivity).
  assert (Ho : model_values outputs_nd 1070.676 981.453 29.741)
    by (repeat split; vm_compute; reflexivity).
  assert (Hv : Np.Series_all (ingredient_validation ration_list) = true)
    by (vm_compute; reflexivity).
  assert (Hv' : Np.Series_all (ingredient_validation more) = true)
    by (vm_compute; reflexivity).
  assert (Hm : valid_milk 31 3.6 3.3 5.7 13.3 10.96 0.9 = true)
    by (vm_compute; reflexivity).
  assert (Hu : valid_outputs 1070.676 981.453 29.741 5.7 13.3 10.96 0.9 = true)
    by (vm_compute; reflexivity).
  assert (Hl : forallb (valid_line ingredient_prices_asfed_tonne) ration_list = true)
    by (vm_compute; reflexivity).
  assert (Hl' : forallb (valid_line ingredient_prices_asfed_tonne) more = true)
    by (vm_compute; reflexivity).
  assert (Hd : forallb (valid_row ingredient_prices_asfed_tonne) (as_diet ration_list) = true)
    by (vm_compute; reflexivity).
  assert (Hd' : forallb (valid_row ingredient_prices_asfed_tonne) (as_diet more) = true)
    by (vm_compute; reflexivity).
  split.
  - destruct (Hmanual _ _ _ _ _ _ _ _ _ _ _ _ _ _ _ _ _ _ false
                Ha Ha' Hp Hc Hv Hv' Hm Hl Hl')
      as (Hx & Hy & Hcost & [Hyx|[Hinf _]]); [| | finite_value Hinf].
    + unfold more, ration_list.
      repeat (apply Forall2_cons; split; [repeat split; vm_compute; reflexivity|]).
      apply Forall2_nil. exact I.
    + exact (ex_intro _ _ (ex_intro _ _ (conj Hx (conj Hy (conj Hcost Hyx))))).
  - destruct (Hnd _ _ _ _ _ _ _ _ _ _ _ _ _ _ _ _ _
                Hb Hb' Hp Ho Hu Hd Hd')
      as (Hx & Hy & Hcost & [Hyx|[Hinf _]]); [| | finite_value Hinf].
    + unfold as_diet, more, ration_list. rewrite !fmap_cons.
      repeat (apply Forall2_cons; split; [repeat split; vm_compute; reflexivity|]).
      apply Forall2_nil. exact I.
    + exact (ex_intro _ _ (ex_intro _ _ (conj Hx (conj Hy (conj Hcost Hyx))))).
Defined.
